(** * LTPD acceptance-sampling plans on the hypergeometric model

    A shallow embedding of [6.py] (two Streamlit applications in one file:
    the plan for acceptance number [c = 0] and the plan for a general [c]),
    and the properties proved about it.

    Python integers are [Z].  Python floats are IEEE-754 binary64 values,
    taken from the Standard Library's [SpecFloat] with precision 53 and
    maximal exponent 1024 (round to nearest, ties to even).  Exceptions are
    values of an error monad. *)

From Stdlib Require Import ZArith List Bool Lia QArith Qpower Lqa.
From Stdlib Require Import Floats.SpecFloat.
Import ListNotations.
Open Scope Z_scope.

(** ** Exceptions and sequencing *)

Inductive exn : Type :=
| ZeroDivisionError
| OverflowError
| ValueError.

Inductive result (A : Type) : Type :=
| Ok (a : A)
| Raise (e : exn).
Arguments Ok {A} a.
Arguments Raise {A} e.

Definition bind {A B : Type} (r : result A) (k : A -> result B) : result B :=
  match r with
  | Ok a => k a
  | Raise e => Raise e
  end.

Notation "x <- r ;; k" := (bind r (fun x => k))
  (at level 61, r at next level, right associativity).

(** A [for] loop that threads an accumulator and stops at the first
    exception. *)
Fixpoint foldM {A B : Type} (f : A -> B -> result A) (l : list B) (a : A) : result A :=
  match l with
  | [] => Ok a
  | b :: l' => a' <- f a b ;; foldM f l' a'
  end.

(** [range(start, stop)]. *)
Definition range (start stop : Z) : list Z :=
  map (fun k => start + Z.of_nat k) (seq 0 (Z.to_nat (stop - start))).

(** ** Floats: IEEE-754 binary64 *)

Definition prec : Z := 53.
Definition emax : Z := 1024.
Definition float : Type := spec_float.

Definition fmul : float -> float -> float := SFmul prec emax.
Definition fadd : float -> float -> float := SFadd prec emax.
Definition fsub : float -> float -> float := SFsub prec emax.
Definition fdiv : float -> float -> float := SFdiv prec emax.
Definition fltb : float -> float -> bool := SFltb.
Definition fleb : float -> float -> bool := SFleb.
Definition feqb : float -> float -> bool := SFeqb.

Definition is_inf (x : float) : bool :=
  match x with S754_infinity _ => true | _ => false end.
Definition is_zero (x : float) : bool :=
  match x with S754_zero _ => true | _ => false end.

(** An integer as an unrounded significand with exponent 0. *)
Definition Zfin (z : Z) : float :=
  match z with
  | Z0 => S754_zero false
  | Zpos p => S754_finite false p 0
  | Zneg p => S754_finite true p 0
  end.

(** The binary64 value nearest to an integer (infinite when out of range). *)
Definition float_of_Z (z : Z) : float := binary_normalize prec emax z 0 false.

(** The float literal written [num/den] in decimal, correctly rounded. *)
Definition decimal (num den : Z) : float := SFdiv prec emax (Zfin num) (Zfin den).

Definition f_zero : float := S754_zero false.
Definition f_one : float := Eval vm_compute in float_of_Z 1.
Definition f_three : float := Eval vm_compute in float_of_Z 3.
Definition f_hundred : float := Eval vm_compute in float_of_Z 100.
Definition f_nan : float := S754_nan.
Definition lit_0_3679 : float := Eval vm_compute in decimal 3679 10000.
Definition lit_0_08 : float := Eval vm_compute in decimal 8 100.
Definition lit_0_05 : float := Eval vm_compute in decimal 5 100.
Definition f_half : float := Eval vm_compute in decimal 1 2.

(** [float(z)], as done implicitly when an [int] meets a [float]:
    [OverflowError] when [z] is too large. *)
Definition int_to_float (z : Z) : result float :=
  let r := float_of_Z z in
  if is_inf r then Raise OverflowError else Ok r.

(** [a / b] on two [int]s: the correctly rounded quotient. *)
Definition int_truediv (a b : Z) : result float :=
  if b =? 0 then Raise ZeroDivisionError
  else if a =? 0 then Ok (S754_zero (b <? 0))
  else
    let r := SFdiv prec emax (Zfin a) (Zfin b) in
    if is_inf r then Raise OverflowError else Ok r.

(** [x / y] on two [float]s. *)
Definition float_truediv (x y : float) : result float :=
  if is_zero y then Raise ZeroDivisionError else Ok (fdiv x y).

(** [z * x] with [z] an [int] and [x] a [float]. *)
Definition int_mul_float (z : Z) (x : float) : result float :=
  zf <- int_to_float z ;; Ok (fmul zf x).

(** [math.ceil(x)]. *)
Definition py_ceil (x : float) : result Z :=
  match x with
  | S754_zero _ => Ok 0
  | S754_finite s m e =>
      let v := if s then Zneg m else Zpos m in
      Ok (if 0 <=? e then v * 2 ^ e else - ((- v) / 2 ^ (- e)))
  | S754_infinity _ => Raise OverflowError
  | S754_nan => Raise ValueError
  end.

(** The binomial coefficient, by Pascal's rule. *)
Fixpoint binom (n k : nat) {struct n} : Z :=
  match n, k with
  | _, O => 1
  | O, S _ => 0
  | S n', S k' => binom n' k' + binom n' k
  end.

(** The largest C [long long]. *)
Definition llong_max : Z := 2 ^ 63 - 1.

(** [math.comb(n, k)]: the binomial coefficient, 0 when [k > n].  It raises
    [ValueError] on a negative argument and [OverflowError] when
    [min(k, n - k)] does not fit a C [long long]. *)
Definition comb (n k : Z) : result Z :=
  if (n <? 0) || (k <? 0) then Raise ValueError
  else if (k <=? n) && (llong_max <? Z.min k (n - k)) then Raise OverflowError
  else Ok (binom (Z.to_nat n) (Z.to_nat k)).

(** The same coefficient over the unbounded integers, with no machine
    limit: what [comb] is in the exact reading of the program. *)
Definition comb_exact (n k : Z) : result Z :=
  if (n <? 0) || (k <? 0) then Raise ValueError
  else Ok (binom (Z.to_nat n) (Z.to_nat k)).

(** [numpy.linspace(start, stop, num)] on float64, end point included:
    the grid is [i * step + start] with [step = (stop - start) / (num - 1)],
    and the last sample is set to [stop]. *)
Definition linspace (start stop : float) (num : Z) : result (list float) :=
  if num <? 0 then Raise ValueError
  else
    let div := num - 1 in
    let delta := fsub stop start in
    let y := map float_of_Z (range 0 num) in
    let y :=
      if 0 <? div then
        let step := fdiv delta (float_of_Z div) in
        if feqb step f_zero
        then map (fun yi => fmul (fdiv yi (float_of_Z div)) delta) y
        else map (fun yi => fmul yi step) y
      else map (fun yi => fmul yi delta) y in
    let y := map (fun yi => fadd yi start) y in
    Ok (if 1 <? num then removelast y ++ [stop] else y).

(** ** The arithmetic the two evaluators use

    The evaluators are written once over this interface.  Its binary64
    instance is what the program runs: float division, product and sum, and
    [math.comb] with its limit.  Its instance on [Q] reads the same code in
    exact arithmetic: rational operations and the binomial coefficient over
    the unbounded integers. *)

Class Arith (F : Type) : Type := {
  zero : F;
  one : F;
  truediv : Z -> Z -> result F;
  choose : Z -> Z -> result Z;
  mul : F -> F -> F;
  add : F -> F -> F;
  ltb : F -> F -> bool
}.

#[export] Instance binary64 : Arith float := {
  zero := f_zero;
  one := f_one;
  truediv := int_truediv;
  choose := comb;
  mul := fmul;
  add := fadd;
  ltb := fltb
}.

#[export] Instance exact : Arith Q := {
  zero := 0%Q;
  one := 1%Q;
  truediv := fun a b =>
    if b =? 0 then Raise ZeroDivisionError else Ok (inject_Z a / inject_Z b)%Q;
  choose := comb_exact;
  mul := Qmult;
  add := Qplus;
  ltb := fun x y => negb (Qle_bool y x)
}.

(** The builtins [min(a, b)] and [max(a, b)]: the second argument wins
    only when strictly smaller (larger). *)
Definition py_min {F : Type} {A : Arith F} (a b : F) : F := if ltb b a then b else a.
Definition py_max {F : Type} {A : Arith F} (a b : F) : F := if ltb a b then b else a.

(** ** First application: plan with [c = 0] *)

(** [prob_zero_defects(N, D, n)], lines 47-60. *)
Definition prob_zero_defects {F : Type} {A : Arith F} (N D n : Z) : result F :=
  if n =? 0 then Ok one
  else if D <=? 0 then Ok one
  else if n >? N then Ok zero
  else
    p0 <- foldM (fun p0 i => r <- truediv (N - D - i) (N - i) ;; Ok (mul p0 r))
                (range 0 n) one ;;
    Ok (py_max (py_min p0 one) zero).

(** The [for n in range(1, N + 1)] search of both solvers: the first [n]
    whose acceptance probability is at most [beta]. *)
Fixpoint first_below (eval : Z -> result float) (beta : float) (ns : list Z)
  : result (option (Z * float)) :=
  match ns with
  | [] => Ok None
  | n :: rest =>
      P <- eval n ;;
      if fleb P beta then Ok (Some (n, P)) else first_below eval beta rest
  end.

Module PlanC0.

(** [encontrar_n_hipergeometrica(N, pL, beta)], lines 63-74. *)
Definition encontrar_n_hipergeometrica (N : Z) (pL beta : float)
  : result (Z * Z * float) :=
  x <- int_mul_float N pL ;;
  D <- py_ceil x ;;
  hit <- first_below (fun n => prob_zero_defects N D n) beta (range 1 (N + 1)) ;;
  match hit with
  | Some (n, P0) => Ok (n, D, P0)
  | None => P0 <- prob_zero_defects N D N ;; Ok (N, D, P0)
  end.

(** [aoql_aproximado(N, n)], lines 77-80.  When [N <= 0] the source takes
    the integer [0] for [f]; [f > 0] is then false, as for the float zero. *)
Definition aoql_aproximado (N n : Z) : result float :=
  f <- (if N >? 0 then int_truediv n N else Ok f_zero) ;;
  if fltb f_zero f
  then Nf <- int_mul_float N f ;; float_truediv lit_0_3679 Nf
  else Ok f_nan.

(** [curva_OC_hipergeometrica(N, n, p_max, puntos)], lines 83-93: the
    abscissas in percent and the acceptance probabilities in percent. *)
Definition curva_OC_hipergeometrica (N n : Z) (p_max : float) (puntos : Z)
  : result (list float * list float) :=
  p_vals <- linspace f_zero p_max puntos ;;
  Pa <- foldM (fun Pa p =>
                 x <- int_mul_float N p ;;
                 D <- py_ceil x ;;
                 P <- prob_zero_defects N D n ;;
                 Ok (Pa ++ [fmul P f_hundred]))
              p_vals [] ;;
  Ok (map (fun p => fmul p f_hundred) p_vals, Pa).

End PlanC0.

(** ** Second application: plan with a general acceptance number *)

(** [prob_aceptacion(N, D, n, c)], lines 240-251.  [choose] stands for
    [comb], [truediv] for [/] and [add] for [+=]. *)
Definition prob_aceptacion {F : Type} {A : Arith F} (N D n c : Z) : result F :=
  foldM (fun Pa x =>
           if (0 <=? x) && (x <=? D) && (0 <=? n - x) && (n - x <=? N - D) then
             a <- choose D x ;;
             b <- choose (N - D) (n - x) ;;
             d <- choose N n ;;
             t <- truediv (a * b) d ;;
             Ok (add Pa t)
           else Ok Pa)
        (range 0 (c + 1)) zero.

Module PlanC.

(** [encontrar_n_hipergeometrica(N, pL, beta, c)], lines 254-265. *)
Definition encontrar_n_hipergeometrica (N : Z) (pL beta : float) (c : Z)
  : result (Z * Z * float) :=
  x <- int_mul_float N pL ;;
  D <- py_ceil x ;;
  hit <- first_below (fun n => prob_aceptacion N D n c) beta (range 1 (N + 1)) ;;
  match hit with
  | Some (n, Pa) => Ok (n, D, Pa)
  | None => Pa <- prob_aceptacion N D N c ;; Ok (N, D, Pa)
  end.

(** [curva_CO(N, n, c, p_max, puntos)], lines 268-278. *)
Definition curva_CO (N n c : Z) (p_max : float) (puntos : Z)
  : result (list float * list float) :=
  p_vals <- linspace f_zero p_max puntos ;;
  Pa_vals <- foldM (fun Pa_vals p =>
                      x <- int_mul_float N p ;;
                      D <- py_ceil x ;;
                      P <- prob_aceptacion N D n c ;;
                      Ok (Pa_vals ++ [fmul P f_hundred]))
                   p_vals [] ;;
  Ok (map (fun p => fmul p f_hundred) p_vals, Pa_vals).

(** [aoql_aprox(N, n)], lines 281-289. *)
Definition aoql_aprox (N n : Z) : result float :=
  f <- int_truediv n N ;;
  if fltb f_zero f
  then Nf <- int_mul_float N f ;; float_truediv lit_0_3679 Nf
  else Ok f_nan.

End PlanC.

(** ** The main computation of the two applications

    What each page computes when its button is pressed, from the sidebar
    inputs to the values it prints and plots (lines 106-143 and 302-337).
    Formatting and plotting are left out. *)

Record plan : Type := {
  plan_n : Z;
  plan_D : Z;
  plan_Pa : float;
  plan_K : float;
  plan_f : float;
  plan_AOQL : float;
  plan_p_vals : list float;
  plan_Pa_vals : list float
}.

(** The page for [c = 0]: [pL = pL_percent / 100.0], the solver, [K = N * pL],
    [f = n / N], the AOQL and the curve up to [max(0.05, pL * 3)]. *)
Definition calcular_plan_c0 (N : Z) (pL_percent beta : float) : result plan :=
  pL <- float_truediv pL_percent f_hundred ;;
  r <- PlanC0.encontrar_n_hipergeometrica N pL beta ;;
  let '(n, D, P0) := r in
  K <- int_mul_float N pL ;;
  f <- int_truediv n N ;;
  AOQL <- PlanC0.aoql_aproximado N n ;;
  curve <- PlanC0.curva_OC_hipergeometrica N n (py_max lit_0_05 (fmul pL f_three)) 200 ;;
  Ok {| plan_n := n; plan_D := D; plan_Pa := P0; plan_K := K; plan_f := f;
        plan_AOQL := AOQL; plan_p_vals := fst curve; plan_Pa_vals := snd curve |}.

(** The page for a general [c]. *)
Definition calcular_plan (N : Z) (pL_percent beta : float) (c : Z) : result plan :=
  pL <- float_truediv pL_percent f_hundred ;;
  r <- PlanC.encontrar_n_hipergeometrica N pL beta c ;;
  let '(n, D, Pa) := r in
  K <- int_mul_float N pL ;;
  f <- int_truediv n N ;;
  AOQL <- PlanC.aoql_aprox N n ;;
  curve <- PlanC.curva_CO N n c (py_max lit_0_05 (fmul pL f_three)) 200 ;;
  Ok {| plan_n := n; plan_D := D; plan_Pa := Pa; plan_K := K; plan_f := f;
        plan_AOQL := AOQL; plan_p_vals := fst curve; plan_Pa_vals := snd curve |}.

(** ** Real values of floats (used in statements and proofs only) *)

Definition pow2 (e : Z) : Q := Qpower (2#1) e.

(** The rational [m * 2^e]. *)
Definition F2Q (m e : Z) : Q := (inject_Z m * pow2 e)%Q.

(** The value of a float; zeros, infinities and NaN are sent to 0. *)
Definition B2Q (x : float) : Q :=
  match x with
  | S754_finite s m e => if s then (- F2Q (Zpos m) e)%Q else F2Q (Zpos m) e
  | _ => 0%Q
  end.

Definition fx (e : Z) : Z := fexp prec emax e.
Definition dig (m : Z) : Z := Zdigits2 m.

(** [m * 2^e] is in binary64's canonical form. *)
Definition canonical (m e : Z) : Prop := fx (dig m + e) = e.

(** A binary64 number: canonical and below the overflow threshold. *)
Definition representable (m : positive) (e : Z) : Prop :=
  canonical (Zpos m) e /\ e <= 971.

(** Finite floats, and finite floats that are not negative (a zero of
    either sign counts). *)
Definition finite (x : float) : Prop :=
  match x with
  | S754_zero _ => True
  | S754_finite _ m e => representable m e
  | _ => False
  end.

Definition nonneg (x : float) : Prop :=
  match x with
  | S754_zero _ => True
  | S754_finite false m e => representable m e
  | _ => False
  end.

(** Where a value [v] lies between [m * u] and [(m + 1) * u], as the round
    and sticky bits of a shift record tell. *)
Definition inbetween (u : Q) (mrs : shr_record) (v : Q) : Prop :=
  let m := inject_Z (shr_m mrs) in
  match shr_r mrs, shr_s mrs with
  | false, false => v == m * u
  | false, true => m * u < v /\ v < (m + (1#2)) * u
  | true, false => v == (m + (1#2)) * u
  | true, true => (m + (1#2)) * u < v /\ v < (m + 1) * u
  end%Q.

Definition rne (mrs : shr_record) : Z :=
  round_nearest_even (shr_m mrs) (loc_of_shr_record mrs).

Definition M53 : Z := 9007199254740992.
Definition M52 : Z := 4503599627370496.

(** The two halves of [binary_round_aux]: shift and round, then renormalise. *)
Definition round_core (mx ex : Z) (lx : location) : Z * Z :=
  let '(mrs, e) := shr_fexp prec emax mx ex lx in (rne mrs, e).

Definition finish (sx : bool) (m2 e1 : Z) : spec_float :=
  let '(mrs, e) := shr_fexp prec emax m2 e1 loc_Exact in
  match shr_m mrs with
  | Z0 => S754_zero sx
  | Zpos m => if e <=? emax - prec then S754_finite sx m e else S754_infinity sx
  | Zneg _ => S754_nan
  end.

(** The range test of [prob_aceptacion], line 249. *)
Definition guard (N D n x : Z) : bool :=
  (0 <=? x) && (x <=? D) && (0 <=? n - x) && (n - x <=? N - D).

(** The loop of [prob_zero_defects] on binary64 (lines 57-59) and its
    final clamp (line 60). *)
Definition pzd_step (N D : Z) (p0 : float) (i : Z) : result float :=
  r <- int_truediv (N - D - i) (N - i) ;; Ok (fmul p0 r).

Definition pzd_loop (N D k : Z) : result float :=
  foldM (pzd_step N D) (range 0 k) f_one.

Definition clamp (p : float) : float := py_max (py_min p f_one) f_zero.

(** What the loop keeps true of the running product before step [k]. *)
Definition pzd_inv (N D k : Z) (p : float) : Prop :=
  nonneg p /\ (B2Q p <= 1)%Q /\ (N - D < k -> is_zero p = true).

(** [2^1023]: integers up to it convert and divide without overflow. *)
Definition two_1023 : Z := 2 ^ 1023.

(** [2^1024]: the first power of two that is no binary64 number. *)
Definition two_1024 : Z := 2 ^ 1024.

(** The shape the two solvers share: the limiting count [D], then the
    search over [n]. *)
Definition solve (eval : Z -> Z -> result float) (N : Z) (pL beta : float)
  : result (Z * Z * float) :=
  x <- int_mul_float N pL ;;
  D <- py_ceil x ;;
  hit <- first_below (eval D) beta (range 1 (N + 1)) ;;
  match hit with
  | Some (n, P) => Ok (n, D, P)
  | None => P <- eval D N ;; Ok (N, D, P)
  end.

(** The binomial coefficient on integers, 0 below the range. *)
Definition bz (M y : Z) : Z :=
  if y <? 0 then 0 else binom (Z.to_nat M) (Z.to_nat y).

(** The numerator [C(D, x) * C(N - D, n - x)] of a term of the
    hypergeometric sum, and the sum of the terms [0..c]. *)
Definition hterm (N D n : Z) (x : nat) : Z :=
  binom (Z.to_nat D) x * bz (N - D) (n - Z.of_nat x).

Fixpoint hsum (N D n : Z) (c : nat) : Z :=
  match c with
  | O => hterm N D n O
  | S c' => hsum N D n c' + hterm N D n (S c')
  end.

(** The [i]-th sample of [linspace(0, p_max, puntos)]. *)
Definition grid_point (p_max : float) (puntos i : Z) : float :=
  if i =? puntos - 1 then p_max
  else
    let div := puntos - 1 in
    let delta := fsub p_max f_zero in
    let step := fdiv delta (float_of_Z div) in
    fadd (if feqb step f_zero
          then fmul (fdiv (float_of_Z i) (float_of_Z div)) delta
          else fmul (float_of_Z i) step)
         f_zero.

(** A loop that appends one result per element. *)
Fixpoint mapM {A B : Type} (h : A -> result B) (l : list A) : result (list B) :=
  match l with
  | [] => Ok []
  | a :: l' => v <- h a ;; vs <- mapM h l' ;; Ok (v :: vs)
  end.

(** One ordinate of an OC curve: the acceptance probability, in percent,
    at the proportion [p]. *)
Definition ordinate (eval : Z -> result float) (N : Z) (p : float) : result float :=
  x <- int_mul_float N p ;;
  D <- py_ceil x ;;
  P <- eval D ;;
  Ok (fmul P f_hundred).

Definition two_53 : Z := 2 ^ 53.

(** A value of the binary64 format other than NaN: a zero, an infinity or a
    canonical finite number of either sign. *)
Definition valid (x : float) : Prop :=
  match x with
  | S754_nan => False
  | S754_finite _ m e => representable m e
  | _ => True
  end.

(** [0.0 <= x <= 1.0], as Python compares floats. *)
Definition in_unit (x : float) : Prop := fleb f_zero x = true /\ fleb x f_one = true.

(** The hypergeometric numerator summed up to [c], with the number of
    defectives a natural number; [hsum] is this sum at [d = D]. *)
Fixpoint vsum (d : nat) (M n : Z) (c : nat) : Z :=
  match c with
  | O => binom d O * bz M n
  | S c' => vsum d M n c' + binom d (S c') * bz M (n - Z.of_nat (S c'))
  end.

(** [v] lies in the cell [m1 * 2^e1, (m1 + 1) * 2^e1) of the format's grid
    and is rounded to [m2 * 2^e1], the nearer end, the even one on a tie. *)
Definition rounds (v : Q) (m1 m2 e1 : Z) : Prop :=
  -1074 <= e1 /\ 0 <= m1 /\
  (inject_Z m1 * pow2 e1 <= v /\ v < inject_Z (m1 + 1) * pow2 e1)%Q /\
  m1 <= m2 <= m1 + 1 /\ m1 < M53 /\ (-1074 < e1 -> M52 <= m1) /\
  (m2 = m1 -> (v <= (inject_Z m1 + (1#2)) * pow2 e1)%Q) /\
  (m2 = m1 + 1 -> ((inject_Z m1 + (1#2)) * pow2 e1 <= v)%Q) /\
  ((v == (inject_Z m1 + (1#2)) * pow2 e1)%Q -> m2 = if Z.even m1 then m1 else m1 + 1).

(** The order of two non-negative results of a rounding. *)
Definition below (z z' : float) : Prop :=
  z = S754_zero false \/ z' = S754_infinity false \/
  exists m e m' e', z = S754_finite false m e /\ z' = S754_finite false m' e' /\
                    representable m e /\ representable m' e' /\
                    (F2Q (Zpos m) e <= F2Q (Zpos m') e')%Q.

(** A float of sign [s] and magnitude at least one, possibly infinite. *)
Definition big_signed (s : bool) (p : float) : Prop :=
  p = S754_infinity s \/
  exists m e, p = S754_finite s m e /\ representable m e /\ (1 <= F2Q (Zpos m) e)%Q.

(** * Theorems *)

(** ** Rounding to binary64 *)

Lemma fx_eq e : fx e = Z.max (e - 53) (-1074).
Proof. reflexivity. Qed.

Lemma inject_xO p : (inject_Z (Zpos p~0) == 2 * inject_Z (Zpos p))%Q.
Proof. rewrite Pos2Z.inj_xO, inject_Z_mult. reflexivity. Qed.
Lemma inject_xI p : (inject_Z (Zpos p~1) == 2 * inject_Z (Zpos p) + 1)%Q.
Proof. rewrite Pos2Z.inj_xI, inject_Z_plus, inject_Z_mult. reflexivity. Qed.

Lemma shr_1_inb u mrs v :
  (0 < u)%Q -> 0 <= shr_m mrs -> inbetween u mrs v ->
  inbetween (2 * u) (shr_1 mrs) v /\ 0 <= shr_m (shr_1 mrs).
Proof.
  destruct mrs as [m r s]. cbn [shr_m]. intros Hu Hm H.
  destruct m as [|p|p]; [| |lia].
  - unfold inbetween in *. cbn [shr_1 shr_m shr_r shr_s] in *.
    destruct r, s; cbn [orb] in *; (split; [|lia]).
    all: change (inject_Z 0) with 0%Q in *.
    all: lra.
  - unfold inbetween in *. destruct p as [p|p|]; cbn [shr_1 shr_m shr_r shr_s] in *.
    + pose proof (inject_xI p) as E.
      set (w1 := inject_Z (Zpos p~1)) in *. set (w := inject_Z (Zpos p)) in *.
      destruct r, s; cbn [orb] in *; (split; [|lia]); nra.
    + pose proof (inject_xO p) as E.
      set (w1 := inject_Z (Zpos p~0)) in *. set (w := inject_Z (Zpos p)) in *.
      destruct r, s; cbn [orb] in *; (split; [|lia]); nra.
    + change (inject_Z 1) with 1%Q in *. change (inject_Z 0) with 0%Q in *.
      destruct r, s; cbn [orb] in *; (split; [|lia]); lra.
Qed.


Lemma pow2_pos e : (0 < pow2 e)%Q.
Proof. apply Qpower_0_lt. reflexivity. Qed.

Lemma pow2_add a b : (pow2 (a + b) == pow2 a * pow2 b)%Q.
Proof. apply Qpower_plus. discriminate. Qed.

Lemma pow2_le a b : a <= b -> (pow2 a <= pow2 b)%Q.
Proof. intros. apply Qpower_le_compat_l; [assumption | discriminate]. Qed.

Lemma pow2_lt a b : a < b -> (pow2 a < pow2 b)%Q.
Proof. intros. apply Qpower_lt_compat_l; [assumption | reflexivity]. Qed.

Lemma pow2_lt_inv a b : (pow2 a < pow2 b)%Q -> a < b.
Proof.
  intros H. destruct (Z_lt_le_dec a b) as [|Hle]; [assumption|].
  apply pow2_le in Hle. lra.
Qed.

Lemma pow2_Z n : 0 <= n -> (pow2 n == inject_Z (2 ^ n))%Q.
Proof. intros. rewrite Zpower_Qpower by assumption. reflexivity. Qed.

Lemma digits2_size p : digits2_pos p = Pos.size p.
Proof. induction p; simpl; congruence. Qed.

Lemma dig_Z p : 2 ^ (dig (Zpos p) - 1) <= Zpos p < 2 ^ dig (Zpos p).
Proof.
  unfold dig, Zdigits2. rewrite digits2_size.
  pose proof (Pos.size_gt p) as H1. pose proof (Pos.size_le p) as H2.
  apply Pos2Z.pos_lt_pos in H1. apply Pos2Z.pos_le_pos in H2.
  rewrite Pos2Z.inj_pow in H1, H2. change (Zpos p~0) with (2 * Zpos p) in H2.
  split; [|exact H1].
  assert (0 < Zpos (Pos.size p)) by lia.
  replace (Zpos (Pos.size p)) with (Z.succ (Zpos (Pos.size p) - 1)) in H2 by lia.
  rewrite Z.pow_succ_r in H2 by lia. lia.
Qed.

Lemma dig_pos p : 0 < dig (Zpos p).
Proof. unfold dig, Zdigits2. lia. Qed.

Lemma dig_Q p : (pow2 (dig (Zpos p) - 1) <= inject_Z (Zpos p) /\ inject_Z (Zpos p) < pow2 (dig (Zpos p)))%Q.
Proof.
  pose proof (dig_Z p) as [H1 H2]. pose proof (dig_pos p).
  rewrite !pow2_Z by lia. rewrite <- Zle_Qle, <- Zlt_Qlt. auto.
Qed.

Lemma dig_succ_Q m : 0 <= m -> (inject_Z (m + 1) <= pow2 (dig m))%Q.
Proof.
  intros Hm. destruct m as [|p|p]; [unfold Qle; simpl; lia| |lia].
  pose proof (dig_Z p) as [_ H2]. pose proof (dig_pos p).
  rewrite pow2_Z by lia. rewrite <- Zle_Qle. lia.
Qed.

Lemma inbetween_ext u u' mrs v : (u == u')%Q -> inbetween u mrs v -> inbetween u' mrs v.
Proof.
  unfold inbetween. intros E. set (w := inject_Z (shr_m mrs)).
  destruct (shr_r mrs), (shr_s mrs); intros H; nra.
Qed.

Lemma iter_shr_inb p : forall u mrs v,
  (0 < u)%Q -> 0 <= shr_m mrs -> inbetween u mrs v ->
  inbetween (pow2 (Zpos p) * u) (iter_pos shr_1 p mrs) v /\ 0 <= shr_m (iter_pos shr_1 p mrs).
Proof.
  induction p as [p IH|p IH|]; intros u mrs v Hu Hm H; cbn [iter_pos].
  - destruct (shr_1_inb u mrs v Hu Hm H) as [H1 M1].
    assert (Hu2 : (0 < 2 * u)%Q) by lra.
    destruct (IH _ _ _ Hu2 M1 H1) as [H2 M2].
    assert (Hu3 : (0 < pow2 (Zpos p) * (2 * u))%Q).
    { pose proof (pow2_pos (Zpos p)). nra. }
    destruct (IH _ _ _ Hu3 M2 H2) as [H3 M3]. split; [|exact M3].
    eapply inbetween_ext; [|exact H3].
    rewrite Pos2Z.inj_xI. replace (2 * Zpos p + 1) with (Zpos p + Zpos p + 1) by lia.
    rewrite !pow2_add. change (pow2 1) with 2%Q. ring.
  - destruct (IH _ _ _ Hu Hm H) as [H2 M2].
    assert (Hu3 : (0 < pow2 (Zpos p) * u)%Q).
    { pose proof (pow2_pos (Zpos p)). nra. }
    destruct (IH _ _ _ Hu3 M2 H2) as [H3 M3]. split; [|exact M3].
    eapply inbetween_ext; [|exact H3].
    rewrite Pos2Z.inj_xO. replace (2 * Zpos p) with (Zpos p + Zpos p) by lia.
    rewrite !pow2_add. ring.
  - destruct (shr_1_inb u mrs v Hu Hm H) as [H1 M1]. split; [|exact M1].
    eapply inbetween_ext; [|exact H1]. change (pow2 1) with 2%Q. ring.
Qed.

Lemma shr_inb mrs e n v :
  0 <= n -> 0 <= shr_m mrs -> inbetween (pow2 e) mrs v ->
  inbetween (pow2 (e + n)) (fst (shr mrs e n)) v /\ snd (shr mrs e n) = e + n
  /\ 0 <= shr_m (fst (shr mrs e n)).
Proof.
  intros Hn Hm H. destruct n as [|p|p]; [| |lia]; cbn [shr fst snd].
  - rewrite Z.add_0_r. auto.
  - destruct (iter_shr_inb p _ _ _ (pow2_pos e) Hm H) as [H1 M1].
    repeat split; [|exact M1].
    eapply inbetween_ext; [|exact H1]. rewrite pow2_add. ring.
Qed.

Lemma inbetween_bracket u mrs v :
  (0 < u)%Q -> inbetween u mrs v ->
  (inject_Z (shr_m mrs) * u <= v /\ v < inject_Z (shr_m mrs + 1) * u)%Q.
Proof.
  unfold inbetween. rewrite inject_Z_plus. change (inject_Z 1) with 1%Q.
  set (w := inject_Z (shr_m mrs)). intros Hu.
  destruct (shr_r mrs), (shr_s mrs); intros H; nra.
Qed.

Lemma rne_bracket u mrs v :
  (0 < u)%Q -> inbetween u mrs v ->
  shr_m mrs <= rne mrs <= shr_m mrs + 1 /\
  (rne mrs = shr_m mrs + 1 -> (inject_Z (shr_m mrs) * u < v)%Q).
Proof.
  unfold inbetween, rne. destruct mrs as [m r s]. cbn [shr_m shr_r shr_s loc_of_shr_record].
  set (w := inject_Z m). intros Hu.
  destruct r, s; cbn [round_nearest_even]; intros H; try (split; [lia|intros; try lia; nra]).
  destruct (Z.even m); split; try lia; intros; try lia; nra.
Qed.

Lemma bra_unfold sx mx ex lx :
  binary_round_aux prec emax sx mx ex lx
  = finish sx (fst (round_core mx ex lx)) (snd (round_core mx ex lx)).
Proof.
  unfold binary_round_aux, round_core, finish, rne.
  destruct (shr_fexp prec emax mx ex lx) as [mrs e]. reflexivity.
Qed.

Lemma pow2_53 : (pow2 53 == inject_Z M53)%Q.
Proof. reflexivity. Qed.
Lemma pow2_52 : (pow2 52 == inject_Z M52)%Q.
Proof. reflexivity. Qed.

Lemma shr_m_of_loc m l : shr_m (shr_record_of_loc m l) = m.
Proof. destruct l as [|[ | | ]]; reflexivity. Qed.

Lemma Qmul_lt_cancel (a b u : Q) : (0 < u -> a * u < b * u -> a < b)%Q.
Proof. intros. nra. Qed.
Lemma Qmul_le_cancel (a b u : Q) : (0 < u -> a * u <= b * u -> a <= b)%Q.
Proof. intros. nra. Qed.

Lemma round_core_spec mx ex lx v :
  0 <= mx -> inbetween (pow2 ex) (shr_record_of_loc mx lx) v ->
  ex <= fx (dig mx + ex) ->
  exists m1, 
    let m2 := fst (round_core mx ex lx) in
    let e1 := snd (round_core mx ex lx) in
    e1 = fx (dig mx + ex) /\ 0 <= m1 /\
    (inject_Z m1 * pow2 e1 <= v /\ v < inject_Z (m1 + 1) * pow2 e1)%Q /\
    m1 <= m2 <= m1 + 1 /\
    (m2 = m1 + 1 -> (inject_Z m1 * pow2 e1 < v)%Q) /\
    m1 < M53 /\ (-1074 < e1 -> M52 <= m1).
Proof.
  intros Hm Hin Hsh. unfold round_core, shr_fexp. fold (dig mx). fold (fx (dig mx + ex)).
  set (n := fx (dig mx + ex) - ex).
  assert (Hn : 0 <= n) by (unfold n; lia).
  assert (Hm' : 0 <= shr_m (shr_record_of_loc mx lx)) by (rewrite shr_m_of_loc; exact Hm).
  destruct (shr_inb _ ex n v Hn Hm' Hin) as (H1 & H2 & H3).
  destruct (shr (shr_record_of_loc mx lx) ex n) as [mrs e1] eqn:E.
  cbn [fst snd] in *. exists (shr_m mrs).
  assert (He1 : e1 = fx (dig mx + ex)) by (unfold n in H2; lia).
  replace (ex + n) with e1 in H1 by lia.
  pose proof (pow2_pos e1) as Hu.
  destruct (inbetween_bracket _ _ _ Hu H1) as [B1 B2].
  destruct (rne_bracket _ _ _ Hu H1) as [R1 R2].
  pose proof (inbetween_bracket _ _ _ (pow2_pos ex) Hin) as [O1 O2].
  rewrite shr_m_of_loc in O1, O2.
  repeat split; try assumption; try lia.
  - (* m1 < 2^53 *)
    pose proof (dig_succ_Q mx Hm) as D.
    assert (L : (inject_Z (shr_m mrs) * pow2 e1 < pow2 53 * pow2 e1)%Q).
    { apply Qle_lt_trans with v; [exact B1|]. apply Qlt_le_trans with (1 := O2).
      apply Qle_trans with (pow2 (dig mx) * pow2 ex)%Q.
      - pose proof (pow2_pos ex). nra.
      - rewrite <- !pow2_add. apply pow2_le. rewrite fx_eq in He1. lia. }
    apply Qmul_lt_cancel in L; [|exact Hu]. rewrite pow2_53 in L.
    rewrite <- Zlt_Qlt in L. exact L.
  - (* normal range: m1 >= 2^52 *)
    intros Hgt. rewrite fx_eq in He1, Hsh.
    destruct mx as [|p|p]; [cbn [dig Zdigits2] in *; lia| |lia].
    pose proof (dig_Q p) as [D1 _].
    assert (L : (pow2 52 * pow2 e1 < inject_Z (shr_m mrs + 1) * pow2 e1)%Q).
    { apply Qle_lt_trans with v; [|exact B2]. apply Qle_trans with (2 := O1).
      apply Qle_trans with (pow2 (dig (Zpos p) - 1) * pow2 ex)%Q.
      - rewrite <- !pow2_add. apply pow2_le. lia.
      - pose proof (pow2_pos ex). nra. }
    apply Qmul_lt_cancel in L; [|exact Hu]. rewrite pow2_52 in L.
    rewrite <- Zlt_Qlt in L. lia.
Qed.

Lemma dig_le p k : 0 <= k -> Zpos p < 2 ^ k -> dig (Zpos p) <= k.
Proof.
  intros Hk H. pose proof (dig_Z p) as [H1 _]. pose proof (dig_pos p).
  assert (L : 2 ^ (dig (Zpos p) - 1) < 2 ^ k) by lia.
  apply Z.pow_lt_mono_r_iff in L; lia.
Qed.

Lemma dig_gt p k : 0 <= k -> 2 ^ k <= Zpos p -> k < dig (Zpos p).
Proof.
  intros Hk H. pose proof (dig_Z p) as [_ H2]. pose proof (dig_pos p).
  assert (L : 2 ^ k < 2 ^ dig (Zpos p)) by lia.
  apply Z.pow_lt_mono_r_iff in L; lia.
Qed.

Lemma shr_nonpos mrs e n : n <= 0 -> shr mrs e n = (mrs, e).
Proof. destruct n; [reflexivity|lia|reflexivity]. Qed.

Lemma finish_spec sx m2 e1 :
  -1074 <= e1 -> 0 <= m2 <= M53 -> (-1074 < e1 -> M52 <= m2) ->
  (m2 = 0 /\ finish sx m2 e1 = S754_zero sx) \/
  (exists m3 e3, (F2Q (Zpos m3) e3 == F2Q m2 e1)%Q /\ canonical (Zpos m3) e3 /\
     e1 <= e3 <= e1 + 1 /\ (e3 = e1 + 1 -> m2 = M53) /\
     finish sx m2 e1 = if e3 <=? 971 then S754_finite sx m3 e3 else S754_infinity sx).
Proof.
  intros He Hm Hn. unfold finish, shr_fexp. cbn [shr_record_of_loc].
  fold (dig m2). fold (fx (dig m2 + e1)).
  destruct (Z.eq_dec m2 0) as [->|Hnz].
  - left. split; [reflexivity|]. rewrite shr_nonpos; [reflexivity|].
    rewrite fx_eq. cbn [dig Zdigits2]. lia.
  - right. destruct (Z.eq_dec m2 M53) as [->|Hne].
    + exists (Z.to_pos M52), (e1 + 1). 
      replace (fx (dig M53 + e1) - e1) with 1 by (rewrite fx_eq; change (dig M53) with 54; lia).
      cbn [shr iter_pos]. unfold M53 at 1 2. cbn [shr_1 shr_m].
      repeat split; try lia.
      * unfold F2Q. rewrite pow2_add. change (pow2 1) with 2%Q.
        change (inject_Z (Zpos (Z.to_pos M52))) with (inject_Z M52).
        setoid_replace (inject_Z M53) with (2 * inject_Z M52)%Q by reflexivity. ring.
      * unfold canonical. rewrite fx_eq. change (dig (Zpos (Z.to_pos M52))) with 53. lia.
    + destruct m2 as [|p|p]; [lia| |lia].
      assert (Hd : dig (Zpos p) <= 53) by (apply dig_le; [lia|unfold M53 in *; change (2^53) with 9007199254740992; lia]).
      exists p, e1. rewrite shr_nonpos by (rewrite fx_eq; lia). cbn [shr_m].
      repeat split; try lia; try reflexivity.
      unfold canonical. rewrite fx_eq.
      destruct (Z.eq_dec e1 (-1074)) as [->|Hne1]; [lia|].
      assert (52 < dig (Zpos p)).
      { apply dig_gt; [lia|]. change (2^52) with M52. apply Hn. lia. }
      lia.
Qed.

Lemma canonical_dig m e : canonical (Zpos m) e -> dig (Zpos m) <= 53 /\ -1074 <= e.
Proof. unfold canonical. rewrite fx_eq. lia. Qed.

Lemma canonical_normal m e : canonical (Zpos m) e -> -1074 < e -> dig (Zpos m) = 53.
Proof. unfold canonical. rewrite fx_eq. lia. Qed.

Lemma F2Q_pos m e : (0 < F2Q (Zpos m) e)%Q.
Proof.
  unfold F2Q. pose proof (pow2_pos e).
  assert (0 < inject_Z (Zpos m))%Q by (change 0%Q with (inject_Z 0); rewrite <- Zlt_Qlt; lia). nra.
Qed.

Lemma F2Q_bounds m e :
  (pow2 (dig (Zpos m) - 1 + e) <= F2Q (Zpos m) e /\ F2Q (Zpos m) e < pow2 (dig (Zpos m) + e))%Q.
Proof.
  unfold F2Q. rewrite !pow2_add. pose proof (dig_Q m) as [H1 H2].
  pose proof (pow2_pos e). split; nra.
Qed.

Lemma F2Q_shift m e e1 : e1 <= e -> (F2Q m e == inject_Z (m * 2 ^ (e - e1)) * pow2 e1)%Q.
Proof.
  intros H. unfold F2Q. rewrite inject_Z_mult, <- pow2_Z by lia.
  rewrite <- Qmult_assoc, <- pow2_add. replace (e - e1 + e1) with e by lia. reflexivity.
Qed.

Lemma grid my ey e1 :
  canonical (Zpos my) ey ->
  e1 <= ey \/ (ey < e1 /\ (F2Q (Zpos my) ey < pow2 (e1 + 52))%Q).
Proof.
  intros C. destruct (Z_le_gt_dec e1 ey) as [|Hgt]; [left; assumption|right].
  split; [lia|]. pose proof (F2Q_bounds my ey) as [_ H].
  apply Qlt_le_trans with (1 := H). apply pow2_le.
  pose proof (canonical_dig _ _ C). lia.
Qed.

Lemma inj_mul_le (a b : Z) (u : Q) : (0 < u -> inject_Z a * u <= inject_Z b * u -> inject_Z a <= inject_Z b)%Q.
Proof. intros. nra. Qed.

Section RoundBounds.
Variables (sx : bool) (mx ex : Z) (lx : location) (v : Q).
Hypothesis Hmx : 0 <= mx.
Hypothesis Hin : inbetween (pow2 ex) (shr_record_of_loc mx lx) v.
Hypothesis Hsh : ex <= fx (dig mx + ex).

Lemma bra_valid :
  let z := binary_round_aux prec emax sx mx ex lx in
  z = S754_zero sx \/ z = S754_infinity sx \/
  exists m e, z = S754_finite sx m e /\ canonical (Zpos m) e /\ e <= 971.
Proof.
  intros z. unfold z. rewrite bra_unfold.
  destruct (round_core_spec mx ex lx v Hmx Hin Hsh) as (m1 & He1 & Hm1 & _ & R & _ & Hlt & Hnorm).
  cbv zeta in *. set (m2 := fst (round_core mx ex lx)) in *. set (e1 := snd (round_core mx ex lx)) in *.
  assert (Hemin : -1074 <= e1) by (rewrite He1, fx_eq; lia).
  destruct (finish_spec sx m2 e1 Hemin) as [[_ ->]|(m3 & e3 & _ & C & _ & _ & ->)].
  - unfold M53 in *. lia.
  - intros; specialize (Hnorm H). lia.
  - left; reflexivity.
  - right. destruct (Z.leb_spec e3 971); [right; exists m3, e3; auto | left; reflexivity].
Qed.

Lemma bra_le my ey :
  canonical (Zpos my) ey -> ey <= 971 -> (v <= F2Q (Zpos my) ey)%Q ->
  let z := binary_round_aux prec emax sx mx ex lx in
  z = S754_zero sx \/
  exists m e, z = S754_finite sx m e /\ canonical (Zpos m) e /\ e <= 971 /\
              (F2Q (Zpos m) e <= F2Q (Zpos my) ey)%Q.
Proof.
  intros Cy Hey Hv z. unfold z. rewrite bra_unfold.
  destruct (round_core_spec mx ex lx v Hmx Hin Hsh) as (m1 & He1 & Hm1 & [B1 B2] & R & Rup & Hlt & Hnorm).
  cbv zeta in *. set (m2 := fst (round_core mx ex lx)) in *. set (e1 := snd (round_core mx ex lx)) in *.
  assert (Hemin : -1074 <= e1) by (rewrite He1, fx_eq; lia).
  pose proof (pow2_pos e1) as Hu.
  destruct (finish_spec sx m2 e1 Hemin) as [[_ ->]|(m3 & e3 & V3 & C3 & E3 & E3' & ->)].
  - unfold M53 in *. lia.
  - intros; specialize (Hnorm H). lia.
  - left; reflexivity.
  - right. destruct (grid my ey e1 Cy) as [Hge|[Hlt' Hy]].
    + set (K := Zpos my * 2 ^ (ey - e1)).
      pose proof (F2Q_shift (Zpos my) ey e1 Hge) as EK. fold K in EK.
      assert (HK : m2 <= K).
      { destruct (Z.eq_dec m2 m1) as [E|E].
        - rewrite E. rewrite Zle_Qle. apply inj_mul_le with (pow2 e1); [exact Hu|]. lra.
        - assert (E2 : m2 = m1 + 1) by lia. specialize (Rup E2).
          assert (L : (inject_Z m1 * pow2 e1 < inject_Z K * pow2 e1)%Q) by lra.
          apply Qmul_lt_cancel in L; [|exact Hu]. rewrite <- Zlt_Qlt in L. lia. }
      assert (He3 : e3 <= 971).
      { destruct (Z.eq_dec e3 e1) as [|Ne]; [lia|].
        assert (E4 : e3 = e1 + 1) by lia. specialize (E3' E4).
        destruct (Z.eq_dec ey e1) as [Eq|]; [|lia].
        exfalso. unfold K in HK. rewrite Eq, Z.sub_diag, Z.pow_0_r, Z.mul_1_r in HK.
        pose proof (canonical_dig _ _ Cy) as [Hd _]. pose proof (dig_Z my) as [_ Hd2].
        assert (2 ^ dig (Zpos my) <= 2 ^ 53) by (apply Z.pow_le_mono_r; lia).
        change (2 ^ 53) with M53 in *. lia. }
      exists m3, e3. destruct (Z.leb_spec e3 971); [|lia].
      repeat split; try assumption. rewrite V3, EK. unfold F2Q.
      rewrite Zle_Qle in HK. nra.
    + exfalso. assert (Hn : -1074 < e1) by (pose proof (canonical_dig _ _ Cy); lia).
      specialize (Hnorm Hn).
      assert (L : (pow2 (e1 + 52) <= inject_Z m1 * pow2 e1)%Q).
      { rewrite pow2_add, pow2_52. rewrite Zle_Qle in Hnorm. nra. }
      lra.
Qed.

Lemma bra_ge my ey :
  canonical (Zpos my) ey -> (F2Q (Zpos my) ey <= v)%Q ->
  let z := binary_round_aux prec emax sx mx ex lx in
  z = S754_infinity sx \/
  exists m e, z = S754_finite sx m e /\ canonical (Zpos m) e /\ e <= 971 /\
              (F2Q (Zpos my) ey <= F2Q (Zpos m) e)%Q.
Proof.
  intros Cy Hv z. unfold z. rewrite bra_unfold.
  destruct (round_core_spec mx ex lx v Hmx Hin Hsh) as (m1 & He1 & Hm1 & [B1 B2] & R & Rup & Hlt & Hnorm).
  cbv zeta in *. set (m2 := fst (round_core mx ex lx)) in *. set (e1 := snd (round_core mx ex lx)) in *.
  assert (Hemin : -1074 <= e1) by (rewrite He1, fx_eq; lia).
  pose proof (pow2_pos e1) as Hu.
  assert (Hy : (F2Q (Zpos my) ey <= inject_Z m2 * pow2 e1)%Q /\ 0 < m2).
  { destruct (grid my ey e1 Cy) as [Hge|[Hlt' Hy]].
    - set (K := Zpos my * 2 ^ (ey - e1)).
      pose proof (F2Q_shift (Zpos my) ey e1 Hge) as EK. fold K in EK.
      assert (0 < K) by (unfold K; assert (0 < 2 ^ (ey - e1)) by (apply Z.pow_pos_nonneg; lia); lia).
      assert (L : (inject_Z K * pow2 e1 < inject_Z (m1 + 1) * pow2 e1)%Q) by lra.
      apply Qmul_lt_cancel in L; [|exact Hu]. rewrite <- Zlt_Qlt in L.
      split; [|lia]. rewrite EK. assert (K <= m2) by lia.
      rewrite Zle_Qle in H0. nra.
    - assert (Hn : -1074 < e1) by (pose proof (canonical_dig _ _ Cy); lia).
      specialize (Hnorm Hn). split; [|unfold M52 in *; lia].
      assert (L : (pow2 (e1 + 52) <= inject_Z m2 * pow2 e1)%Q).
      { rewrite pow2_add, pow2_52. assert (M52 <= m2) by lia. rewrite Zle_Qle in H. nra. }
      lra. }
  destruct Hy as [Hy Hpos].
  destruct (finish_spec sx m2 e1 Hemin) as [[E0 _]|(m3 & e3 & V3 & C3 & E3 & E3' & ->)].
  - unfold M53 in *. lia.
  - intros; specialize (Hnorm H). lia.
  - lia.
  - destruct (Z.leb_spec e3 971); [right|left; reflexivity].
    exists m3, e3. repeat split; try assumption. rewrite V3. exact Hy.
Qed.
End RoundBounds.

(** ** Order and equality of representable numbers *)

Lemma representable_F2Q_lt m e m' e' :
  canonical (Zpos m) e -> canonical (Zpos m') e' -> e < e' ->
  (F2Q (Zpos m) e < F2Q (Zpos m') e')%Q.
Proof.
  intros C C' H.
  pose proof (canonical_dig _ _ C) as [Hd He].
  assert (Hn : dig (Zpos m') = 53) by (apply (canonical_normal _ _ C'); lia).
  pose proof (F2Q_bounds m e) as [_ U]. pose proof (F2Q_bounds m' e') as [L _].
  apply Qlt_le_trans with (1 := U). apply Qle_trans with (2 := L).
  apply pow2_le. lia.
Qed.

Lemma F2Q_same_exp m m' e :
  (F2Q (Zpos m) e ?= F2Q (Zpos m') e)%Q = (m ?= m')%positive.
Proof.
  pose proof (pow2_pos e) as Hu. unfold F2Q.
  destruct (Pos.compare_spec m m') as [E|L|G].
  - subst. apply Qeq_alt. reflexivity.
  - apply Qlt_alt. apply Qmult_lt_compat_r; [exact Hu|]. rewrite <- Zlt_Qlt. lia.
  - apply Qgt_alt. apply Qmult_lt_compat_r; [exact Hu|]. rewrite <- Zlt_Qlt. lia.
Qed.

Lemma SFcompare_representable m e m' e' :
  canonical (Zpos m) e -> canonical (Zpos m') e' ->
  SFcompare (S754_finite false m e) (S754_finite false m' e')
  = Some (F2Q (Zpos m) e ?= F2Q (Zpos m') e')%Q.
Proof.
  intros C C'. cbn [SFcompare]. f_equal.
  destruct (Z.compare_spec e e') as [E|L|G].
  - subst. rewrite F2Q_same_exp. reflexivity.
  - symmetry. apply Qlt_alt. apply representable_F2Q_lt; assumption.
  - symmetry. apply Qgt_alt. apply representable_F2Q_lt; assumption.
Qed.

Lemma canonical_inj m e m' e' :
  canonical (Zpos m) e -> canonical (Zpos m') e' ->
  (F2Q (Zpos m) e == F2Q (Zpos m') e')%Q -> m = m' /\ e = e'.
Proof.
  intros C C' E.
  assert (He : e = e').
  { destruct (Z.compare_spec e e') as [|L|G]; [assumption| |].
    - pose proof (representable_F2Q_lt _ _ _ _ C C' L). lra.
    - pose proof (representable_F2Q_lt _ _ _ _ C' C G). lra. }
  subst e'. split; [|reflexivity].
  apply Qeq_alt in E. rewrite F2Q_same_exp in E. apply Pos.compare_eq. exact E.
Qed.

Lemma nonneg_B2Q x : nonneg x -> (0 <= B2Q x)%Q.
Proof.
  destruct x as [s|s| |[|] m e]; cbn [nonneg B2Q]; try lra; try tauto.
  intros _. pose proof (F2Q_pos m e). lra.
Qed.

Lemma nonneg_finite x : nonneg x -> finite x.
Proof. destruct x as [s|s| |[|] m e]; cbn [nonneg finite]; tauto. Qed.

Lemma fleb_nonneg x y :
  nonneg x -> nonneg y -> (fleb x y = true <-> (B2Q x <= B2Q y)%Q).
Proof.
  unfold fleb, SFleb.
  destruct x as [s|s| |[|] m e]; cbn [nonneg]; try tauto;
  destruct y as [s'|s'| |[|] m' e']; cbn [nonneg]; try tauto; intros Hx Hy.
  - cbn. split; [intros; lra|reflexivity].
  - cbn. pose proof (F2Q_pos m' e'). split; [intros; lra|reflexivity].
  - cbn. pose proof (F2Q_pos m e). split; [discriminate|intros; lra].
  - destruct Hx as [C _], Hy as [C' _]. rewrite SFcompare_representable by assumption.
    cbn [B2Q]. destruct (Qcompare_spec (F2Q (Zpos m) e) (F2Q (Zpos m') e')) as [E|L|G];
      split; try reflexivity; try discriminate; intros; lra.
Qed.

Lemma fltb_nonneg x y :
  nonneg x -> nonneg y -> (fltb x y = true <-> (B2Q x < B2Q y)%Q).
Proof.
  unfold fltb, SFltb.
  destruct x as [s|s| |[|] m e]; cbn [nonneg]; try tauto;
  destruct y as [s'|s'| |[|] m' e']; cbn [nonneg]; try tauto; intros Hx Hy.
  - cbn. split; [discriminate|intros; lra].
  - cbn. pose proof (F2Q_pos m' e'). split; [intros; lra|reflexivity].
  - cbn. pose proof (F2Q_pos m e). split; [discriminate|intros; lra].
  - destruct Hx as [C _], Hy as [C' _]. rewrite SFcompare_representable by assumption.
    cbn [B2Q]. destruct (Qcompare_spec (F2Q (Zpos m) e) (F2Q (Zpos m') e')) as [E|L|G];
      split; try reflexivity; try discriminate; intros; lra.
Qed.

(** ** Multiplication *)

Lemma dig_mul mx my : dig (Zpos mx) + dig (Zpos my) - 1 <= dig (Zpos (mx * my)).
Proof.
  pose proof (dig_Z mx) as [H1 _]. pose proof (dig_Z my) as [H2 _].
  pose proof (dig_pos mx). pose proof (dig_pos my).
  assert (L : dig (Zpos mx) - 1 + (dig (Zpos my) - 1) < dig (Zpos (mx * my))).
  { apply dig_gt; [lia|]. rewrite Z.pow_add_r by lia. rewrite Pos2Z.inj_mul.
    assert (0 < 2 ^ (dig (Zpos mx) - 1)) by (apply Z.pow_pos_nonneg; lia).
    assert (0 < 2 ^ (dig (Zpos my) - 1)) by (apply Z.pow_pos_nonneg; lia).
    nia. }
  lia.
Qed.

Lemma fmul_shift mx ex my ey :
  canonical (Zpos mx) ex -> canonical (Zpos my) ey ->
  ex + ey <= fx (dig (Zpos (mx * my)) + (ex + ey)).
Proof.
  unfold canonical. rewrite !fx_eq. intros Cx Cy.
  pose proof (dig_mul mx my). pose proof (dig_pos mx). pose proof (dig_pos my). lia.
Qed.

Lemma inbetween_exact u m v :
  (v == inject_Z m * u)%Q -> inbetween u (shr_record_of_loc m loc_Exact) v.
Proof. intros H. exact H. Qed.

Lemma F2Q_mul mx ex my ey :
  (F2Q (Zpos mx) ex * F2Q (Zpos my) ey == inject_Z (Zpos (mx * my)) * pow2 (ex + ey))%Q.
Proof. unfold F2Q. rewrite Pos2Z.inj_mul, inject_Z_mult, pow2_add. ring. Qed.

Lemma fmul_nonneg_le x y mb eb :
  nonneg x -> nonneg y -> representable mb eb ->
  (B2Q x * B2Q y <= F2Q (Zpos mb) eb)%Q ->
  nonneg (fmul x y) /\ (B2Q (fmul x y) <= F2Q (Zpos mb) eb)%Q.
Proof.
  pose proof (F2Q_pos mb eb) as Hb.
  destruct x as [s|s| |[|] mx ex]; cbn [nonneg]; try tauto;
  destruct y as [s'|s'| |[|] my ey]; cbn [nonneg]; try tauto; intros Hx Hy [Cb Eb] Hv;
  try (cbn; split; [exact I|lra]).
  destruct Hx as [Cx _], Hy as [Cy _]. cbn [B2Q] in Hv.
  unfold fmul. cbn [SFmul xorb].
  assert (Hm : 0 <= Zpos (mx * my)) by lia.
  pose proof (inbetween_exact _ _ _ (F2Q_mul mx ex my ey)) as Hin.
  pose proof (fmul_shift _ _ _ _ Cx Cy) as Hsh.
  destruct (bra_le false _ _ _ _ Hm Hin Hsh mb eb Cb Eb Hv) as [->|(m & e & -> & C & E & V)].
  - cbn. split; [exact I|lra].
  - cbn. split; [split; assumption|exact V].
Qed.

Lemma fmul_nonneg_ge x y mb eb :
  nonneg x -> nonneg y -> canonical (Zpos mb) eb ->
  (F2Q (Zpos mb) eb <= B2Q x * B2Q y)%Q ->
  fmul x y = S754_infinity false \/
  (exists m e, fmul x y = S754_finite false m e /\ representable m e /\
               (F2Q (Zpos mb) eb <= F2Q (Zpos m) e)%Q).
Proof.
  pose proof (F2Q_pos mb eb) as Hb.
  destruct x as [s|s| |[|] mx ex]; cbn [nonneg]; try tauto;
  destruct y as [s'|s'| |[|] my ey]; cbn [nonneg]; try tauto; intros Hx Hy Cb Hv;
  try (cbn [B2Q] in Hv; exfalso; lra).
  destruct Hx as [Cx _], Hy as [Cy _]. cbn [B2Q] in Hv.
  unfold fmul. cbn [SFmul xorb].
  assert (Hm : 0 <= Zpos (mx * my)) by lia.
  pose proof (inbetween_exact _ _ _ (F2Q_mul mx ex my ey)) as Hin.
  pose proof (fmul_shift _ _ _ _ Cx Cy) as Hsh.
  destruct (bra_ge false _ _ _ _ Hm Hin Hsh mb eb Cb Hv) as [->|(m & e & -> & C & E & V)].
  - left; reflexivity.
  - right. exists m, e. repeat split; assumption.
Qed.

Lemma fmul_zero_l s y : finite y -> exists s', fmul (S754_zero s) y = S754_zero s'.
Proof. destruct y as [s'|s'| |s' m e]; cbn [finite]; try tauto; intros _; eexists; reflexivity. Qed.

(** ** Division *)

Lemma div_num_shift (m1 : positive) (s : Z) :
  0 <= s ->
  match s with
  | Zpos _ => Z.shiftl (Zpos m1) s
  | Z0 => Zpos m1
  | Zneg _ => 0
  end = Zpos m1 * 2 ^ s.
Proof.
  intros Hs. destruct s as [|p|p]; [simpl; lia| |lia].
  apply Z.shiftl_mul_pow2. lia.
Qed.

Lemma new_location_inbetween (u : Q) (q r m2 : Z) (t v : Q) :
  (0 < u)%Q -> 0 < m2 -> 0 <= r < m2 ->
  (t * inject_Z m2 == inject_Z r)%Q -> (v == (inject_Z q + t) * u)%Q ->
  inbetween u (shr_record_of_loc q (new_location m2 r)) v.
Proof.
  intros Hu Hm2 Hr Ht Hv.
  assert (HM : (0 < inject_Z m2)%Q) by (change 0%Q with (inject_Z 0); rewrite <- Zlt_Qlt; lia).
  set (M := inject_Z m2) in *. set (R := inject_Z r) in *.
  assert (Cmp : forall a b : Z, a < b -> (inject_Z a < inject_Z b)%Q) by (intros; rewrite <- Zlt_Qlt; assumption).
  assert (H2r : (inject_Z (2 * r) == 2 * R)%Q) by (rewrite inject_Z_mult; reflexivity).
  assert (Hexact : r = 0 -> inbetween u (shr_record_of_loc q loc_Exact) v).
  { intros E0. assert (R == 0)%Q by (unfold R; rewrite E0; reflexivity).
    assert (t == 0)%Q by nra. unfold inbetween; cbn [shr_record_of_loc shr_m shr_r shr_s]. nra. }
  assert (RM : (R < M)%Q) by (apply Cmp; lia).
  assert (Hlt : r <> 0 -> 2 * r < m2 -> inbetween u (shr_record_of_loc q (loc_Inexact Lt)) v).
  { intros N0 L. assert (Rpos : (0 < R)%Q) by (unfold R; change 0%Q with (inject_Z 0); rewrite <- Zlt_Qlt; lia).
    assert (tpos : (0 < t)%Q) by nra.
    apply Cmp in L. rewrite H2r in L. fold M in L.
    assert (t < 1#2)%Q by nra.
    unfold inbetween; cbn [shr_record_of_loc shr_m shr_r shr_s]. split; nra. }
  assert (Heq : 2 * r = m2 -> inbetween u (shr_record_of_loc q (loc_Inexact Eq)) v).
  { intros E. assert (2 * R == M)%Q by (rewrite <- H2r, E; reflexivity).
    assert (t == 1#2)%Q by nra.
    unfold inbetween; cbn [shr_record_of_loc shr_m shr_r shr_s]. nra. }
  assert (Hgt : m2 < 2 * r -> inbetween u (shr_record_of_loc q (loc_Inexact Gt)) v).
  { intros G. apply Cmp in G. rewrite H2r in G. fold M in G.
    assert ((1#2) < t)%Q by nra. assert (t < 1)%Q by nra.
    unfold inbetween; cbn [shr_record_of_loc shr_m shr_r shr_s]. split; nra. }
  unfold new_location. destruct (Z.even m2) eqn:Ev.
  - unfold new_location_even. destruct (Z.eqb_spec r 0) as [E0|N0]; [auto|].
    destruct (Z.compare_spec (2 * r) m2); auto.
  - unfold new_location_odd. destruct (Z.eqb_spec r 0) as [E0|N0]; [auto|].
    assert (Odd : 2 * r <> m2).
    { intros E. rewrite <- E, Z.even_mul in Ev. discriminate. }
    destruct (Z.compare_spec (2 * r + 1) m2); [apply Hlt|apply Hlt|apply Hgt]; lia.
Qed.

Lemma div_core_spec (m1 : positive) (e1 : Z) (m2 : positive) (e2 : Z) :
  let '(q, e', l) := SFdiv_core_binary prec emax (Zpos m1) e1 (Zpos m2) e2 in
  0 <= q /\
  inbetween (pow2 e') (shr_record_of_loc q l) (F2Q (Zpos m1) e1 / F2Q (Zpos m2) e2) /\
  e' <= fx (dig q + e').
Proof.
  unfold SFdiv_core_binary. fold (dig (Zpos m1)). fold (dig (Zpos m2)).
  fold (fx (dig (Zpos m1) + e1 - (dig (Zpos m2) + e2))).
  set (D := dig (Zpos m1) + e1 - (dig (Zpos m2) + e2)).
  set (e' := Z.min (fx D) (e1 - e2)).
  set (s := e1 - e2 - e').
  assert (Hs : 0 <= s) by (unfold s, e'; lia).
  rewrite (div_num_shift m1 s Hs).
  pose proof (Z_div_mod (Zpos m1 * 2 ^ s) (Zpos m2) eq_refl) as DM.
  destruct (Z.div_eucl (Zpos m1 * 2 ^ s) (Zpos m2)) as [q r].
  destruct DM as [DM Hr].
  assert (P2 : 0 < 2 ^ s) by (apply Z.pow_pos_nonneg; lia).
  assert (Hq : 0 <= q) by nia.
  pose proof (pow2_pos e') as Hu. pose proof (pow2_pos e2) as Hu2.
  assert (HM : (0 < inject_Z (Zpos m2))%Q) by (change 0%Q with (inject_Z 0); rewrite <- Zlt_Qlt; lia).
  set (v := (F2Q (Zpos m1) e1 / F2Q (Zpos m2) e2)%Q).
  set (t := (inject_Z r / inject_Z (Zpos m2))%Q).
  assert (Ht : (t * inject_Z (Zpos m2) == inject_Z r)%Q).
  { unfold t. field. lra. }
  assert (Hv : (v == (inject_Z q + t) * pow2 e')%Q).
  { unfold v, t, F2Q.
    assert (E1 : (pow2 e1 == pow2 s * pow2 e' * pow2 e2)%Q).
    { rewrite <- !pow2_add. replace (s + e' + e2) with e1 by (unfold s; lia). reflexivity. }
    assert (E2 : (inject_Z (Zpos m1) * pow2 s == inject_Z (Zpos m2) * inject_Z q + inject_Z r)%Q).
    { rewrite pow2_Z by lia. rewrite <- !inject_Z_mult, <- inject_Z_plus, DM. reflexivity. }
    rewrite E1.
    setoid_replace (inject_Z (Zpos m1) * (pow2 s * pow2 e' * pow2 e2))%Q
      with ((inject_Z (Zpos m1) * pow2 s) * (pow2 e' * pow2 e2))%Q by ring.
    rewrite E2. field. split; lra. }
  pose proof (new_location_inbetween (pow2 e') q r (Zpos m2) t v Hu eq_refl Hr Ht Hv) as Hin.
  repeat split; try assumption.
  (* enough digits *)
  pose proof (inbetween_bracket _ _ _ Hu Hin) as [_ B2]. rewrite shr_m_of_loc in B2.
  pose proof (dig_succ_Q q Hq) as DQ.
  pose proof (F2Q_bounds m1 e1) as [L1 _]. pose proof (F2Q_bounds m2 e2) as [_ U2].
  pose proof (F2Q_pos m2 e2) as P2'.
  assert (Vm : (v * F2Q (Zpos m2) e2 == F2Q (Zpos m1) e1)%Q).
  { unfold v. field. lra. }
  assert (Vpos : (0 < v)%Q).
  { pose proof (F2Q_pos m1 e1). unfold v. apply Qlt_shift_div_l; lra. }
  assert (Low : (pow2 (D - 1) < v)%Q).
  { apply Qmul_lt_cancel with (pow2 (dig (Zpos m2) + e2)); [apply pow2_pos|].
    rewrite <- pow2_add. replace (D - 1 + (dig (Zpos m2) + e2)) with (dig (Zpos m1) - 1 + e1) by (unfold D; lia).
    apply Qle_lt_trans with (1 := L1). rewrite <- Vm. nra. }
  assert (Up : (v < pow2 (dig q + e'))%Q).
  { apply Qlt_le_trans with (1 := B2). rewrite pow2_add. nra. }
  assert (HD : D - 1 < dig q + e') by (apply pow2_lt_inv; lra).
  unfold e' in *. rewrite !fx_eq in *. lia.
Qed.

Lemma SFdiv_finite sx mx ex sy my ey :
  SFdiv prec emax (S754_finite sx mx ex) (S754_finite sy my ey)
  = binary_round_aux prec emax (xorb sx sy)
      (fst (fst (SFdiv_core_binary prec emax (Zpos mx) ex (Zpos my) ey)))
      (snd (fst (SFdiv_core_binary prec emax (Zpos mx) ex (Zpos my) ey)))
      (snd (SFdiv_core_binary prec emax (Zpos mx) ex (Zpos my) ey)).
Proof.
  cbn [SFdiv]. destruct (SFdiv_core_binary prec emax (Zpos mx) ex (Zpos my) ey) as [[q e'] l].
  reflexivity.
Qed.

Section DivBounds.
Variables (sx : bool) (mx : positive) (ex : Z) (sy : bool) (my : positive) (ey : Z).

Lemma SFdiv_valid :
  let z := SFdiv prec emax (S754_finite sx mx ex) (S754_finite sy my ey) in
  z = S754_zero (xorb sx sy) \/ z = S754_infinity (xorb sx sy) \/
  exists m e, z = S754_finite (xorb sx sy) m e /\ representable m e.
Proof.
  intros z. unfold z. rewrite SFdiv_finite.
  pose proof (div_core_spec mx ex my ey) as H.
  destruct (SFdiv_core_binary prec emax (Zpos mx) ex (Zpos my) ey) as [[q e'] l].
  destruct H as (Hq & Hin & Hsh). cbn [fst snd].
  destruct (bra_valid (xorb sx sy) _ _ _ _ Hq Hin Hsh) as [H|[H|(m & e & H & C & E)]];
    [left|right; left|right; right]; try assumption.
  exists m, e. repeat split; assumption.
Qed.

Lemma SFdiv_le mb eb :
  representable mb eb ->
  (F2Q (Zpos mx) ex / F2Q (Zpos my) ey <= F2Q (Zpos mb) eb)%Q ->
  let z := SFdiv prec emax (S754_finite sx mx ex) (S754_finite sy my ey) in
  z = S754_zero (xorb sx sy) \/
  exists m e, z = S754_finite (xorb sx sy) m e /\ representable m e /\
              (F2Q (Zpos m) e <= F2Q (Zpos mb) eb)%Q.
Proof.
  intros [Cb Eb] Hv z. unfold z. rewrite SFdiv_finite.
  pose proof (div_core_spec mx ex my ey) as H.
  destruct (SFdiv_core_binary prec emax (Zpos mx) ex (Zpos my) ey) as [[q e'] l].
  destruct H as (Hq & Hin & Hsh). cbn [fst snd].
  destruct (bra_le (xorb sx sy) _ _ _ _ Hq Hin Hsh mb eb Cb Eb Hv) as [H|(m & e & H & C & E & V)];
    [left; assumption|right].
  exists m, e. repeat split; assumption.
Qed.

Lemma SFdiv_ge mb eb :
  canonical (Zpos mb) eb ->
  (F2Q (Zpos mb) eb <= F2Q (Zpos mx) ex / F2Q (Zpos my) ey)%Q ->
  let z := SFdiv prec emax (S754_finite sx mx ex) (S754_finite sy my ey) in
  z = S754_infinity (xorb sx sy) \/
  exists m e, z = S754_finite (xorb sx sy) m e /\ representable m e /\
              (F2Q (Zpos mb) eb <= F2Q (Zpos m) e)%Q.
Proof.
  intros Cb Hv z. unfold z. rewrite SFdiv_finite.
  pose proof (div_core_spec mx ex my ey) as H.
  destruct (SFdiv_core_binary prec emax (Zpos mx) ex (Zpos my) ey) as [[q e'] l].
  destruct H as (Hq & Hin & Hsh). cbn [fst snd].
  destruct (bra_ge (xorb sx sy) _ _ _ _ Hq Hin Hsh mb eb Cb Hv) as [H|(m & e & H & C & E & V)];
    [left; assumption|right].
  exists m, e. repeat split; assumption.
Qed.
End DivBounds.

(** ** Conversion of integers *)

Lemma dig_unique p k : 2 ^ (k - 1) <= Zpos p < 2 ^ k -> 0 < k -> dig (Zpos p) = k.
Proof.
  intros [H1 H2] Hk.
  pose proof (dig_le p k ltac:(lia) H2). pose proof (dig_gt p (k - 1) ltac:(lia) H1). lia.
Qed.

Lemma iter_xO mx d : Zpos (Pos.iter xO mx d) = Zpos mx * 2 ^ Zpos d.
Proof.
  induction d as [|d IH] using Pos.peano_ind.
  - cbn [Pos.iter]. rewrite Pos2Z.inj_xO. change (2 ^ 1) with 2. lia.
  - rewrite Pos.iter_succ, Pos2Z.inj_xO, IH, Pos2Z.inj_succ, Z.pow_succ_r by lia. ring.
Qed.

Lemma dig_shift mx k : 0 <= k -> dig (Zpos mx * 2 ^ k) = dig (Zpos mx) + k.
Proof.
  intros Hk. pose proof (dig_Z mx) as [H1 H2]. pose proof (dig_pos mx).
  assert (P : 0 < 2 ^ k) by (apply Z.pow_pos_nonneg; lia).
  assert (E : exists p, Zpos mx * 2 ^ k = Zpos p).
  { destruct (Zpos mx * 2 ^ k) eqn:E; try lia. eexists; reflexivity. }
  destruct E as [p E]. rewrite E. apply dig_unique; [|lia]. rewrite <- E.
  replace (dig (Zpos mx) + k - 1) with (dig (Zpos mx) - 1 + k) by lia.
  rewrite !Z.pow_add_r by lia. nia.
Qed.

Lemma shl_align_spec mx ex ex' :
  let '(mz, ez) := shl_align mx ex ex' in
  ez <= ex /\ Zpos mz = Zpos mx * 2 ^ (ex - ez) /\ (ez = ex' \/ (ez = ex /\ ex <= ex')).
Proof.
  unfold shl_align. destruct (ex' - ex) as [|d|d] eqn:E.
  - rewrite Z.sub_diag. cbn. lia.
  - rewrite Z.sub_diag. cbn. lia.
  - rewrite iter_xO. replace (ex - ex') with (Zpos d) by lia. lia.
Qed.

Lemma binary_round_bounds sx mx ex :
  exists mz ez, binary_round prec emax sx mx ex = binary_round_aux prec emax sx (Zpos mz) ez loc_Exact /\
    inbetween (pow2 ez) (shr_record_of_loc (Zpos mz) loc_Exact) (F2Q (Zpos mx) ex) /\
    ez <= fx (dig (Zpos mz) + ez).
Proof.
  unfold binary_round.
  change (fexp prec emax (Zpos (digits2_pos mx) + ex)) with (fx (dig (Zpos mx) + ex)).
  pose proof (shl_align_spec mx ex (fx (dig (Zpos mx) + ex))) as H.
  destruct (shl_align mx ex (fx (dig (Zpos mx) + ex))) as [mz ez].
  destruct H as (H1 & H2 & H3). exists mz, ez. split; [reflexivity|].
  assert (Hd : dig (Zpos mz) + ez = dig (Zpos mx) + ex).
  { rewrite H2, dig_shift by lia. lia. }
  split.
  - apply inbetween_exact. rewrite H2. apply F2Q_shift. exact H1.
  - rewrite Hd. lia.
Qed.

Lemma F2Q_int z : (F2Q z 0 == inject_Z z)%Q.
Proof. unfold F2Q. change (pow2 0) with 1%Q. ring. Qed.

Lemma one_representable : representable (Z.to_pos M52) (-52).
Proof. split; [reflexivity|lia]. Qed.

Lemma F2Q_one : (F2Q (Zpos (Z.to_pos M52)) (-52) == 1)%Q.
Proof. reflexivity. Qed.

Lemma B2Q_one : (B2Q f_one == 1)%Q.
Proof. reflexivity. Qed.

(** [2^1023], the largest power of two below the overflow threshold. *)
Lemma big_representable : representable (Z.to_pos M52) 971.
Proof. split; [reflexivity|lia]. Qed.

Lemma F2Q_big : (F2Q (Zpos (Z.to_pos M52)) 971 == inject_Z (2 ^ 1023))%Q.
Proof.
  unfold F2Q. rewrite (pow2_Z 971) by lia. rewrite <- inject_Z_mult.
  change (Zpos (Z.to_pos M52)) with (2 ^ 52). rewrite <- Z.pow_add_r by lia. reflexivity.
Qed.

Lemma float_of_Z_pos z mb eb :
  0 < z -> representable mb eb -> (inject_Z z <= F2Q (Zpos mb) eb)%Q ->
  exists m e, float_of_Z z = S754_finite false m e /\ representable m e /\
              (1 <= F2Q (Zpos m) e)%Q /\ (F2Q (Zpos m) e <= F2Q (Zpos mb) eb)%Q.
Proof.
  intros Hz [Cb Eb] Hv. destruct z as [|p|p]; try lia.
  unfold float_of_Z. cbn [binary_normalize].
  destruct (binary_round_bounds false p 0) as (mz & ez & -> & Hin & Hsh).
  assert (Hm : 0 <= Zpos mz) by lia.
  assert (Hv' : (F2Q (Zpos p) 0 <= F2Q (Zpos mb) eb)%Q) by (rewrite F2Q_int; exact Hv).
  assert (Hl : (F2Q (Zpos (Z.to_pos M52)) (-52) <= F2Q (Zpos p) 0)%Q).
  { rewrite F2Q_int, F2Q_one. change 1%Q with (inject_Z 1). rewrite <- Zle_Qle. lia. }
  destruct (bra_le false _ _ _ _ Hm Hin Hsh mb eb Cb Eb Hv') as [E|(m & e & E & C & Ee & V)];
  destruct (bra_ge false _ _ _ _ Hm Hin Hsh _ _ (proj1 one_representable) Hl) as [E'|(m' & e' & E' & C' & Ee' & V')];
    rewrite E in E'; try discriminate.
  injection E' as <- <-. exists m, e. rewrite F2Q_one in V'. repeat split; assumption.
Qed.

Lemma int_to_float_pos z mb eb :
  0 < z -> representable mb eb -> (inject_Z z <= F2Q (Zpos mb) eb)%Q ->
  exists m e, int_to_float z = Ok (S754_finite false m e) /\ representable m e /\
              (1 <= F2Q (Zpos m) e)%Q /\ (F2Q (Zpos m) e <= F2Q (Zpos mb) eb)%Q.
Proof.
  intros Hz Hb Hv. destruct (float_of_Z_pos z mb eb Hz Hb Hv) as (m & e & E & R & L & U).
  exists m, e. unfold int_to_float. rewrite E. cbn [is_inf]. auto.
Qed.

(** ** True division of integers *)

Lemma Zfin_pos z : 0 < z -> Zfin z = S754_finite false (Z.to_pos z) 0.
Proof. destruct z; try lia. reflexivity. Qed.

Lemma Zfin_nonzero z :
  z <> 0 -> Zfin z = S754_finite (z <? 0) (Z.to_pos (Z.abs z)) 0.
Proof. destruct z; try lia; reflexivity. Qed.

Lemma int_truediv_le a b mb eb :
  0 < a -> 0 < b -> representable mb eb ->
  (inject_Z a / inject_Z b <= F2Q (Zpos mb) eb)%Q ->
  exists r, int_truediv a b = Ok r /\ nonneg r /\ (B2Q r <= F2Q (Zpos mb) eb)%Q.
Proof.
  intros Ha Hb Hr Hv. unfold int_truediv.
  destruct (Z.eqb_spec b 0); [lia|]. destruct (Z.eqb_spec a 0); [lia|].
  rewrite (Zfin_pos a Ha), (Zfin_pos b Hb).
  assert (Hv' : (F2Q (Zpos (Z.to_pos a)) 0 / F2Q (Zpos (Z.to_pos b)) 0 <= F2Q (Zpos mb) eb)%Q).
  { rewrite !F2Q_int, !Z2Pos.id by lia. exact Hv. }
  pose proof (F2Q_pos mb eb).
  destruct (SFdiv_le false (Z.to_pos a) 0 false (Z.to_pos b) 0 mb eb Hr Hv') as [->|(m & e & -> & R & V)];
    cbn [xorb is_inf]; eexists; (split; [reflexivity|]); cbn [nonneg B2Q]; split; auto; lra.
Qed.

Lemma int_truediv_ge a b mb eb :
  0 < a -> 0 < b -> canonical (Zpos mb) eb ->
  (F2Q (Zpos mb) eb <= inject_Z a / inject_Z b)%Q ->
  int_truediv a b = Raise OverflowError \/
  exists m e, int_truediv a b = Ok (S754_finite false m e) /\ representable m e /\
              (F2Q (Zpos mb) eb <= F2Q (Zpos m) e)%Q.
Proof.
  intros Ha Hb Hr Hv. unfold int_truediv.
  destruct (Z.eqb_spec b 0); [lia|]. destruct (Z.eqb_spec a 0); [lia|].
  rewrite (Zfin_pos a Ha), (Zfin_pos b Hb).
  assert (Hv' : (F2Q (Zpos mb) eb <= F2Q (Zpos (Z.to_pos a)) 0 / F2Q (Zpos (Z.to_pos b)) 0)%Q).
  { rewrite !F2Q_int, !Z2Pos.id by lia. exact Hv. }
  destruct (SFdiv_ge false (Z.to_pos a) 0 false (Z.to_pos b) 0 mb eb Hr Hv') as [->|(m & e & -> & R & V)];
    cbn [xorb is_inf]; [left; reflexivity|right].
  exists m, e. repeat split; try apply R; assumption.
Qed.

(** A quotient at most 1 is computed without exception and is at most 1.0. *)
Lemma int_truediv_unit a b :
  0 <= a <= b -> 0 < b ->
  exists r, int_truediv a b = Ok r /\ nonneg r /\ (B2Q r <= 1)%Q.
Proof.
  intros Ha Hb. destruct (Z.eq_dec a 0) as [->|Na].
  - exists (S754_zero false). unfold int_truediv.
    destruct (Z.eqb_spec b 0); [lia|]. cbn [Z.eqb].
    destruct (Z.ltb_spec b 0); [lia|]. cbn. repeat split; lra.
  - assert (Hq : (inject_Z a / inject_Z b <= F2Q (Zpos (Z.to_pos M52)) (-52))%Q).
    { rewrite F2Q_one. apply Qle_shift_div_r.
      - change 0%Q with (inject_Z 0). rewrite <- Zlt_Qlt. lia.
      - rewrite Qmult_1_l, <- Zle_Qle. lia. }
    destruct (int_truediv_le a b _ _ ltac:(lia) Hb one_representable Hq) as (r & E & N & V).
    exists r. rewrite F2Q_one in V. auto.
Qed.

(** The quotient of an integer by itself is exactly 1.0. *)
Lemma int_truediv_same a : 0 < a -> int_truediv a a = Ok f_one.
Proof.
  intros Ha.
  assert (Hq : (inject_Z a / inject_Z a == 1)%Q).
  { assert (0 < inject_Z a)%Q by (change 0%Q with (inject_Z 0); rewrite <- Zlt_Qlt; lia).
    field. lra. }
  assert (Hle : (inject_Z a / inject_Z a <= F2Q (Zpos (Z.to_pos M52)) (-52))%Q) by (rewrite Hq, F2Q_one; lra).
  assert (Hge : (F2Q (Zpos (Z.to_pos M52)) (-52) <= inject_Z a / inject_Z a)%Q) by (rewrite Hq, F2Q_one; lra).
  destruct (int_truediv_le a a _ _ Ha Ha one_representable Hle) as (r & E & N & V).
  destruct (int_truediv_ge a a _ _ Ha Ha (proj1 one_representable) Hge) as [E'|(m & e & E' & R & V')];
    rewrite E in E'; [discriminate|].
  injection E' as ->. rewrite E. cbn [B2Q] in V.
  destruct (canonical_inj m e (Z.to_pos M52) (-52) (proj1 R) (proj1 one_representable)) as [-> ->]; [lra|].
  reflexivity.
Qed.

(** Any quotient of magnitude at most [2^1023] is computed without
    exception. *)
Lemma int_truediv_finite a b :
  b <> 0 -> Z.abs a <= 2 ^ 1023 * Z.abs b ->
  exists r, int_truediv a b = Ok r /\ finite r.
Proof.
  intros Hb Ha. unfold int_truediv.
  destruct (Z.eqb_spec b 0); [lia|]. destruct (Z.eqb_spec a 0) as [|Na].
  - eexists; split; [reflexivity|exact I].
  - rewrite (Zfin_nonzero a Na), (Zfin_nonzero b Hb).
    set (pa := Z.to_pos (Z.abs a)). set (pb := Z.to_pos (Z.abs b)).
    assert (Ea : Zpos pa = Z.abs a) by (unfold pa; rewrite Z2Pos.id; lia).
    assert (Eb : Zpos pb = Z.abs b) by (unfold pb; rewrite Z2Pos.id; lia).
    assert (Hv : (F2Q (Zpos pa) 0 / F2Q (Zpos pb) 0 <= F2Q (Zpos (Z.to_pos M52)) 971)%Q).
    { rewrite !F2Q_int, F2Q_big, Ea, Eb. apply Qle_shift_div_r.
      - change 0%Q with (inject_Z 0). rewrite <- Zlt_Qlt. lia.
      - rewrite <- inject_Z_mult, <- Zle_Qle. exact Ha. }
    destruct (SFdiv_le (a <? 0) pa 0 (b <? 0) pb 0 _ _ big_representable Hv) as [->|(m & e & -> & R & V)];
      cbn [is_inf]; eexists; (split; [reflexivity|]); cbn [finite]; auto.
Qed.

(** ** Ceiling *)

Lemma py_ceil_finite x :
  finite x -> exists D, py_ceil x = Ok D /\ (inject_Z D - 1 < B2Q x /\ B2Q x <= inject_Z D)%Q.
Proof.
  destruct x as [s|s| |s m e]; cbn [finite]; try tauto.
  - intros _. exists 0. split; [reflexivity|]. cbn [B2Q]. change (inject_Z 0) with 0%Q. lra.
  - intros _. cbn [py_ceil].
    set (v := if s then Zneg m else Zpos m).
    assert (Ev : (B2Q (S754_finite s m e) == inject_Z v * pow2 e)%Q).
    { unfold v, B2Q, F2Q. destruct s; [|reflexivity].
      change (Zneg m) with (- Zpos m). rewrite inject_Z_opp. ring. }
    eexists. split; [reflexivity|]. rewrite Ev.
    destruct (Z.leb_spec 0 e) as [He|He].
    + rewrite inject_Z_mult, <- pow2_Z by lia. lra.
    + set (k := 2 ^ (- e)).
      assert (Hk : 0 < k) by (apply Z.pow_pos_nonneg; lia).
      assert (Ek : (pow2 e * inject_Z k == 1)%Q).
      { unfold k. rewrite <- pow2_Z by lia. rewrite <- pow2_add.
        replace (e + - e) with 0 by lia. reflexivity. }
      assert (HK : (0 < inject_Z k)%Q) by (change 0%Q with (inject_Z 0); rewrite <- Zlt_Qlt; lia).
      pose proof (Z.div_mod (- v) k ltac:(lia)) as DM.
      pose proof (Z.mod_pos_bound (- v) k Hk) as MB.
      set (q := - v / k) in *. set (r := (- v) mod k) in *.
      assert (Ev' : v = k * (- q) - r) by lia.
      assert (EQ : (inject_Z v == inject_Z k * inject_Z (- q) - inject_Z r)%Q).
      { rewrite Ev'. unfold Qminus. rewrite <- inject_Z_mult, <- inject_Z_opp, <- inject_Z_plus.
        reflexivity. }
      assert (R0 : (0 <= inject_Z r)%Q) by (change 0%Q with (inject_Z 0); rewrite <- Zle_Qle; lia).
      assert (R1 : (inject_Z r < inject_Z k)%Q) by (rewrite <- Zlt_Qlt; lia).
      pose proof (pow2_pos e) as Hu.
      set (u := pow2 e) in *. set (K := inject_Z k) in *. set (R := inject_Z r) in *.
      set (V := inject_Z v) in *. set (Dq := inject_Z (- q)) in *.
      assert (E1 : (V * u == Dq - R * u)%Q).
      { rewrite EQ. setoid_replace ((K * Dq - R) * u)%Q with (Dq * (u * K) - R * u)%Q by ring.
        rewrite Ek. ring. }
      assert (Ru : (R * u < 1)%Q).
      { apply Qlt_le_trans with (K * u)%Q; [nra|]. rewrite Qmult_comm, Ek. lra. }
      assert (0 <= R * u)%Q by nra.
      lra.
Qed.

(** ** Loops in the error monad *)

Lemma foldM_app {A B : Type} (f : A -> B -> result A) l1 l2 a :
  foldM f (l1 ++ l2) a = (a' <- foldM f l1 a ;; foldM f l2 a').
Proof.
  revert a. induction l1 as [|b l1 IH]; intros a; cbn [foldM app bind]; [reflexivity|].
  destruct (f a b); cbn [bind]; auto.
Qed.

Lemma foldM_inv {A B : Type} (f : A -> B -> result A) (P : A -> Prop) l :
  (forall a b, In b l -> P a -> exists a', f a b = Ok a' /\ P a') ->
  forall a, P a -> exists a', foldM f l a = Ok a' /\ P a'.
Proof.
  induction l as [|b l IH]; intros Hf a Ha; cbn [foldM].
  - exists a. auto.
  - destruct (Hf a b (or_introl eq_refl) Ha) as (a' & E & Pa'). rewrite E. cbn [bind].
    apply IH; [|exact Pa']. intros a0 b0 Hin. apply Hf. right. exact Hin.
Qed.

Lemma foldM_id {A B : Type} (f : A -> B -> result A) l a :
  (forall b, In b l -> f a b = Ok a) -> foldM f l a = Ok a.
Proof.
  induction l as [|b l IH]; intros Hf; cbn [foldM]; [reflexivity|].
  rewrite (Hf b (or_introl eq_refl)). cbn [bind]. apply IH. intros; apply Hf; right; assumption.
Qed.

Lemma range_In lo hi x : In x (range lo hi) <-> lo <= x < hi.
Proof.
  unfold range. rewrite in_map_iff. split.
  - intros (k & <- & Hk). apply in_seq in Hk. lia.
  - intros H. exists (Z.to_nat (x - lo)). split; [lia|]. apply in_seq. lia.
Qed.

Lemma range_length lo hi : length (range lo hi) = Z.to_nat (hi - lo).
Proof. unfold range. rewrite length_map, length_seq. reflexivity. Qed.

Lemma range_empty lo hi : hi <= lo -> range lo hi = [].
Proof. intros H. unfold range. replace (Z.to_nat (hi - lo)) with O by lia. reflexivity. Qed.

Lemma range_cons lo hi : lo < hi -> range lo hi = lo :: range (lo + 1) hi.
Proof.
  intros H. unfold range.
  replace (Z.to_nat (hi - lo)) with (S (Z.to_nat (hi - (lo + 1)))) by lia.
  cbn [seq map]. f_equal; [lia|].
  rewrite <- seq_shift, map_map. apply map_ext. intros k. lia.
Qed.

Lemma range_snoc lo hi : lo < hi -> range lo hi = range lo (hi - 1) ++ [hi - 1].
Proof.
  intros H. unfold range.
  replace (Z.to_nat (hi - lo)) with (Z.to_nat (hi - 1 - lo) + 1)%nat by lia.
  rewrite seq_app, map_app. cbn [seq map]. f_equal. f_equal. lia.
Qed.

Lemma range_split lo mid hi : lo <= mid <= hi -> range lo hi = range lo mid ++ range mid hi.
Proof.
  intros H. unfold range.
  replace (Z.to_nat (hi - lo)) with (Z.to_nat (mid - lo) + Z.to_nat (hi - mid))%nat by lia.
  rewrite seq_app, map_app. f_equal. cbn [Nat.add].
  rewrite <- (Nat.add_0_r (Z.to_nat (mid - lo))) at 1.
  generalize 0%nat as s. induction (Z.to_nat (hi - mid)) as [|k IH]; intros s; cbn [seq map]; [reflexivity|].
  f_equal; [lia|]. rewrite <- IH. f_equal. f_equal. lia.
Qed.

(** ** Binomial coefficients *)

Lemma binom_0_r n : binom n 0 = 1.
Proof. destruct n; reflexivity. Qed.

Lemma binom_nonneg n : forall k, 0 <= binom n k.
Proof.
  induction n as [|n IH]; intros [|k]; cbn [binom]; try lia.
  pose proof (IH k). pose proof (IH (S k)). lia.
Qed.

Lemma binom_gt n : forall k, (n < k)%nat -> binom n k = 0.
Proof.
  induction n as [|n IH]; intros [|k] H; cbn [binom]; try lia.
  rewrite !IH by lia. reflexivity.
Qed.

Lemma binom_pos n : forall k, (k <= n)%nat -> 0 < binom n k.
Proof.
  induction n as [|n IH]; intros [|k] H; cbn [binom]; try lia.
  pose proof (IH k ltac:(lia)). pose proof (binom_nonneg n (S k)). lia.
Qed.

Lemma binom_diag n : binom n n = 1.
Proof. induction n as [|n IH]; cbn [binom]; [reflexivity|]. rewrite IH, binom_gt by lia. lia. Qed.

Lemma binom_mono n k : binom n k <= binom (S n) k.
Proof.
  destruct k as [|k]; cbn [binom]; [rewrite binom_0_r; lia|].
  pose proof (binom_nonneg n k). lia.
Qed.

(** One term of Vandermonde's identity. *)
Lemma vandermonde_le D : forall M x y, binom D x * binom M y <= binom (D + M) (x + y).
Proof.
  induction D as [|D IH]; intros M x y.
  - destruct x as [|x].
    + rewrite binom_0_r. change (0 + M)%nat with M. change (0 + y)%nat with y. lia.
    + change (binom 0 (S x)) with 0. pose proof (binom_nonneg (0 + M) (S x + y)). lia.
  - change (S D + M)%nat with (S (D + M)). destruct x as [|x].
    + rewrite binom_0_r. change (0 + y)%nat with y.
      pose proof (IH M O y) as H. rewrite binom_0_r in H. change (0 + y)%nat with y in H.
      pose proof (binom_mono (D + M) y). lia.
    + change (S x + y)%nat with (S (x + y)).
      change (binom (S D) (S x)) with (binom D x + binom D (S x)).
      change (binom (S (D + M)) (S (x + y))) with (binom (D + M) (x + y) + binom (D + M) (S (x + y))).
      pose proof (IH M x y). pose proof (IH M (S x) y) as H2.
      change (S x + y)%nat with (S (x + y)) in H2. nia.
Qed.

(** Absorption: [(k + 1) C(n, k + 1) = (n - k) C(n, k)]. *)
Lemma binom_absorb n : forall k,
  Z.of_nat (S k) * binom n (S k) = (Z.of_nat n - Z.of_nat k) * binom n k.
Proof.
  induction n as [|n IH]; intros k.
  - destruct k; cbn [binom]; lia.
  - destruct k as [|k].
    + cbn [binom]. pose proof (IH O) as H. rewrite binom_0_r in *. lia.
    + pose proof (IH k) as H1. pose proof (IH (S k)) as H2.
      change (binom (S n) (S (S k))) with (binom n (S k) + binom n (S (S k))).
      change (binom (S n) (S k)) with (binom n k + binom n (S k)).
      nia.
Qed.

Lemma comb_ok n k :
  0 <= n -> 0 <= k -> Z.min k (n - k) <= llong_max ->
  comb n k = Ok (binom (Z.to_nat n) (Z.to_nat k)).
Proof.
  intros Hn Hk Hm. unfold comb.
  destruct (Z.ltb_spec n 0); [lia|]. destruct (Z.ltb_spec k 0); [lia|].
  destruct (Z.ltb_spec llong_max (Z.min k (n - k))); [lia|].
  rewrite andb_false_r. reflexivity.
Qed.

Lemma llong_max_big : two_53 <= llong_max.
Proof. unfold two_53, llong_max. lia. Qed.

Lemma comb_overflow n k :
  0 <= k <= n -> llong_max < Z.min k (n - k) -> comb n k = Raise OverflowError.
Proof.
  intros Hk Hm. unfold comb.
  destruct (Z.ltb_spec n 0); [lia|]. destruct (Z.ltb_spec k 0); [lia|].
  destruct (Z.leb_spec k n); [|lia].
  destruct (Z.ltb_spec llong_max (Z.min k (n - k))); [|lia]. reflexivity.
Qed.

Lemma comb_exact_ok n k :
  0 <= n -> 0 <= k -> comb_exact n k = Ok (binom (Z.to_nat n) (Z.to_nat k)).
Proof.
  intros Hn Hk. unfold comb_exact.
  destruct (Z.ltb_spec n 0); [lia|]. destruct (Z.ltb_spec k 0); [lia|]. reflexivity.
Qed.

(** ** The general evaluator never raises *)

Lemma guard_true N D n x :
  guard N D n x = true <-> 0 <= x <= D /\ 0 <= n - x <= N - D.
Proof. unfold guard. rewrite !andb_true_iff, !Z.leb_le. lia. Qed.

Lemma guard_false N D n x :
  guard N D n x = false <-> ~ (0 <= x <= D /\ 0 <= n - x <= N - D).
Proof. rewrite <- guard_true. destruct (guard N D n x); split; intros; try congruence; tauto. Qed.

Lemma term_ok N D n x :
  Z.min n (N - n) <= llong_max ->
  guard N D n x = true ->
  exists a b d t,
    comb D x = Ok a /\ comb (N - D) (n - x) = Ok b /\ comb N n = Ok d /\
    0 <= a * b <= d /\ 0 < d /\ int_truediv (a * b) d = Ok t /\ nonneg t /\ (B2Q t <= 1)%Q.
Proof.
  intros Hm G. apply guard_true in G.
  rewrite !comb_ok by lia.
  set (a := binom (Z.to_nat D) (Z.to_nat x)).
  set (b := binom (Z.to_nat (N - D)) (Z.to_nat (n - x))).
  set (d := binom (Z.to_nat N) (Z.to_nat n)).
  assert (Hd : 0 < d) by (apply binom_pos; lia).
  assert (Hab : 0 <= a * b <= d).
  { split.
    - assert (0 <= a) by apply binom_nonneg. assert (0 <= b) by apply binom_nonneg. nia.
    - pose proof (vandermonde_le (Z.to_nat D) (Z.to_nat (N - D)) (Z.to_nat x) (Z.to_nat (n - x))) as V.
      replace (Z.to_nat D + Z.to_nat (N - D))%nat with (Z.to_nat N) in V by lia.
      replace (Z.to_nat x + Z.to_nat (n - x))%nat with (Z.to_nat n) in V by lia.
      exact V. }
  destruct (int_truediv_unit (a * b) d Hab Hd) as (t & E & Nt & Vt).
  exists a, b, d, t. repeat split; try assumption; try reflexivity; lia.
Qed.

Lemma foldM_total {A B : Type} (f : A -> B -> result A) l :
  (forall a b, exists a', f a b = Ok a') -> forall a, exists a', foldM f l a = Ok a'.
Proof.
  intros Hf a. destruct (foldM_inv f (fun _ => True) l) with (a := a) as (a' & E & _); auto.
  - intros a0 b _ _. destruct (Hf a0 b) as (a' & E). exists a'. auto.
  - exists a'. exact E.
Qed.

(** The body of the loop of [prob_aceptacion], on binary64. *)
Lemma prob_aceptacion_unfold (N D n c : Z) :
  prob_aceptacion (F := float) N D n c
  = foldM (fun Pa x =>
             if guard N D n x then
               a <- comb D x ;; b <- comb (N - D) (n - x) ;; d <- comb N n ;;
               t <- int_truediv (a * b) d ;; Ok (fadd Pa t)
             else Ok Pa)
          (range 0 (c + 1)) f_zero.
Proof. reflexivity. Qed.

Lemma prob_aceptacion_total (N D n c : Z) :
  Z.min n (N - n) <= llong_max ->
  exists Pa : float, prob_aceptacion N D n c = Ok Pa.
Proof.
  intros Hm. rewrite prob_aceptacion_unfold. apply foldM_total. intros Pa x.
  destruct (guard N D n x) eqn:G; [|eexists; reflexivity].
  destruct (term_ok N D n x Hm G) as (a & b & d & t & Ea & Eb & Ed & _ & _ & Et & _).
  rewrite Ea, Eb, Ed. cbn [bind]. rewrite Et. cbn [bind]. eexists; reflexivity.
Qed.

(** C9, as the code has it.  As long as [min(n, N - n)] fits a C
    [long long], [prob_aceptacion] returns a value for all arguments,
    [n > N] included: the range test lets a term through only when the
    three binomial coefficients have valid arguments and [C(N, n)] is not
    zero, and then the quotient is computed without exception. *)
Theorem prob_aceptacion_never_raises (N D n c : Z) :
  Z.min n (N - n) <= llong_max ->
  (exists Pa : float, prob_aceptacion N D n c = Ok Pa) /\
  (forall x, guard N D n x = true ->
     exists a b d t, comb D x = Ok a /\ comb (N - D) (n - x) = Ok b /\
                     comb N n = Ok d /\ d <> 0 /\ int_truediv (a * b) d = Ok t).
Proof.
  intros Hm. split; [apply prob_aceptacion_total; exact Hm|].
  intros x G. destruct (term_ok N D n x Hm G) as (a & b & d & t & Ea & Eb & Ed & _ & Hd & Et & _).
  exists a, b, d, t. repeat split; try assumption. lia.
Qed.

Lemma prob_aceptacion_never_raises_witness :
  (exists Pa : float, prob_aceptacion 12 5 7 5 = Ok Pa) /\
  (forall x, guard 12 5 7 x = true ->
     exists a b d t, comb 5 x = Ok a /\ comb (12 - 5) (7 - x) = Ok b /\
                     comb 12 7 = Ok d /\ d <> 0 /\ int_truediv (a * b) d = Ok t).
Proof. apply (prob_aceptacion_never_raises 12 5 7 5). unfold llong_max. lia. Defined.

(** The claim fails on a lot of [2^64] units with a sample of [2^63]: the
    first term passes the range test and [comb(2^64, 2^63)] raises. *)
Lemma prob_aceptacion_comb_overflow :
  1 <= 2 ^ 64 /\ 0 <= 0 <= 2 ^ 64 /\ 0 <= 2 ^ 63 /\ 0 <= 0 /\
  prob_aceptacion (F := float) (2 ^ 64) 0 (2 ^ 63) 0 = Raise OverflowError.
Proof. do 4 (split; [lia|]). vm_compute. reflexivity. Qed.

(** ** Degenerate arguments *)

Lemma prob_aceptacion_beyond_lot (N D n c : Z) :
  N < n -> prob_aceptacion (F := float) N D n c = Ok f_zero.
Proof.
  intros H. rewrite prob_aceptacion_unfold. apply foldM_id. intros x _.
  replace (guard N D n x) with false; [reflexivity|].
  symmetry. apply guard_false. lia.
Qed.

(** C4, as the code has it.  With [n > N] the general evaluator returns
    0.0 whatever [D] is; [prob_zero_defects] returns 0.0 when [D >= 1], and
    1.0 when [D <= 0], whose test comes first. *)
Theorem evaluators_beyond_lot (N D n c : Z) :
  1 <= N -> N < n ->
  prob_aceptacion (F := float) N D n c = Ok f_zero /\
  (1 <= D -> prob_zero_defects (F := float) N D n = Ok f_zero) /\
  (D <= 0 -> prob_zero_defects (F := float) N D n = Ok f_one).
Proof.
  intros HN Hn. split; [apply prob_aceptacion_beyond_lot; exact Hn|].
  unfold prob_zero_defects. destruct (Z.eqb_spec n 0); [lia|].
  split; intros HD.
  - destruct (Z.leb_spec D 0); [lia|]. destruct (Z.gtb_spec n N); [reflexivity|lia].
  - destruct (Z.leb_spec D 0); [reflexivity|lia].
Qed.

Lemma evaluators_beyond_lot_witness :
  prob_aceptacion (F := float) 1 1 2 0 = Ok f_zero /\
  (1 <= 1 -> prob_zero_defects (F := float) 1 1 2 = Ok f_zero) /\
  (1 <= 0 -> prob_zero_defects (F := float) 1 1 2 = Ok f_one).
Proof. apply (evaluators_beyond_lot 1 1 2 0); lia. Defined.

(** With no defective unit and [n > N], [prob_zero_defects] returns 1.0. *)
Lemma beyond_lot_no_defectives :
  0 <= 0 <= 1 /\ 1 < 2 /\ prob_zero_defects (F := float) 1 0 2 <> Ok f_zero.
Proof. split; [lia|]. split; [lia|]. vm_compute. discriminate. Qed.

Lemma prob_aceptacion_first_term_only (N D n c : Z) (t : float) :
  0 <= c ->
  guard N D n 0 = true ->
  (forall x, 1 <= x <= c -> guard N D n x = false) ->
  (a <- comb D 0 ;; b <- comb (N - D) n ;; d <- comb N n ;; int_truediv (a * b) d) = Ok t ->
  prob_aceptacion (F := float) N D n c = Ok (fadd f_zero t).
Proof.
  intros Hc G0 Gx Ht. rewrite prob_aceptacion_unfold.
  rewrite range_cons by lia. cbn [foldM]. rewrite G0, Z.sub_0_r.
  destruct (comb D 0) as [a|]; cbn [bind] in *; [|discriminate].
  destruct (comb (N - D) n) as [b|]; cbn [bind] in *; [|discriminate].
  destruct (comb N n) as [d|]; cbn [bind] in *; [|discriminate].
  rewrite Ht. cbn [bind]. apply foldM_id. intros x Hx. apply range_In in Hx.
  rewrite Gx by lia. reflexivity.
Qed.

Lemma prob_zero_defects_certain (N D n : Z) :
  n = 0 \/ D <= 0 -> prob_zero_defects (F := float) N D n = Ok f_one.
Proof.
  intros H. unfold prob_zero_defects. destruct (Z.eqb_spec n 0); [reflexivity|].
  destruct (Z.leb_spec D 0); [reflexivity|lia].
Qed.

Lemma prob_aceptacion_certain (N D n c : Z) :
  n = 0 \/ D <= 0 -> 1 <= N -> 0 <= c -> 0 <= n <= N -> 0 <= D <= N ->
  Z.min n (N - n) <= llong_max ->
  prob_aceptacion (F := float) N D n c = Ok f_one.
Proof.
  intros H HN Hc Hn HD Hm.
  change (Ok f_one) with (Ok (fadd f_zero f_one)).
  apply prob_aceptacion_first_term_only; try assumption.
  - apply guard_true. lia.
  - intros x Hx. apply guard_false. lia.
  - rewrite !comb_ok by lia. cbn [bind]. change (Z.to_nat 0) with O.
    rewrite binom_0_r, Z.mul_1_l. destruct H as [->|HD0].
    + change (Z.to_nat 0) with O. rewrite !binom_0_r. apply int_truediv_same. lia.
    + replace D with 0 by lia. rewrite Z.sub_0_r. apply int_truediv_same.
      apply binom_pos. lia.
Qed.

(** C5, as the code has it.  If [n = 0] or [D <= 0], [prob_zero_defects]
    returns 1.0; so does [prob_aceptacion] when moreover [0 <= D <= N] and
    [min(n, N - n)] fits a C [long long], the limit of [math.comb]. *)
Theorem evaluators_certain (N D n c : Z) :
  n = 0 \/ D <= 0 ->
  prob_zero_defects (F := float) N D n = Ok f_one /\
  (1 <= N -> 0 <= c -> 0 <= n <= N -> 0 <= D <= N -> Z.min n (N - n) <= llong_max ->
   prob_aceptacion (F := float) N D n c = Ok f_one).
Proof.
  intros H. split.
  - apply prob_zero_defects_certain. exact H.
  - apply prob_aceptacion_certain. exact H.
Qed.

Lemma evaluators_certain_witness :
  prob_zero_defects (F := float) 5 0 3 = Ok f_one /\
  (1 <= 5 -> 0 <= 2 -> 0 <= 3 <= 5 -> 0 <= 0 <= 5 -> Z.min 3 (5 - 3) <= llong_max ->
   prob_aceptacion (F := float) 5 0 3 2 = Ok f_one).
Proof. apply (evaluators_certain 5 0 3 2). right. lia. Defined.

(** With a negative [D] the range test rejects every term. *)
Lemma certain_negative_defectives :
  (0 = 0 \/ -1 <= 0) /\ prob_aceptacion (F := float) 1 (-1) 0 0 <> Ok f_one.
Proof. split; [left; reflexivity|]. vm_compute. discriminate. Qed.

(** ** The loop of [prob_zero_defects] *)

Lemma prob_zero_defects_unfold (N D n : Z) :
  n <> 0 -> 0 < D -> n <= N ->
  prob_zero_defects (F := float) N D n = (p0 <- pzd_loop N D n ;; Ok (clamp p0)).
Proof.
  intros Hn HD HN. unfold prob_zero_defects.
  destruct (Z.eqb_spec n 0); [lia|]. destruct (Z.leb_spec D 0); [lia|].
  destruct (Z.gtb_spec n N); [lia|]. reflexivity.
Qed.

Lemma pzd_loop_succ (N D k : Z) :
  0 <= k -> pzd_loop N D (k + 1) = (p <- pzd_loop N D k ;; pzd_step N D p k).
Proof.
  intros Hk. unfold pzd_loop. rewrite (range_snoc 0 (k + 1)) by lia.
  replace (k + 1 - 1) with k by lia. rewrite foldM_app.
  destruct (foldM (pzd_step N D) (range 0 k) f_one) as [p|e]; cbn [bind foldM]; [|reflexivity].
  destruct (pzd_step N D p k); reflexivity.
Qed.

Lemma is_zero_true x : is_zero x = true -> exists s, x = S754_zero s.
Proof. destruct x; try discriminate. eexists; reflexivity. Qed.

Lemma fmul_zero_r x s : finite x -> exists s', fmul x (S754_zero s) = S754_zero s'.
Proof. destruct x as [s'|s'| |s' m e]; cbn [finite]; try tauto; intros _; eexists; reflexivity. Qed.

Lemma nonneg_zero s : nonneg (S754_zero s).
Proof. exact I. Qed.

Lemma two_1023_big : (F2Q (Zpos (Z.to_pos M52)) 971 == inject_Z two_1023)%Q.
Proof. exact F2Q_big. Qed.

Section Loop.
Variables N D : Z.
Hypothesis HN : 1 <= N <= two_1023.
Hypothesis HD : 1 <= D <= N.

Lemma pzd_step_inv (i : Z) (p : float) :
  0 <= i < N -> pzd_inv N D i p ->
  exists p', pzd_step N D p i = Ok p' /\ pzd_inv N D (i + 1) p' /\ (B2Q p' <= B2Q p)%Q.
Proof.
  intros Hi (Np & Bp & Zp). unfold pzd_step.
  pose proof (nonneg_B2Q p Np) as P0.
  destruct (Z.compare_spec i (N - D)) as [E|L|G].
  - (* the factor is zero *)
    replace (N - D - i) with 0 by lia. unfold int_truediv.
    destruct (Z.eqb_spec (N - i) 0); [lia|]. cbn [Z.eqb bind].
    destruct (fmul_zero_r p (N - i <? 0) (nonneg_finite p Np)) as (s' & ->).
    eexists. split; [reflexivity|]. unfold pzd_inv. cbn [B2Q is_zero nonneg]. 
    repeat split; auto; lra.
  - (* a ratio in (0, 1] *)
    destruct (int_truediv_unit (N - D - i) (N - i) ltac:(lia) ltac:(lia)) as (r & -> & Nr & Br).
    cbn [bind]. eexists. split; [reflexivity|].
    pose proof (nonneg_B2Q r Nr) as R0.
    destruct p as [s|s| |[|] m e]; cbn [nonneg] in Np; try tauto.
    + destruct (fmul_zero_l s r (nonneg_finite r Nr)) as (s' & ->).
      unfold pzd_inv. cbn [B2Q is_zero nonneg]. repeat split; auto; lra.
    + cbn [B2Q] in *.
      destruct (fmul_nonneg_le (S754_finite false m e) r m e) as [N' B']; cbn [nonneg B2Q]; auto.
      { pose proof (F2Q_pos m e). nra. }
      unfold pzd_inv. repeat split; auto; try lra. intros; lia.
  - (* the product is already zero *)
    destruct (is_zero_true p (Zp G)) as (s & ->).
    destruct (int_truediv_finite (N - D - i) (N - i)) as (r & -> & Fr); [lia| |].
    { fold two_1023. assert (0 < two_1023) by (unfold two_1023; lia). nia. }
    cbn [bind]. destruct (fmul_zero_l s r Fr) as (s' & ->).
    eexists. split; [reflexivity|]. unfold pzd_inv. cbn [B2Q is_zero nonneg].
    repeat split; auto; lra.
Qed.

Lemma pzd_loop_inv (k : Z) :
  0 <= k <= N -> exists p, pzd_loop N D k = Ok p /\ pzd_inv N D k p.
Proof.
  intros [Hk0 Hk]. revert Hk. pattern k. apply natlike_ind; [| |exact Hk0].
  - intros _. exists f_one. split; [reflexivity|]. unfold pzd_inv.
    repeat split; [apply one_representable|rewrite B2Q_one; lra|lia].
  - intros x Hx IH Hk. destruct (IH ltac:(lia)) as (p & E & I).
    destruct (pzd_step_inv x p ltac:(lia) I) as (p' & E' & I' & _).
    exists p'. change (Z.succ x) with (x + 1). rewrite pzd_loop_succ, E by lia. cbn [bind]. auto.
Qed.

Lemma clamp_unit (p : float) : nonneg p -> (B2Q p <= 1)%Q -> clamp p = p.
Proof.
  intros Np Bp. unfold clamp, py_max, py_min. cbn [ltb binary64].
  assert (N1 : nonneg f_one) by apply one_representable.
  destruct (fltb f_one p) eqn:E1.
  - apply (fltb_nonneg f_one p N1 Np) in E1. rewrite B2Q_one in E1. lra.
  - destruct (fltb p f_zero) eqn:E2; [|reflexivity].
    apply (fltb_nonneg p f_zero Np (nonneg_zero false)) in E2.
    pose proof (nonneg_B2Q p Np). cbn [B2Q f_zero] in E2. lra.
Qed.

(** The value returned for a sample size within the lot is the running
    product itself. *)
Lemma pzd_value (k : Z) :
  0 <= k <= N ->
  exists p, prob_zero_defects (F := float) N D k = Ok p /\ pzd_loop N D k = Ok p /\
            pzd_inv N D k p.
Proof.
  intros Hk. destruct (pzd_loop_inv k Hk) as (p & E & I). exists p.
  split; [|split; assumption].
  destruct (Z.eq_dec k 0) as [->|Nk].
  - cbn in E. injection E as <-. reflexivity.
  - rewrite prob_zero_defects_unfold, E by lia. cbn [bind].
    destruct I as (Np & Bp & _). rewrite clamp_unit by assumption. reflexivity.
Qed.

Lemma pzd_monotone (n : Z) :
  0 <= n -> n + 1 <= N ->
  exists a b, prob_zero_defects (F := float) N D (n + 1) = Ok a /\
              prob_zero_defects (F := float) N D n = Ok b /\ fleb a b = true.
Proof.
  intros Hn Hn1.
  destruct (pzd_value n ltac:(lia)) as (b & Eb & Lb & Ib).
  destruct (pzd_value (n + 1) ltac:(lia)) as (a & Ea & La & Ia).
  exists a, b. split; [exact Ea|]. split; [exact Eb|].
  destruct (pzd_step_inv n b ltac:(lia) Ib) as (p' & E' & _ & Le).
  rewrite pzd_loop_succ, Lb in La by lia. cbn [bind] in La. rewrite E' in La.
  injection La as ->. apply fleb_nonneg; [apply Ia|apply Ib|exact Le].
Qed.
End Loop.

(** [prob_zero_defects] raises no exception as long as the arguments stay
    below [2^1023]. *)
Lemma prob_zero_defects_total (N D n : Z) :
  N <= two_1023 -> D <= two_1023 ->
  exists p : float, prob_zero_defects N D n = Ok p.
Proof.
  intros HN HD. unfold prob_zero_defects.
  destruct (Z.eqb_spec n 0); [eexists; reflexivity|].
  destruct (Z.leb_spec D 0); [eexists; reflexivity|].
  destruct (Z.gtb_spec n N); [eexists; reflexivity|].
  destruct (foldM_inv (fun p0 i => r <- truediv (N - D - i) (N - i) ;; Ok (mul p0 r))
              (fun _ : float => True) (range 0 n)) with (a := (one : float)) as (p & E & _); [|exact I|].
  - intros a i Hi _. apply range_In in Hi. cbn [truediv binary64].
    destruct (int_truediv_finite (N - D - i) (N - i)) as (r & -> & _); [lia| |].
    { fold two_1023. assert (0 < two_1023) by (unfold two_1023; lia). nia. }
    cbn [bind]. eexists. auto.
  - rewrite E. cbn [bind]. eexists; reflexivity.
Qed.

(** C10, as the code has it.  For a lot of at most [2^1023] units with
    [1 <= D <= N] and [N - D < n <= N], the factor at [i = N - D] is 0.0 and
    [prob_zero_defects] returns a zero (of either sign: both compare equal
    to 0.0). *)
Theorem prob_zero_defects_exhausted (N D n : Z) :
  1 <= N <= two_1023 -> 1 <= D <= N -> N - D < n <= N ->
  int_truediv (N - D - (N - D)) (N - (N - D)) = Ok f_zero /\
  exists s, prob_zero_defects (F := float) N D n = Ok (S754_zero s).
Proof.
  intros HN HD Hn. split.
  - replace (N - D - (N - D)) with 0 by lia. unfold int_truediv.
    destruct (Z.eqb_spec (N - (N - D)) 0); [lia|]. cbn [Z.eqb].
    destruct (Z.ltb_spec (N - (N - D)) 0); [lia|]. reflexivity.
  - destruct (pzd_value N D HN HD n ltac:(lia)) as (p & E & _ & (_ & _ & Z)).
    destruct (is_zero_true p (Z ltac:(lia))) as (s & ->). exists s. exact E.
Qed.

Lemma prob_zero_defects_exhausted_witness :
  int_truediv (3 - 2 - (3 - 2)) (3 - (3 - 2)) = Ok f_zero /\
  exists s, prob_zero_defects (F := float) 3 2 3 = Ok (S754_zero s).
Proof. apply (prob_zero_defects_exhausted 3 2 3); unfold two_1023; lia. Defined.

(** The zero can be the negative one. *)
Lemma prob_zero_defects_negative_zero :
  prob_zero_defects (F := float) 3 2 3 = Ok (S754_zero true).
Proof. vm_compute. reflexivity. Qed.

Lemma foldM_last_raises {A B : Type} (f : A -> B -> result A) l b e :
  (forall a, f a b = Raise e) -> forall a, exists e', foldM f (l ++ [b]) a = Raise e'.
Proof.
  intros Hf a. rewrite foldM_app. destruct (foldM f l a) as [a'|e0]; cbn [bind foldM].
  - rewrite Hf. cbn [bind]. eexists; reflexivity.
  - eexists; reflexivity.
Qed.

Lemma prob_zero_defects_overflow (N : Z) :
  0 < N -> int_truediv (1 - N) 1 = Raise OverflowError ->
  exists e, prob_zero_defects (F := float) N N N = Raise e.
Proof.
  intros HN Hov. unfold prob_zero_defects.
  destruct (Z.eqb_spec N 0); [lia|]. destruct (Z.leb_spec N 0); [lia|].
  destruct (Z.gtb_spec N N); [lia|].
  rewrite (range_snoc 0 N) by lia.
  destruct (foldM_last_raises
              (fun (p0 : float) i => r <- truediv (N - N - i) (N - i) ;; Ok (mul p0 r))
              (range 0 (N - 1)) (N - 1) OverflowError) with (a := (one : float)) as (e & ->).
  - intros a. cbn [truediv binary64].
    replace (N - N - (N - 1)) with (1 - N) by lia. replace (N - (N - 1)) with 1 by lia.
    rewrite Hov. reflexivity.
  - exists e. reflexivity.
Qed.

(** For a lot of [2^1024] units, all defective and all sampled, the last
    ratio is too large for a float. *)
Lemma exhausted_huge_lot :
  1 <= two_1024 /\ two_1024 - two_1024 < two_1024 <= two_1024 /\
  forall s, prob_zero_defects (F := float) two_1024 two_1024 two_1024 <> Ok (S754_zero s).
Proof.
  split; [unfold two_1024; lia|]. split; [unfold two_1024; lia|].
  intros s. destruct (prob_zero_defects_overflow two_1024) as (e & ->).
  - unfold two_1024. lia.
  - vm_compute. reflexivity.
  - discriminate.
Qed.

(** ** The search for the sample size *)

Lemma first_below_range (eval : Z -> result float) (beta : float) (k : nat) :
  forall lo hi, Z.to_nat (hi - lo) = k ->
  (forall n, lo <= n < hi -> exists P, eval n = Ok P) ->
  (first_below eval beta (range lo hi) = Ok None /\
   forall n, lo <= n < hi -> exists P, eval n = Ok P /\ fleb P beta = false) \/
  (exists n P, lo <= n < hi /\ first_below eval beta (range lo hi) = Ok (Some (n, P)) /\
     eval n = Ok P /\ fleb P beta = true /\
     forall m, lo <= m < n -> exists Pm, eval m = Ok Pm /\ fleb Pm beta = false).
Proof.
  induction k as [|k IH]; intros lo hi Hk Hev.
  - left. rewrite range_empty by lia. split; [reflexivity|]. intros n Hn. lia.
  - rewrite range_cons by lia. cbn [first_below].
    destruct (Hev lo ltac:(lia)) as (P & EP). rewrite EP. cbn [bind].
    destruct (fleb P beta) eqn:Le.
    + right. exists lo, P. repeat split; try lia; try assumption.
    + destruct (IH (lo + 1) hi ltac:(lia)) as [[E Hall]|(n & Pn & Hn & E & En & Ln & Hm)].
      * intros n Hn. apply Hev. lia.
      * left. split; [exact E|]. intros n Hn.
        destruct (Z.eq_dec n lo) as [->|]; [exists P; auto|apply Hall; lia].
      * right. exists n, Pn. repeat split; try lia; try assumption.
        intros m Hmn. destruct (Z.eq_dec m lo) as [->|]; [exists P; auto|apply Hm; lia].
Qed.

Lemma solve_spec (eval : Z -> Z -> result float) (N : Z) (pL beta : float) (x : float) (D : Z) :
  1 <= N -> int_mul_float N pL = Ok x -> py_ceil x = Ok D ->
  (forall n, 1 <= n <= N -> exists P, eval D n = Ok P) ->
  exists n P, solve eval N pL beta = Ok (n, D, P) /\ 1 <= n <= N /\ eval D n = Ok P /\
    (fleb P beta = true \/ n = N) /\
    (forall m, 1 <= m < n -> exists Pm, eval D m = Ok Pm /\ fleb Pm beta = false).
Proof.
  intros HN Ex ED Hev. unfold solve. rewrite Ex. cbn [bind]. rewrite ED. cbn [bind].
  destruct (first_below_range (eval D) beta _ 1 (N + 1) eq_refl) as [[E Hall]|(n & P & Hn & E & En & Ln & Hm)].
  - intros n Hn. apply Hev. lia.
  - rewrite E. cbn [bind]. destruct (Hev N ltac:(lia)) as (P & EP). rewrite EP. cbn [bind].
    exists N, P. repeat split; try lia; auto. intros m Hm. apply Hall. lia.
  - rewrite E. cbn [bind]. exists n, P. repeat split; try lia; auto.
Qed.

Lemma lot_limit (N : Z) (pL : float) :
  1 <= N <= two_1023 -> nonneg pL -> (0 < B2Q pL)%Q -> (B2Q pL <= 1)%Q ->
  exists x D, int_mul_float N pL = Ok x /\ py_ceil x = Ok D /\ 1 <= D <= two_1023.
Proof.
  intros HN Np P0 P1. unfold int_mul_float.
  destruct (int_to_float_pos N _ _ ltac:(lia) big_representable) as (m & e & -> & R & L & U).
  { rewrite two_1023_big, <- Zle_Qle. lia. }
  cbn [bind].
  destruct pL as [s|s| |[|] mp ep]; cbn [nonneg B2Q] in *; try tauto; try lra.
  destruct (fmul_nonneg_le (S754_finite false m e) (S754_finite false mp ep) m e) as [Nx Bx];
    cbn [nonneg B2Q]; auto.
  { pose proof (F2Q_pos m e). nra. }
  destruct (fmul_nonneg_ge (S754_finite false m e) (S754_finite false mp ep) mp ep) as [Inf|(mx & ex & Ex & Rx & Lx)];
    cbn [nonneg B2Q]; auto; try apply Np.
  { pose proof (F2Q_pos mp ep). nra. }
  { rewrite Inf in Nx. cbn [nonneg] in Nx. tauto. }
  rewrite Ex in *. cbn [B2Q] in Bx.
  destruct (py_ceil_finite (S754_finite false mx ex) Rx) as (D & ED & D1 & D2). cbn [B2Q] in *.
  eexists; exists D. split; [reflexivity|]. split; [exact ED|].
  pose proof (F2Q_pos mp ep).
  assert (0 < inject_Z D)%Q by lra.
  assert (inject_Z D - 1 < inject_Z two_1023)%Q by (rewrite <- two_1023_big; lra).
  change 0%Q with (inject_Z 0) in H0. rewrite <- Zlt_Qlt in H0.
  change 1%Q with (inject_Z 1) in H1. unfold Qminus in H1.
  rewrite <- inject_Z_opp, <- inject_Z_plus, <- Zlt_Qlt in H1. lia.
Qed.

(** C1, as the code has it.  For a lot of at most [2^1023] units and a
    float [pL] strictly between 0 and 1, both solvers compute
    [D = ceil(N * pL)] and return, without exception, that [D], the smallest
    [n] in [1..N] whose acceptance probability is at most [beta], and that
    probability; when no such [n] exists they return [n = N] with the
    acceptance probability at [N].  The general solver does so for
    [N <= 2^64 - 1], where every [math.comb] it calls stays within its
    limit. *)
Theorem solver_minimal (N : Z) (pL beta : float) (c : Z) :
  1 <= N <= two_1023 -> nonneg pL -> (0 < B2Q pL)%Q -> (B2Q pL < 1)%Q ->
  exists x D, int_mul_float N pL = Ok x /\ py_ceil x = Ok D /\
    (N <= 2 * llong_max + 1 ->
     exists n Pa,
       PlanC.encontrar_n_hipergeometrica N pL beta c = Ok (n, D, Pa) /\
       1 <= n <= N /\ prob_aceptacion N D n c = Ok Pa /\
       (fleb Pa beta = true \/ n = N) /\
       (forall m, 1 <= m < n ->
          exists Pm, prob_aceptacion N D m c = Ok Pm /\ fleb Pm beta = false)) /\
    (exists n P0,
       PlanC0.encontrar_n_hipergeometrica N pL beta = Ok (n, D, P0) /\
       1 <= n <= N /\ prob_zero_defects N D n = Ok P0 /\
       (fleb P0 beta = true \/ n = N) /\
       (forall m, 1 <= m < n ->
          exists Pm, prob_zero_defects N D m = Ok Pm /\ fleb Pm beta = false)).
Proof.
  intros HN Np P0 P1.
  destruct (lot_limit N pL HN Np P0 ltac:(lra)) as (x & D & Ex & ED & HD).
  exists x, D. split; [exact Ex|]. split; [exact ED|]. split.
  - intros HL.
    apply (solve_spec (fun D n => prob_aceptacion N D n c) N pL beta x D); try assumption; try lia.
    intros n Hn. apply prob_aceptacion_total. lia.
  - apply (solve_spec (fun D n => prob_zero_defects N D n) N pL beta x D); try assumption; try lia.
    intros n _. apply prob_zero_defects_total; lia.
Qed.

(** At [N = 5], [pL = 0.5] ([D = 3]), [beta = 0.05] and [c = 3] the general
    solver finds no sample size and falls back to [n = 5], while the solver
    for [c = 0] returns [n = 3] after rejecting 1 and 2. *)
Lemma solver_minimal_witness :
  exists x D, int_mul_float 5 f_half = Ok x /\ py_ceil x = Ok D /\
    (5 <= 2 * llong_max + 1 ->
     exists n Pa,
       PlanC.encontrar_n_hipergeometrica 5 f_half lit_0_05 3 = Ok (n, D, Pa) /\
       1 <= n <= 5 /\ prob_aceptacion 5 D n 3 = Ok Pa /\
       (fleb Pa lit_0_05 = true \/ n = 5) /\
       (forall m, 1 <= m < n ->
          exists Pm, prob_aceptacion 5 D m 3 = Ok Pm /\ fleb Pm lit_0_05 = false)) /\
    (exists n P0,
       PlanC0.encontrar_n_hipergeometrica 5 f_half lit_0_05 = Ok (n, D, P0) /\
       1 <= n <= 5 /\ prob_zero_defects 5 D n = Ok P0 /\
       (fleb P0 lit_0_05 = true \/ n = 5) /\
       (forall m, 1 <= m < n ->
          exists Pm, prob_zero_defects 5 D m = Ok Pm /\ fleb Pm lit_0_05 = false)).
Proof.
  apply (solver_minimal 5 f_half lit_0_05 3).
  - unfold two_1023. lia.
  - split; [reflexivity|lia].
  - reflexivity.
  - reflexivity.
Defined.

(** A lot of [2^1024] units cannot be converted to a float: both solvers
    raise. *)
Lemma solver_huge_lot :
  1 <= two_1024 /\
  PlanC.encontrar_n_hipergeometrica two_1024 f_half f_half 0 = Raise OverflowError /\
  PlanC0.encontrar_n_hipergeometrica two_1024 f_half f_half = Raise OverflowError.
Proof.
  split; [unfold two_1024; lia|].
  unfold PlanC.encontrar_n_hipergeometrica, PlanC0.encontrar_n_hipergeometrica.
  assert (E : int_mul_float two_1024 f_half = Raise OverflowError) by (vm_compute; reflexivity).
  rewrite E. split; reflexivity.
Qed.

(** ** AOQL *)

Lemma tiny_canonical : canonical (Zpos (Z.to_pos (2 ^ 51))) (-1074).
Proof. reflexivity. Qed.

Lemma F2Q_tiny : (F2Q (Zpos (Z.to_pos (2 ^ 51))) (-1074) * inject_Z two_1023 == 1)%Q.
Proof.
  unfold F2Q, two_1023. rewrite <- (pow2_Z 1023) by lia.
  change (inject_Z (Zpos (Z.to_pos (2 ^ 51)))) with (inject_Z (2 ^ 51)).
  rewrite <- (pow2_Z 51) by lia. rewrite <- !pow2_add. reflexivity.
Qed.

Lemma aoql_body (N n : Z) :
  1 <= N <= two_1023 -> 0 < n <= two_1023 ->
  exists f Nf, int_truediv n N = Ok f /\ int_to_float N = Ok Nf /\
    fltb f_zero f = true /\ is_zero (fmul Nf f) = false.
Proof.
  intros HN Hn.
  assert (PN : (0 < inject_Z N)%Q) by (change 0%Q with (inject_Z 0); rewrite <- Zlt_Qlt; lia).
  assert (T : (0 < inject_Z two_1023)%Q) by (change 0%Q with (inject_Z 0); rewrite <- Zlt_Qlt; unfold two_1023; lia).
  assert (Qn : (1 <= inject_Z n)%Q) by (change 1%Q with (inject_Z 1); rewrite <- Zle_Qle; lia).
  assert (Qn' : (inject_Z n <= inject_Z two_1023)%Q) by (rewrite <- Zle_Qle; lia).
  assert (QN : (1 <= inject_Z N)%Q) by (change 1%Q with (inject_Z 1); rewrite <- Zle_Qle; lia).
  assert (QN' : (inject_Z N <= inject_Z two_1023)%Q) by (rewrite <- Zle_Qle; lia).
  destruct (int_truediv_le n N _ _ ltac:(lia) ltac:(lia) big_representable) as (f & Ef & Nf' & Bf).
  { rewrite two_1023_big. apply Qle_shift_div_r; [exact PN|]. nra. }
  destruct (int_truediv_ge n N _ _ ltac:(lia) ltac:(lia) tiny_canonical) as [Ov|(mf & ef & Ef' & Rf & Lf)].
  { apply Qle_shift_div_l; [exact PN|]. pose proof F2Q_tiny as E.
    set (t := F2Q (Zpos (Z.to_pos (2 ^ 51))) (-1074)) in *.
    assert (0 < t)%Q by apply F2Q_pos. nra. }
  { rewrite Ef in Ov. discriminate. }
  rewrite Ef in Ef'. injection Ef' as ->.
  destruct (int_to_float_pos N _ _ ltac:(lia) big_representable) as (m & e & EN & R & L & U).
  { rewrite two_1023_big. exact QN'. }
  exists (S754_finite false mf ef), (S754_finite false m e).
  split; [exact Ef|]. split; [exact EN|]. split; [reflexivity|].
  destruct (fmul_nonneg_ge (S754_finite false m e) (S754_finite false mf ef) mf ef) as [->|(mx & ex & -> & _)];
    cbn [nonneg B2Q]; auto; try apply Rf; try reflexivity.
  pose proof (F2Q_pos mf ef). nra.
Qed.

(** C8, as the code has it.  For [N] and [n] up to [2^1023], both
    estimators return NaN when [n = 0] and the float
    [0.3679 / (N * (n / N))] when [n > 0], without exception. *)
Theorem aoql_value (N n : Z) :
  1 <= N <= two_1023 -> 0 <= n <= two_1023 ->
  (n = 0 -> PlanC0.aoql_aproximado N n = Ok f_nan /\ PlanC.aoql_aprox N n = Ok f_nan) /\
  (0 < n -> exists f Nf, int_truediv n N = Ok f /\ int_to_float N = Ok Nf /\
     PlanC0.aoql_aproximado N n = Ok (fdiv lit_0_3679 (fmul Nf f)) /\
     PlanC.aoql_aprox N n = Ok (fdiv lit_0_3679 (fmul Nf f))).
Proof.
  intros HN Hn. split.
  - intros ->. unfold PlanC0.aoql_aproximado, PlanC.aoql_aprox.
    destruct (Z.gtb_spec N 0); [|lia]. unfold int_truediv.
    destruct (Z.eqb_spec N 0); [lia|]. cbn [Z.eqb bind]. split; reflexivity.
  - intros Hpos. destruct (aoql_body N n HN ltac:(lia)) as (f & Nf & Ef & EN & Lt & Nz).
    exists f, Nf. split; [exact Ef|]. split; [exact EN|].
    unfold PlanC0.aoql_aproximado, PlanC.aoql_aprox.
    destruct (Z.gtb_spec N 0); [|lia]. rewrite Ef. cbn [bind]. rewrite Lt.
    unfold int_mul_float. rewrite EN. cbn [bind]. unfold float_truediv. rewrite Nz.
    split; reflexivity.
Qed.

Lemma aoql_value_witness :
  (80 = 0 -> PlanC0.aoql_aproximado 600 80 = Ok f_nan /\ PlanC.aoql_aprox 600 80 = Ok f_nan) /\
  (0 < 80 -> exists f Nf, int_truediv 80 600 = Ok f /\ int_to_float 600 = Ok Nf /\
     PlanC0.aoql_aproximado 600 80 = Ok (fdiv lit_0_3679 (fmul Nf f)) /\
     PlanC.aoql_aprox 600 80 = Ok (fdiv lit_0_3679 (fmul Nf f))).
Proof. apply (aoql_value 600 80); unfold two_1023; lia. Defined.

(** For a lot of [2^1024] units, [N * f] cannot be formed: both estimators
    raise. *)
Lemma aoql_huge_lot :
  1 <= two_1024 /\ 0 <= 1 /\
  PlanC0.aoql_aproximado two_1024 1 = Raise OverflowError /\
  PlanC.aoql_aprox two_1024 1 = Raise OverflowError.
Proof.
  split; [unfold two_1024; lia|]. split; [lia|]. split; vm_compute; reflexivity.
Qed.

(** ** The unclamped sum *)

(** C6 at [N = 12], [D = 5], [n = 7], [c = 5]: the sum of the six rounded
    terms is [1 + 2^-52], above 1.0. *)
Lemma prob_aceptacion_above_one :
  prob_aceptacion (F := float) 12 5 7 5 = Ok (S754_finite false 4503599627370497 (-52)) /\
  fltb f_one (S754_finite false 4503599627370497 (-52)) = true.
Proof. split; vm_compute; reflexivity. Qed.

(** ** The evaluators in exact arithmetic *)

Lemma inject_pos z : 0 < z -> (0 < inject_Z z)%Q.
Proof. intros. change 0%Q with (inject_Z 0). rewrite <- Zlt_Qlt. assumption. Qed.

Lemma inject_nonneg z : 0 <= z -> (0 <= inject_Z z)%Q.
Proof. intros. change 0%Q with (inject_Z 0). rewrite <- Zle_Qle. assumption. Qed.

Lemma binom_absorb_Z (M k : Z) :
  0 <= M -> 0 <= k ->
  (k + 1) * binom (Z.to_nat M) (Z.to_nat (k + 1)) = (M - k) * binom (Z.to_nat M) (Z.to_nat k).
Proof.
  intros HM Hk. pose proof (binom_absorb (Z.to_nat M) (Z.to_nat k)) as H.
  replace (Z.to_nat (k + 1)) with (S (Z.to_nat k)) by lia.
  rewrite Nat2Z.inj_succ, !Z2Nat.id in H by lia. lia.
Qed.

Lemma bz_absorb (M y : Z) : 0 <= M -> (y + 1) * bz M (y + 1) = (M - y) * bz M y.
Proof.
  intros HM. unfold bz.
  destruct (Z.ltb_spec (y + 1) 0), (Z.ltb_spec y 0); try lia.
  - replace (y + 1) with 0 by lia. lia.
  - apply binom_absorb_Z; lia.
Qed.

Lemma binom_top_mono (a b k : nat) : (a <= b)%nat -> binom a k <= binom b k.
Proof.
  induction 1 as [|b Hab IH]; [lia|]. pose proof (binom_mono b k). lia.
Qed.

Lemma exact_truediv (a b : Z) :
  b <> 0 -> truediv (F := Q) a b = Ok (inject_Z a / inject_Z b)%Q.
Proof. intros Hb. cbn [truediv exact]. destruct (Z.eqb_spec b 0); [lia|reflexivity]. Qed.

Section ExactProduct.
Variables N D : Z.
Hypothesis HD : 0 <= D <= N.

(** After [k] steps the exact running product is [C(N-D, k) / C(N, k)]. *)
Lemma exact_loop (k : Z) :
  0 <= k <= N ->
  exists p : Q,
    foldM (fun (p0 : Q) i => r <- truediv (N - D - i) (N - i) ;; Ok (mul p0 r))
          (range 0 k) (one : Q) = Ok p /\
    (p == inject_Z (binom (Z.to_nat (N - D)) (Z.to_nat k))
          / inject_Z (binom (Z.to_nat N) (Z.to_nat k)))%Q.
Proof.
  intros [Hk0 Hk]. revert Hk. pattern k. apply natlike_ind; [| |exact Hk0].
  - intros _. exists 1%Q. split; [reflexivity|].
    change (Z.to_nat 0) with O. rewrite !binom_0_r. reflexivity.
  - intros x Hx IH Hk. destruct (IH ltac:(lia)) as (p & E & V).
    change (Z.succ x) with (x + 1).
    rewrite (range_snoc 0 (x + 1)) by lia. replace (x + 1 - 1) with x by lia.
    rewrite foldM_app, E. cbn [bind foldM].
    rewrite exact_truediv by lia. cbn [bind mul exact].
    eexists. split; [reflexivity|]. rewrite V.
    pose proof (binom_absorb_Z (N - D) x ltac:(lia) Hx) as A1.
    pose proof (binom_absorb_Z N x ltac:(lia) Hx) as A2.
    pose proof (binom_pos (Z.to_nat N) (Z.to_nat x) ltac:(lia)) as P1.
    pose proof (binom_pos (Z.to_nat N) (Z.to_nat (x + 1)) ltac:(lia)) as P2.
    set (m0 := binom (Z.to_nat (N - D)) (Z.to_nat x)) in *.
    set (m1 := binom (Z.to_nat (N - D)) (Z.to_nat (x + 1))) in *.
    set (n0 := binom (Z.to_nat N) (Z.to_nat x)) in *.
    set (n1 := binom (Z.to_nat N) (Z.to_nat (x + 1))) in *.
    pose proof (inject_pos _ P1) as Q1. pose proof (inject_pos _ P2) as Q2.
    assert (Q3 : (0 < inject_Z (N - x))%Q) by (apply inject_pos; lia).
    assert (Q4 : (0 < inject_Z (x + 1))%Q) by (apply inject_pos; lia).
    assert (B1 : (inject_Z (x + 1) * inject_Z m1 == inject_Z (N - D - x) * inject_Z m0)%Q).
    { rewrite <- !inject_Z_mult. rewrite A1. reflexivity. }
    assert (B2 : (inject_Z (x + 1) * inject_Z n1 == inject_Z (N - x) * inject_Z n0)%Q).
    { rewrite <- !inject_Z_mult. rewrite A2. reflexivity. }
    assert (C1 : (inject_Z m1 == inject_Z (N - D - x) * inject_Z m0 / inject_Z (x + 1))%Q).
    { rewrite <- B1. field. lra. }
    assert (C2 : (inject_Z n1 == inject_Z (N - x) * inject_Z n0 / inject_Z (x + 1))%Q).
    { rewrite <- B2. field. lra. }
    rewrite C1, C2. field. repeat split; lra.
Qed.

Lemma exact_clamp (p : Q) :
  (0 <= p)%Q -> (p <= 1)%Q -> py_max (py_min p (one : Q)) (zero : Q) = p.
Proof.
  intros H0 H1. unfold py_max, py_min. cbn [ltb one zero exact].
  destruct (Qle_bool p 1) eqn:E1; cbn [negb].
  - destruct (Qle_bool 0 p) eqn:E2; [reflexivity|].
    apply Qle_bool_iff in H0. congruence.
  - apply Qle_bool_iff in H1. congruence.
Qed.

(** In exact arithmetic [prob_zero_defects] is the closed form
    [C(N-D, n) / C(N, n)]. *)
Lemma exact_prob_zero_defects (n : Z) :
  0 <= n <= N ->
  exists p : Q, prob_zero_defects N D n = Ok p /\
    (p == inject_Z (binom (Z.to_nat (N - D)) (Z.to_nat n))
          / inject_Z (binom (Z.to_nat N) (Z.to_nat n)))%Q.
Proof.
  intros Hn. unfold prob_zero_defects.
  pose proof (binom_pos (Z.to_nat N) (Z.to_nat n) ltac:(lia)) as P.
  pose proof (inject_pos _ P) as QP.
  destruct (Z.eqb_spec n 0) as [->|Nn].
  - exists 1%Q. split; [reflexivity|].
    change (Z.to_nat 0) with O. rewrite !binom_0_r. reflexivity.
  - destruct (Z.leb_spec D 0) as [HD0|HD0].
    + exists 1%Q. split; [reflexivity|]. replace D with 0 by lia. rewrite Z.sub_0_r.
      cbn [one exact]. field. lra.
    + destruct (Z.gtb_spec n N); [lia|].
      destruct (exact_loop n Hn) as (p & -> & V). cbn [bind].
      exists p. split; [|exact V]. f_equal. apply exact_clamp.
      * rewrite V. apply Qle_shift_div_l; [exact QP|]. rewrite Qmult_0_l.
        apply inject_nonneg, binom_nonneg.
      * rewrite V. apply Qle_shift_div_r; [exact QP|]. rewrite Qmult_1_l, <- Zle_Qle.
        apply binom_top_mono. lia.
Qed.
End ExactProduct.

Lemma exact_prob_aceptacion_unfold (N D n c : Z) :
  prob_aceptacion (F := Q) N D n c
  = foldM (fun (Pa : Q) x =>
             if guard N D n x then
               a <- comb_exact D x ;; b <- comb_exact (N - D) (n - x) ;; d <- comb_exact N n ;;
               t <- truediv (a * b) d ;; Ok (Pa + t)%Q
             else Ok Pa)
          (range 0 (c + 1)) 0%Q.
Proof. reflexivity. Qed.

Section ExactSum.
Variables N D n : Z.
Hypothesis HD : 0 <= D <= N.
Hypothesis Hn : 0 <= n <= N.

Lemma hterm_outside (x : Z) :
  0 <= x -> guard N D n x = false -> hterm N D n (Z.to_nat x) = 0.
Proof.
  intros Hx G. apply guard_false in G. unfold hterm, bz. rewrite Z2Nat.id by lia.
  destruct (Z.ltb_spec (n - x) 0); [lia|].
  destruct (Z_le_gt_dec x D).
  - rewrite (binom_gt (Z.to_nat (N - D))) by lia. lia.
  - rewrite (binom_gt (Z.to_nat D)) by lia. lia.
Qed.

Lemma exact_term (q : Q) (x : Z) :
  0 <= x ->
  exists q' : Q,
    (if guard N D n x then
       a <- comb_exact D x ;; b <- comb_exact (N - D) (n - x) ;; d <- comb_exact N n ;;
       t <- truediv (a * b) d ;; Ok (q + t)%Q
     else Ok q) = Ok q' /\
    (q' == q + inject_Z (hterm N D n (Z.to_nat x)) / inject_Z (binom (Z.to_nat N) (Z.to_nat n)))%Q.
Proof.
  intros Hx. pose proof (binom_pos (Z.to_nat N) (Z.to_nat n) ltac:(lia)) as P.
  pose proof (inject_pos _ P) as QP.
  destruct (guard N D n x) eqn:G.
  - apply guard_true in G. rewrite !comb_exact_ok by lia. cbn [bind].
    rewrite exact_truediv by lia. cbn [bind]. eexists. split; [reflexivity|].
    unfold hterm, bz. rewrite Z2Nat.id by lia.
    destruct (Z.ltb_spec (n - x) 0); [lia|]. reflexivity.
  - exists q. split; [reflexivity|]. rewrite (hterm_outside x Hx G).
    unfold Qdiv. rewrite Qmult_0_l. ring.
Qed.

Lemma exact_sum (c : nat) :
  exists q : Q,
    prob_aceptacion N D n (Z.of_nat c) = Ok q /\
    (q == inject_Z (hsum N D n c) / inject_Z (binom (Z.to_nat N) (Z.to_nat n)))%Q.
Proof.
  pose proof (binom_pos (Z.to_nat N) (Z.to_nat n) ltac:(lia)) as P.
  pose proof (inject_pos _ P) as QP.
  rewrite exact_prob_aceptacion_unfold. induction c as [|c IH].
  - change (Z.of_nat 0 + 1) with 1. rewrite (range_cons 0 1), (range_empty (0 + 1) 1) by lia.
    cbn [foldM]. destruct (exact_term 0%Q 0 ltac:(lia)) as (q' & -> & V). cbn [bind].
    exists q'. split; [reflexivity|]. rewrite V. cbn [hsum]. change (Z.to_nat 0) with O. ring.
  - destruct IH as (q & E & V).
    rewrite (range_snoc 0 (Z.of_nat (S c) + 1)) by lia.
    replace (Z.of_nat (S c) + 1 - 1) with (Z.of_nat c + 1) by lia.
    rewrite foldM_app, E. cbn [bind foldM].
    destruct (exact_term q (Z.of_nat c + 1) ltac:(lia)) as (q' & -> & V'). cbn [bind].
    exists q'. split; [reflexivity|]. rewrite V', V. cbn [hsum].
    replace (Z.to_nat (Z.of_nat c + 1)) with (S c) by lia.
    rewrite inject_Z_plus. field. lra.
Qed.
End ExactSum.

(** How the hypergeometric sum changes with the sample size. *)
Lemma hsum_step (N D n : Z) (c : nat) :
  0 <= D <= N -> 0 <= n ->
  (N - n) * hsum N D n c - (n + 1) * hsum N D (n + 1) c
  = (D - Z.of_nat c) * binom (Z.to_nat D) c * bz (N - D) (n - Z.of_nat c).
Proof.
  intros HD Hn. induction c as [|c IH].
  - cbn [hsum]. unfold hterm. rewrite binom_0_r. change (Z.of_nat 0) with 0.
    rewrite !Z.sub_0_r. pose proof (bz_absorb (N - D) n ltac:(lia)) as A. lia.
  - cbn [hsum]. unfold hterm.
    pose proof (binom_absorb (Z.to_nat D) c) as A1. rewrite Z2Nat.id in A1 by lia.
    pose proof (bz_absorb (N - D) (n - Z.of_nat (S c)) ltac:(lia)) as A2.
    replace (n - Z.of_nat (S c) + 1) with (n - Z.of_nat c) in A2 by lia.
    replace (n + 1 - Z.of_nat (S c)) with (n - Z.of_nat c) by lia.
    set (A := binom (Z.to_nat D) (S c)) in *. set (A0 := binom (Z.to_nat D) c) in *.
    set (B0 := bz (N - D) (n - Z.of_nat c)) in *.
    set (B1 := bz (N - D) (n - Z.of_nat (S c))) in *.
    set (S0 := hsum N D n c) in *. set (S1 := hsum N D (n + 1) c) in *.
    assert (E1 := f_equal (fun t => t * B0) A1). assert (E2 := f_equal (fun t => t * A) A2).
    cbv beta in E1, E2. rewrite Nat2Z.inj_succ in *. lia.
Qed.

Lemma bz_nonneg M y : 0 <= bz M y.
Proof. unfold bz. destruct (y <? 0); [lia|apply binom_nonneg]. Qed.

Lemma hsum_shrinks (N D n : Z) (c : nat) :
  0 <= D <= N -> 0 <= n ->
  (n + 1) * hsum N D (n + 1) c <= (N - n) * hsum N D n c.
Proof.
  intros HD Hn. pose proof (hsum_step N D n c HD Hn) as E.
  assert (0 <= (D - Z.of_nat c) * binom (Z.to_nat D) c * bz (N - D) (n - Z.of_nat c)); [|lia].
  pose proof (bz_nonneg (N - D) (n - Z.of_nat c)).
  pose proof (binom_nonneg (Z.to_nat D) c).
  destruct (Z_le_gt_dec (Z.of_nat c) D).
  - apply Z.mul_nonneg_nonneg; [apply Z.mul_nonneg_nonneg|]; lia.
  - rewrite (binom_gt (Z.to_nat D) c) by lia. lia.
Qed.

(** In exact arithmetic the hypergeometric sum of [prob_aceptacion] does
    not increase with the sample size. *)
Lemma exact_prob_aceptacion_monotone (N D n c : Z) :
  0 <= D <= N -> 0 <= c -> 0 <= n -> n + 1 <= N ->
  exists a b : Q, prob_aceptacion N D (n + 1) c = Ok a /\
                  prob_aceptacion N D n c = Ok b /\ (a <= b)%Q.
Proof.
  intros HD Hc Hn Hn1.
  destruct (exact_sum N D (n + 1) HD ltac:(lia) (Z.to_nat c)) as (a & Ea & Va).
  destruct (exact_sum N D n HD ltac:(lia) (Z.to_nat c)) as (b & Eb & Vb).
  rewrite Z2Nat.id in Ea, Eb by lia.
  exists a, b. split; [exact Ea|]. split; [exact Eb|]. rewrite Va, Vb.
  pose proof (hsum_shrinks N D n (Z.to_nat c) HD Hn) as Hs.
  pose proof (binom_absorb_Z N n ltac:(lia) Hn) as Ab.
  pose proof (binom_pos (Z.to_nat N) (Z.to_nat n) ltac:(lia)) as P0.
  pose proof (binom_pos (Z.to_nat N) (Z.to_nat (n + 1)) ltac:(lia)) as P1.
  set (S1 := hsum N D (n + 1) (Z.to_nat c)) in *. set (S0 := hsum N D n (Z.to_nat c)) in *.
  set (d1 := binom (Z.to_nat N) (Z.to_nat (n + 1))) in *.
  set (d0 := binom (Z.to_nat N) (Z.to_nat n)) in *.
  assert (Hcross : S1 * d0 <= S0 * d1).
  { apply (Z.mul_le_mono_pos_l _ _ (n + 1)); [lia|].
    assert (H1 : (n + 1) * S1 * d0 <= (N - n) * S0 * d0) by (apply Z.mul_le_mono_nonneg_r; lia).
    assert (H2 : (N - n) * S0 * d0 = (n + 1) * (S0 * d1)).
    { replace ((N - n) * S0 * d0) with (S0 * ((N - n) * d0)) by ring. rewrite <- Ab. ring. }
    replace ((n + 1) * (S1 * d0)) with ((n + 1) * S1 * d0) by ring. lia. }
  pose proof (inject_pos _ P0) as Q0. pose proof (inject_pos _ P1) as Q1.
  apply Qle_shift_div_l; [exact Q0|].
  setoid_replace (inject_Z S1 / inject_Z d1 * inject_Z d0)%Q
    with (inject_Z S1 * inject_Z d0 / inject_Z d1)%Q by (field; lra).
  apply Qle_shift_div_r; [exact Q1|].
  rewrite <- !inject_Z_mult, <- Zle_Qle. exact Hcross.
Qed.

(** ** Monotonicity in the sample size *)

(** C2, as the code has it.  For a lot of at most [2^1023] units,
    [prob_zero_defects] on floats does not increase from [n] to [n + 1];
    [prob_aceptacion] does not increase either when read in exact
    arithmetic (its float result may, by a rounding error). *)
Theorem acceptance_non_increasing (N D n c : Z) :
  1 <= N <= two_1023 -> 0 <= D <= N -> 0 <= c -> 0 <= n -> n + 1 <= N ->
  (exists a b : float,
     prob_zero_defects N D (n + 1) = Ok a /\ prob_zero_defects N D n = Ok b /\
     fleb a b = true) /\
  (exists a b : Q,
     prob_aceptacion N D (n + 1) c = Ok a /\ prob_aceptacion N D n c = Ok b /\
     (a <= b)%Q).
Proof.
  intros HN HD Hc Hn Hn1. split.
  - destruct (Z.eq_dec D 0) as [->|ND].
    + exists f_one, f_one. unfold prob_zero_defects.
      destruct (Z.eqb_spec (n + 1) 0); [lia|]. cbn [Z.leb Z.compare].
      destruct (n =? 0); repeat split; reflexivity.
    + apply pzd_monotone; lia.
  - apply exact_prob_aceptacion_monotone; lia.
Qed.

Lemma acceptance_non_increasing_witness :
  (exists a b : float,
     prob_zero_defects 5 2 (1 + 1) = Ok a /\ prob_zero_defects 5 2 1 = Ok b /\
     fleb a b = true) /\
  (exists a b : Q,
     prob_aceptacion 5 2 (1 + 1) 1 = Ok a /\ prob_aceptacion 5 2 1 1 = Ok b /\
     (a <= b)%Q).
Proof. apply (acceptance_non_increasing 5 2 1 1); unfold two_1023; lia. Defined.

(** With [N = 4], [D = 2], [c = 2] the float sum is [1 - 2^-53] at [n = 2]
    and 1.0 at [n = 3]. *)
Lemma prob_aceptacion_rises :
  0 <= 2 <= 4 /\ 2 + 1 <= 4 /\
  prob_aceptacion (F := float) 4 2 (2 + 1) 2 = Ok f_one /\
  prob_aceptacion (F := float) 4 2 2 2 = Ok (S754_finite false 9007199254740991 (-53)) /\
  fleb f_one (S754_finite false 9007199254740991 (-53)) = false.
Proof. split; [lia|]. split; [lia|]. repeat split; vm_compute; reflexivity. Qed.

(** ** The closed form for [c = 0] *)

Lemma fadd_zero_quotient (a b : Z) (t : float) :
  0 < a -> 0 < b -> int_truediv a b = Ok t -> fadd f_zero t = t.
Proof.
  intros Ha Hb. unfold int_truediv.
  destruct (Z.eqb_spec b 0); [lia|]. destruct (Z.eqb_spec a 0); [lia|].
  rewrite (Zfin_pos a Ha), (Zfin_pos b Hb).
  destruct (SFdiv_valid false (Z.to_pos a) 0 false (Z.to_pos b) 0) as [E|[E|(m & e & E & _)]];
    rewrite E; cbn [xorb is_inf]; intros H; try discriminate; injection H as <-; reflexivity.
Qed.

Lemma prob_aceptacion_c0 (N D n : Z) :
  1 <= N -> 0 <= D <= N -> 0 <= n <= N -> Z.min n (N - n) <= llong_max ->
  prob_aceptacion (F := float) N D n 0
  = int_truediv (binom (Z.to_nat (N - D)) (Z.to_nat n)) (binom (Z.to_nat N) (Z.to_nat n)).
Proof.
  intros HN HD Hn Hm.
  pose proof (binom_pos (Z.to_nat N) (Z.to_nat n) ltac:(lia)) as Pd.
  destruct (Z_le_gt_dec n (N - D)) as [Hle|Hgt].
  - pose proof (binom_pos (Z.to_nat (N - D)) (Z.to_nat n) ltac:(lia)) as Pb.
    destruct (int_truediv_unit (binom (Z.to_nat (N - D)) (Z.to_nat n))
                (binom (Z.to_nat N) (Z.to_nat n))) as (t & Et & _); [|exact Pd|].
    { split; [lia|]. apply binom_top_mono. lia. }
    rewrite Et. rewrite <- (fadd_zero_quotient _ _ t Pb Pd Et).
    apply prob_aceptacion_first_term_only; [lia| |intros; lia|].
    + apply guard_true. lia.
    + rewrite !comb_ok by lia. cbn [bind]. change (Z.to_nat 0) with O.
      rewrite binom_0_r, Z.mul_1_l. exact Et.
  - rewrite prob_aceptacion_unfold. change (0 + 1) with 1.
    rewrite (range_cons 0 1), (range_empty (0 + 1) 1) by lia. cbn [foldM].
    replace (guard N D n 0) with false by (symmetry; apply guard_false; lia).
    cbn [bind]. rewrite (binom_gt (Z.to_nat (N - D))) by lia.
    unfold int_truediv. destruct (Z.eqb_spec (binom (Z.to_nat N) (Z.to_nat n)) 0); [lia|].
    cbn [Z.eqb]. destruct (Z.ltb_spec (binom (Z.to_nat N) (Z.to_nat n)) 0); [lia|]. reflexivity.
Qed.

(** C3, as the code has it.  As long as [min(n, N - n)] fits a C
    [long long], the limit of [math.comb], [prob_aceptacion(N, D, n, 0)] is
    the correctly rounded quotient [C(N-D, n) / C(N, n)].  In exact
    arithmetic [prob_aceptacion(N, D, n, 0)] and [prob_zero_defects(N, D, n)]
    are both equal to that quotient (on floats the product of rounded ratios
    may differ from it in the last bit). *)
Theorem zero_acceptance_closed_form (N D n : Z) :
  1 <= N -> 0 <= D <= N -> 0 <= n <= N ->
  (Z.min n (N - n) <= llong_max ->
   prob_aceptacion (F := float) N D n 0
   = int_truediv (binom (Z.to_nat (N - D)) (Z.to_nat n)) (binom (Z.to_nat N) (Z.to_nat n))) /\
  exists p q : Q,
    prob_aceptacion N D n 0 = Ok p /\ prob_zero_defects N D n = Ok q /\
    (p == inject_Z (binom (Z.to_nat (N - D)) (Z.to_nat n))
          / inject_Z (binom (Z.to_nat N) (Z.to_nat n)))%Q /\
    (q == p)%Q.
Proof.
  intros HN HD Hn. split; [intros Hm; apply prob_aceptacion_c0; assumption|].
  destruct (exact_sum N D n HD Hn O) as (p & Ep & Vp).
  destruct (exact_prob_zero_defects N D HD n Hn) as (q & Eq & Vq).
  exists p, q. split; [exact Ep|]. split; [exact Eq|].
  assert (Vp' : (p == inject_Z (binom (Z.to_nat (N - D)) (Z.to_nat n))
                      / inject_Z (binom (Z.to_nat N) (Z.to_nat n)))%Q).
  { rewrite Vp. cbn [hsum]. unfold hterm, bz. rewrite binom_0_r. change (Z.of_nat 0) with 0.
    rewrite Z.sub_0_r. destruct (Z.ltb_spec n 0); [lia|]. rewrite Z.mul_1_l. reflexivity. }
  split; [exact Vp'|]. rewrite Vq, Vp'. reflexivity.
Qed.

Lemma zero_acceptance_closed_form_witness :
  (Z.min 2 (5 - 2) <= llong_max ->
   prob_aceptacion (F := float) 5 1 2 0
   = int_truediv (binom (Z.to_nat (5 - 1)) (Z.to_nat 2)) (binom (Z.to_nat 5) (Z.to_nat 2))) /\
  exists p q : Q,
    prob_aceptacion 5 1 2 0 = Ok p /\ prob_zero_defects 5 1 2 = Ok q /\
    (p == inject_Z (binom (Z.to_nat (5 - 1)) (Z.to_nat 2))
          / inject_Z (binom (Z.to_nat 5) (Z.to_nat 2)))%Q /\
    (q == p)%Q.
Proof. apply (zero_acceptance_closed_form 5 1 2); lia. Defined.

(** With [N = 5], [D = 1], [n = 2] the closed form is 0.6 and the product
    [(4/5) * (3/4)] is 0.6000000000000001. *)
Lemma product_differs_from_closed_form :
  0 <= 1 <= 5 /\ 0 <= 2 <= 5 /\
  prob_aceptacion (F := float) 5 1 2 0 = Ok (S754_finite false 5404319552844595 (-53)) /\
  prob_zero_defects (F := float) 5 1 2 = Ok (S754_finite false 5404319552844596 (-53)) /\
  prob_aceptacion (F := float) 5 1 2 0 <> prob_zero_defects (F := float) 5 1 2.
Proof.
  split; [lia|]. split; [lia|]. split; [vm_compute; reflexivity|].
  split; [vm_compute; reflexivity|]. vm_compute. discriminate.
Qed.

(** ** The OC curves *)

Lemma foldM_append {A B : Type} (h : A -> result B) (l : list A) : forall acc,
  foldM (fun acc p => v <- h p ;; Ok (acc ++ [v])) l acc
  = (vs <- mapM h l ;; Ok (acc ++ vs)).
Proof.
  induction l as [|a l IH]; intros acc; cbn [foldM mapM bind].
  - rewrite app_nil_r. reflexivity.
  - destruct (h a) as [v|e]; cbn [bind]; [|reflexivity].
    rewrite IH. destruct (mapM h l) as [vs|e]; cbn [bind]; [|reflexivity].
    rewrite <- app_assoc. reflexivity.
Qed.

Lemma mapM_Forall2 {A B : Type} (h : A -> result B) (P : A -> Prop) (l : list A) :
  Forall P l -> (forall a, P a -> exists v, h a = Ok v) ->
  exists vs, mapM h l = Ok vs /\ Forall2 (fun a v => h a = Ok v) l vs.
Proof.
  intros Hl Hh. induction Hl as [|a l Pa Hl IH]; cbn [mapM].
  - exists []. split; [reflexivity|constructor].
  - destruct (Hh a Pa) as (v & Ev). destruct IH as (vs & Evs & F).
    rewrite Ev, Evs. cbn [bind]. exists (v :: vs). split; [reflexivity|].
    constructor; assumption.
Qed.

Lemma foldM_ext {A B : Type} (f g : A -> B -> result A) (l : list B) :
  (forall a b, f a b = g a b) -> forall a, foldM f l a = foldM g l a.
Proof.
  intros H. induction l as [|b l IH]; intros a; cbn [foldM]; [reflexivity|].
  rewrite H. destruct (g a b); cbn [bind]; auto.
Qed.

Lemma ordinate_step (eval : Z -> result float) (N : Z) (acc : list float) (p : float) :
  (x <- int_mul_float N p ;; D <- py_ceil x ;; P <- eval D ;; Ok (acc ++ [fmul P f_hundred]))
  = (v <- ordinate eval N p ;; Ok (acc ++ [v])).
Proof.
  unfold ordinate. destruct (int_mul_float N p) as [x|]; cbn [bind]; [|reflexivity].
  destruct (py_ceil x) as [D|]; cbn [bind]; [|reflexivity].
  destruct (eval D); reflexivity.
Qed.

Lemma curva_CO_unfold (N n c : Z) (p_max : float) (puntos : Z) :
  PlanC.curva_CO N n c p_max puntos
  = (p_vals <- linspace f_zero p_max puntos ;;
     Pa_vals <- mapM (ordinate (fun D => prob_aceptacion N D n c) N) p_vals ;;
     Ok (map (fun p => fmul p f_hundred) p_vals, Pa_vals)).
Proof.
  unfold PlanC.curva_CO. destruct (linspace f_zero p_max puntos) as [ps|e]; cbn [bind]; [|reflexivity].
  rewrite (foldM_ext _ _ ps (ordinate_step (fun D => prob_aceptacion N D n c) N)).
  rewrite foldM_append.
  destruct (mapM _ ps); reflexivity.
Qed.

Lemma curva_OC_unfold (N n : Z) (p_max : float) (puntos : Z) :
  PlanC0.curva_OC_hipergeometrica N n p_max puntos
  = (p_vals <- linspace f_zero p_max puntos ;;
     Pa <- mapM (ordinate (fun D => prob_zero_defects N D n) N) p_vals ;;
     Ok (map (fun p => fmul p f_hundred) p_vals, Pa)).
Proof.
  unfold PlanC0.curva_OC_hipergeometrica.
  destruct (linspace f_zero p_max puntos) as [ps|e]; cbn [bind]; [|reflexivity].
  rewrite (foldM_ext _ _ ps (ordinate_step (fun D => prob_zero_defects N D n) N)).
  rewrite foldM_append.
  destruct (mapM _ ps); reflexivity.
Qed.

(** The grid of [linspace], sample by sample. *)
Lemma linspace_grid (p_max : float) (puntos : Z) :
  2 <= puntos ->
  linspace f_zero p_max puntos = Ok (map (grid_point p_max puntos) (range 0 puntos)).
Proof.
  intros Hp. unfold linspace.
  destruct (Z.ltb_spec puntos 0); [lia|]. destruct (Z.ltb_spec 0 (puntos - 1)); [|lia].
  destruct (Z.ltb_spec 1 puntos); [|lia]. f_equal.
  set (step := fdiv (fsub p_max f_zero) (float_of_Z (puntos - 1))).
  set (f := fun i => fadd (if feqb step f_zero
                           then fmul (fdiv (float_of_Z i) (float_of_Z (puntos - 1))) (fsub p_max f_zero)
                           else fmul (float_of_Z i) step) f_zero).
  assert (E : map (fun yi => fadd yi f_zero)
                (if feqb step f_zero
                 then map (fun yi => fmul (fdiv yi (float_of_Z (puntos - 1))) (fsub p_max f_zero))
                        (map float_of_Z (range 0 puntos))
                 else map (fun yi => fmul yi step) (map float_of_Z (range 0 puntos)))
              = map f (range 0 puntos)).
  { unfold f. destruct (feqb step f_zero); rewrite !map_map; reflexivity. }
  rewrite E. rewrite (range_snoc 0 puntos) by lia. rewrite !map_app. cbn [map].
  rewrite removelast_last. f_equal.
  - apply map_ext_in. intros i Hi. apply range_In in Hi. unfold grid_point, f. fold step.
    destruct (Z.eqb_spec i (puntos - 1)); [lia|]. reflexivity.
  - unfold grid_point. rewrite Z.eqb_refl. reflexivity.
Qed.

Lemma pow2_representable (k : Z) :
  -1022 <= k <= 1023 ->
  representable (Z.to_pos M52) (k - 52) /\ (F2Q (Zpos (Z.to_pos M52)) (k - 52) == pow2 k)%Q.
Proof.
  intros Hk. split; [split; [|lia]|].
  - unfold canonical. rewrite fx_eq. change (dig (Zpos (Z.to_pos M52))) with 53. lia.
  - unfold F2Q. change (inject_Z (Zpos (Z.to_pos M52))) with (inject_Z M52).
    rewrite <- pow2_52, <- pow2_add. replace (52 + (k - 52)) with k by lia. reflexivity.
Qed.

Lemma float_of_Z_nonneg (i : Z) :
  0 <= i <= two_53 -> nonneg (float_of_Z i) /\ (B2Q (float_of_Z i) <= pow2 53)%Q.
Proof.
  intros Hi. destruct (Z.eq_dec i 0) as [->|Ni].
  - cbn. split; [exact I|]. pose proof (pow2_pos 53). lra.
  - destruct (pow2_representable 53 ltac:(lia)) as [R V].
    destruct (float_of_Z_pos i _ _ ltac:(lia) R) as (m & e & -> & Rm & _ & U).
    { rewrite V, pow2_Z by lia. rewrite <- Zle_Qle. exact (proj2 Hi). }
    cbn [nonneg B2Q]. split; [exact Rm|]. rewrite <- V. exact U.
Qed.

Lemma fdiv_nonneg_le (x y : float) (mb : positive) (eb : Z) :
  nonneg x -> nonneg y -> (0 < B2Q y)%Q -> representable mb eb ->
  (B2Q x <= F2Q (Zpos mb) eb * B2Q y)%Q ->
  nonneg (fdiv x y) /\ (B2Q (fdiv x y) <= F2Q (Zpos mb) eb)%Q.
Proof.
  pose proof (F2Q_pos mb eb) as Hb.
  destruct y as [s'|s'| |[|] my ey]; cbn [nonneg B2Q]; try tauto; try lra.
  destruct x as [s|s| |[|] mx ex]; cbn [nonneg B2Q]; try tauto; intros Hx Hy Py Rb Hv.
  - cbn. split; [exact I|lra].
  - unfold fdiv.
    destruct (SFdiv_le false mx ex false my ey mb eb Rb) as [->|(m & e & -> & R & V)].
    + apply Qle_shift_div_r; assumption.
    + cbn. split; [exact I|lra].
    + cbn [xorb nonneg B2Q]. split; assumption.
Qed.

Lemma fsub_zero_r (x : float) : nonneg x -> (0 < B2Q x)%Q -> fsub x f_zero = x.
Proof. destruct x as [s|s| |[|] m e]; cbn [nonneg B2Q]; try tauto; try lra; reflexivity. Qed.

Lemma fadd_zero_r (x : float) :
  nonneg x -> nonneg (fadd x f_zero) /\ (B2Q (fadd x f_zero) == B2Q x)%Q.
Proof.
  destruct x as [[|]|s| |[|] m e]; cbn [nonneg]; try tauto; intros H; cbn; split; auto; reflexivity.
Qed.

Lemma two_53_pow2 : (pow2 53 == inject_Z two_53)%Q.
Proof. reflexivity. Qed.

Section Grid.
Variables (p_max : float) (puntos : Z).
Hypothesis Np : nonneg p_max.
Hypothesis P0 : (0 < B2Q p_max)%Q.
Hypothesis P1 : (B2Q p_max <= inject_Z two_53)%Q.
Hypothesis Hp : 2 <= puntos <= two_53.

Lemma grid_point_bound (i : Z) :
  0 <= i < puntos ->
  nonneg (grid_point p_max puntos i) /\ (B2Q (grid_point p_max puntos i) <= pow2 106)%Q.
Proof.
  intros Hi. unfold grid_point.
  assert (L53 : (pow2 53 <= pow2 106)%Q) by (apply pow2_le; lia).
  pose proof two_53_pow2 as T.
  destruct (Z.eqb_spec i (puntos - 1)); [split; [exact Np|lra]|].
  rewrite (fsub_zero_r p_max Np P0).
  destruct (pow2_representable 53 ltac:(lia)) as [R53 V53].
  destruct (pow2_representable 106 ltac:(lia)) as [R106 V106].
  destruct (float_of_Z_pos (puntos - 1) _ _ ltac:(lia) R53) as (md & ed & Ed & Rd & Ld & Ud).
  { rewrite V53, T, <- Zle_Qle. lia. }
  rewrite Ed. set (fd := S754_finite false md ed).
  assert (Nd : nonneg fd) by exact Rd.
  assert (Bd : (1 <= B2Q fd)%Q) by exact Ld.
  destruct (float_of_Z_nonneg i ltac:(lia)) as [Ny By].
  pose proof (nonneg_B2Q _ Ny) as Y0.
  assert (Hstep : nonneg (fdiv p_max fd) /\ (B2Q (fdiv p_max fd) <= B2Q p_max)%Q).
  { destruct p_max as [s|s| |[|] mp ep] eqn:Epm; cbn [nonneg B2Q] in *; try tauto; try lra.
    apply (fdiv_nonneg_le (S754_finite false mp ep) fd mp ep); cbn [nonneg B2Q]; auto; try lra.
    pose proof (F2Q_pos mp ep). nra. }
  destruct Hstep as [Ns Bs]. pose proof (nonneg_B2Q _ Ns) as S0.
  assert (H : nonneg (if feqb (fdiv p_max fd) f_zero
                      then fmul (fdiv (float_of_Z i) fd) p_max
                      else fmul (float_of_Z i) (fdiv p_max fd)) /\
              (B2Q (if feqb (fdiv p_max fd) f_zero
                    then fmul (fdiv (float_of_Z i) fd) p_max
                    else fmul (float_of_Z i) (fdiv p_max fd)) <= pow2 106)%Q).
  { rewrite <- V106. destruct (feqb (fdiv p_max fd) f_zero).
    - destruct (fdiv_nonneg_le (float_of_Z i) fd _ _ Ny Nd ltac:(lra) R53) as [Na Ba].
      { rewrite V53. nra. }
      pose proof (nonneg_B2Q _ Na) as A0. rewrite V53 in Ba.
      apply fmul_nonneg_le; auto. rewrite V106.
      replace 106 with (53 + 53) by lia. rewrite pow2_add. nra.
    - apply fmul_nonneg_le; auto. rewrite V106.
      replace 106 with (53 + 53) by lia. rewrite pow2_add. nra. }
  destruct H as [Ng Bg]. destruct (fadd_zero_r _ Ng) as [Nr Br].
  split; [exact Nr|]. rewrite Br. exact Bg.
Qed.

Lemma grid_point_first : grid_point p_max puntos 0 = f_zero.
Proof.
  unfold grid_point. destruct (Z.eqb_spec 0 (puntos - 1)); [lia|].
  rewrite (fsub_zero_r p_max Np P0).
  destruct (pow2_representable 53 ltac:(lia)) as [R53 V53].
  destruct (float_of_Z_pos (puntos - 1) _ _ ltac:(lia) R53) as (md & ed & Ed & Rd & Ld & Ud).
  { rewrite V53, two_53_pow2, <- Zle_Qle. lia. }
  rewrite Ed. change (float_of_Z 0) with (S754_zero false).
  destruct p_max as [s|s| |[|] mp ep] eqn:Epm; cbn [nonneg B2Q] in *; try tauto; try lra.
  destruct (fdiv_nonneg_le (S754_finite false mp ep) (S754_finite false md ed) mp ep) as [Ns _];
    cbn [nonneg B2Q]; auto; try lra.
  { pose proof (F2Q_pos mp ep). nra. }
  destruct (fdiv (S754_finite false mp ep) (S754_finite false md ed)) as [[|]|s| |[|] m e];
    cbn [nonneg] in Ns; try tauto; reflexivity.
Qed.

Lemma grid_point_last : grid_point p_max puntos (puntos - 1) = p_max.
Proof. unfold grid_point. rewrite Z.eqb_refl. reflexivity. Qed.

End Grid.

Lemma ordinate_inv (eval : Z -> result float) (N : Z) (p v : float) :
  ordinate eval N p = Ok v ->
  exists x D P, int_mul_float N p = Ok x /\ py_ceil x = Ok D /\ eval D = Ok P /\
                v = fmul P f_hundred.
Proof.
  unfold ordinate. destruct (int_mul_float N p) as [x|] eqn:Ex; cbn [bind]; [|discriminate].
  destruct (py_ceil x) as [D|] eqn:ED; cbn [bind]; [|discriminate].
  destruct (eval D) as [P|] eqn:EP; cbn [bind]; [|discriminate].
  intros H. injection H as <-. exists x, D, P. auto.
Qed.

Lemma ordinate_total (eval : Z -> result float) (N : Z) (p : float) :
  1 <= N <= two_53 -> nonneg p -> (B2Q p <= pow2 106)%Q ->
  (forall D, 0 <= D <= two_1023 -> exists P, eval D = Ok P) ->
  exists v, ordinate eval N p = Ok v.
Proof.
  intros HN Np Bp Hev. unfold ordinate, int_mul_float.
  destruct (pow2_representable 53 ltac:(lia)) as [R53 V53].
  destruct (pow2_representable 159 ltac:(lia)) as [R159 V159].
  destruct (int_to_float_pos N _ _ ltac:(lia) R53) as (m & e & -> & R & L & U).
  { rewrite V53, two_53_pow2, <- Zle_Qle. lia. }
  cbn [bind]. pose proof (nonneg_B2Q p Np) as P0.
  destruct (fmul_nonneg_le (S754_finite false m e) p _ _ R Np R159) as [Nx Bx].
  { cbn [B2Q]. rewrite V159. replace 159 with (53 + 106) by lia. rewrite pow2_add.
    rewrite V53 in U. pose proof (F2Q_pos m e). nra. }
  destruct (py_ceil_finite _ (nonneg_finite _ Nx)) as (D & -> & D1 & D2). cbn [bind].
  pose proof (nonneg_B2Q _ Nx) as X0. rewrite V159 in Bx.
  assert (HD : 0 <= D <= two_1023).
  { split.
    - assert (H : (inject_Z 0 - 1 < inject_Z D)%Q) by (change (inject_Z 0) with 0%Q; lra).
      unfold Qminus in H. change (- (1))%Q with (inject_Z (-1)) in H.
      rewrite <- inject_Z_plus, <- Zlt_Qlt in H. lia.
    - assert (H : (inject_Z D - 1 < inject_Z (2 ^ 159))%Q) by (rewrite <- pow2_Z by lia; lra).
      unfold Qminus in H. change (- (1))%Q with (inject_Z (-1)) in H.
      rewrite <- inject_Z_plus, <- Zlt_Qlt in H.
      assert (2 ^ 159 < two_1023) by (unfold two_1023; apply Z.pow_lt_mono_r; lia). lia. }
  destruct (Hev D HD) as (P & ->). cbn [bind]. eexists; reflexivity.
Qed.

Lemma ordinate_zero (eval : Z -> result float) (N : Z) :
  1 <= N <= two_53 -> eval 0 = Ok f_one -> ordinate eval N f_zero = Ok f_hundred.
Proof.
  intros HN He. unfold ordinate, int_mul_float.
  destruct (pow2_representable 53 ltac:(lia)) as [R53 V53].
  destruct (int_to_float_pos N _ _ ltac:(lia) R53) as (m & e & -> & R & L & U).
  { rewrite V53, two_53_pow2, <- Zle_Qle. lia. }
  cbn. rewrite He. reflexivity.
Qed.

Lemma range_nth (lo hi : Z) (k : nat) (d : Z) :
  (k < Z.to_nat (hi - lo))%nat -> nth k (range lo hi) d = lo + Z.of_nat k.
Proof.
  intros Hk. unfold range.
  rewrite (nth_indep _ d (lo + Z.of_nat 0)) by (rewrite length_map, length_seq; exact Hk).
  rewrite (map_nth (fun k => lo + Z.of_nat k)), seq_nth by exact Hk. reflexivity.
Qed.

Lemma curve_ordinates (eval : Z -> result float) (N : Z) (p_max : float) (puntos : Z) :
  1 <= N <= two_53 ->
  nonneg p_max -> (0 < B2Q p_max)%Q -> (B2Q p_max <= inject_Z two_53)%Q ->
  2 <= puntos <= two_53 ->
  (forall D, 0 <= D <= two_1023 -> exists P, eval D = Ok P) ->
  eval 0 = Ok f_one ->
  exists vs,
    mapM (ordinate eval N) (map (grid_point p_max puntos) (range 0 puntos)) = Ok vs /\
    Forall2 (fun p v => exists x D P, int_mul_float N p = Ok x /\ py_ceil x = Ok D /\
                                      eval D = Ok P /\ v = fmul P f_hundred)
            (map (grid_point p_max puntos) (range 0 puntos)) vs /\
    hd f_zero vs = f_hundred.
Proof.
  intros HN Np P0 P1 Hp Hev He0.
  destruct (mapM_Forall2 (ordinate eval N) (fun p => nonneg p /\ (B2Q p <= pow2 106)%Q)
              (map (grid_point p_max puntos) (range 0 puntos))) as (vs & E & F).
  - apply Forall_forall. intros p Hin. apply in_map_iff in Hin. destruct Hin as (i & <- & Hi).
    apply range_In in Hi. apply grid_point_bound; assumption.
  - intros p [Npp Bp]. apply ordinate_total; assumption.
  - exists vs. split; [exact E|]. split.
    + eapply Forall2_impl; [|exact F]. intros p v H. apply ordinate_inv. exact H.
    + rewrite (range_cons 0 puntos) in F by lia. cbn [map] in F.
      inversion F as [|p v ps' vs' H0 _]; subst. cbn [hd].
      rewrite (grid_point_first p_max puntos Np P0 P1 Hp) in H0.
      rewrite (ordinate_zero eval N HN He0) in H0. injection H0 as <-. reflexivity.
Qed.

(** * Further properties of the plan computations *)

(** ** Integers up to [2^53] convert exactly *)

Lemma int_representable (z : Z) :
  0 < z <= two_53 ->
  exists m e, representable m e /\ (F2Q (Zpos m) e == inject_Z z)%Q.
Proof.
  intros Hz. destruct z as [|p|p]; try lia.
  destruct (Z_lt_le_dec (Zpos p) two_53) as [Hlt|Hge].
  - pose proof (dig_pos p) as Hd0.
    assert (Hd : dig (Zpos p) <= 53) by (apply dig_le; [lia|exact Hlt]).
    set (d := dig (Zpos p)) in *.
    assert (Hpos : 0 < Zpos p * 2 ^ (53 - d)) by (apply Z.mul_pos_pos; [lia|apply Z.pow_pos_nonneg; lia]).
    exists (Z.to_pos (Zpos p * 2 ^ (53 - d))), (d - 53).
    rewrite Z2Pos.id by exact Hpos. split.
    + split; [|lia]. unfold canonical. rewrite Z2Pos.id by exact Hpos.
      rewrite dig_shift by lia. fold d.
      rewrite fx_eq. lia.
    + rewrite <- (F2Q_int (Zpos p)). symmetry.
      rewrite (F2Q_shift (Zpos p) 0 (d - 53)) by lia.
      replace (0 - (d - 53)) with (53 - d) by lia. reflexivity.
  - assert (Zpos p = two_53) as -> by lia.
    destruct (pow2_representable 53 ltac:(lia)) as [R E].
    exists (Z.to_pos M52), (53 - 52). split; [exact R|].
    rewrite E. apply two_53_pow2.
Qed.

Lemma float_of_Z_exact (z : Z) :
  0 < z <= two_53 ->
  exists m e, float_of_Z z = S754_finite false m e /\ representable m e /\
              (F2Q (Zpos m) e == inject_Z z)%Q.
Proof.
  intros Hz. destruct (int_representable z Hz) as (m0 & e0 & [C0 E0] & V0).
  destruct z as [|p|p]; try lia.
  unfold float_of_Z. cbn [binary_normalize].
  destruct (binary_round_bounds false p 0) as (mz & ez & -> & Hin & Hsh).
  assert (Hm : 0 <= Zpos mz) by lia.
  assert (Hle : (F2Q (Zpos p) 0 <= F2Q (Zpos m0) e0)%Q) by (rewrite F2Q_int, V0; apply Qle_refl).
  assert (Hge : (F2Q (Zpos m0) e0 <= F2Q (Zpos p) 0)%Q) by (rewrite F2Q_int, V0; apply Qle_refl).
  destruct (bra_le false _ _ _ _ Hm Hin Hsh m0 e0 C0 E0 Hle) as [E|(m & e & E & C & Ee & V)];
  destruct (bra_ge false _ _ _ _ Hm Hin Hsh m0 e0 C0 Hge) as [E'|(m' & e' & E' & C' & Ee' & V')];
    rewrite E in E'; try discriminate.
  injection E' as <- <-. exists m, e. split; [exact E|]. split; [split; assumption|].
  rewrite <- V0. apply Qle_antisym; assumption.
Qed.

Lemma int_to_float_exact (z : Z) :
  0 < z <= two_53 ->
  exists m e, int_to_float z = Ok (S754_finite false m e) /\ representable m e /\
              (F2Q (Zpos m) e == inject_Z z)%Q.
Proof.
  intros Hz. destruct (float_of_Z_exact z Hz) as (m & e & E & R & V).
  exists m, e. unfold int_to_float. rewrite E. cbn [is_inf]. auto.
Qed.

Lemma two_53_le_two_1023 : two_53 <= two_1023.
Proof. unfold two_53, two_1023. apply Z.pow_le_mono_r; lia. Qed.

(** ** The limiting count [D = ceil(N * pL)] *)

Lemma lot_limit_within (N : Z) (pL : float) :
  1 <= N <= two_53 -> nonneg pL -> (0 < B2Q pL)%Q -> (B2Q pL <= 1)%Q ->
  exists x D, int_mul_float N pL = Ok x /\ py_ceil x = Ok D /\ 1 <= D <= N.
Proof.
  intros HN Np P0 P1. unfold int_mul_float.
  destruct (int_to_float_exact N ltac:(lia)) as (m & e & -> & R & V).
  cbn [bind].
  destruct pL as [s|s| |[|] mp ep]; cbn [nonneg B2Q] in *; try tauto; try lra.
  destruct (fmul_nonneg_le (S754_finite false m e) (S754_finite false mp ep) m e) as [Nx Bx];
    cbn [nonneg B2Q]; auto.
  { pose proof (F2Q_pos m e). nra. }
  destruct (fmul_nonneg_ge (S754_finite false m e) (S754_finite false mp ep) mp ep) as [Inf|(mx & ex & Ex & Rx & Lx)];
    cbn [nonneg B2Q]; auto; try apply Np.
  { pose proof (F2Q_pos mp ep).
    assert (1 <= F2Q (Zpos m) e)%Q.
    { rewrite V. change 1%Q with (inject_Z 1). rewrite <- Zle_Qle. lia. }
    nra. }
  { rewrite Inf in Nx. cbn [nonneg] in Nx. tauto. }
  rewrite Ex in *. cbn [B2Q] in Bx.
  destruct (py_ceil_finite (S754_finite false mx ex) Rx) as (D & ED & D1 & D2). cbn [B2Q] in *.
  eexists; exists D. split; [reflexivity|]. split; [exact ED|].
  pose proof (F2Q_pos mp ep).
  assert (H0 : (0 < inject_Z D)%Q) by lra.
  assert (H1 : (inject_Z D - 1 < inject_Z N)%Q) by (rewrite <- V; lra).
  change 0%Q with (inject_Z 0) in H0. rewrite <- Zlt_Qlt in H0.
  change 1%Q with (inject_Z 1) in H1. unfold Qminus in H1.
  rewrite <- inject_Z_opp, <- inject_Z_plus, <- Zlt_Qlt in H1. lia.
Qed.

(** ** [prob_zero_defects] stays in the unit interval *)

Lemma foldM_preserves {A B : Type} (f : A -> B -> result A) (P : A -> Prop) l :
  (forall a b a', In b l -> P a -> f a b = Ok a' -> P a') ->
  forall a a', P a -> foldM f l a = Ok a' -> P a'.
Proof.
  induction l as [|b l IH]; intros Hf a a' Pa E; cbn [foldM] in E.
  - injection E as <-. exact Pa.
  - destruct (f a b) as [a1|e] eqn:E1; cbn [bind] in E; [|discriminate].
    apply (IH (fun a b a' Hb => Hf a b a' (or_intror Hb)) a1 a'); [|exact E].
    apply (Hf a b a1); [left; reflexivity|exact Pa|exact E1].
Qed.

Lemma fmul_valid (x : float) (s : bool) (m : positive) (e : Z) :
  valid x -> representable m e -> valid (fmul x (S754_finite s m e)).
Proof.
  intros Vx [Cy Ey]. destruct x as [sx|sx| |sx mx ex]; cbn [valid] in Vx; try tauto;
    try exact I.
  destruct Vx as [Cx Ex]. unfold fmul. cbn [SFmul].
  assert (Hm : 0 <= Zpos (mx * m)) by lia.
  pose proof (inbetween_exact _ _ _ (F2Q_mul mx ex m e)) as Hin.
  pose proof (fmul_shift _ _ _ _ Cx Cy) as Hsh.
  destruct (bra_valid (xorb sx s) _ _ _ _ Hm Hin Hsh) as [->|[->|(m' & e' & -> & C & E)]];
    cbn [valid]; auto. split; assumption.
Qed.

(** A non-zero numerator over a denominator of at most [2^1023] gives a
    non-zero finite quotient whenever the division returns. *)
Lemma int_truediv_nonzero (a b : Z) (r : float) :
  a <> 0 -> 0 < b <= two_1023 -> int_truediv a b = Ok r ->
  exists s m e, r = S754_finite s m e /\ representable m e.
Proof.
  intros Ha Hb. unfold int_truediv.
  destruct (Z.eqb_spec b 0); [lia|]. destruct (Z.eqb_spec a 0); [lia|].
  rewrite (Zfin_nonzero a Ha), (Zfin_nonzero b ltac:(lia)).
  set (pa := Z.to_pos (Z.abs a)). set (pb := Z.to_pos (Z.abs b)).
  assert (Ea : Zpos pa = Z.abs a) by (unfold pa; rewrite Z2Pos.id; lia).
  assert (Eb : Zpos pb = b) by (unfold pb; rewrite Z2Pos.id; lia).
  assert (Hv : (F2Q (Zpos (Z.to_pos (2 ^ 51))) (-1074) <= F2Q (Zpos pa) 0 / F2Q (Zpos pb) 0)%Q).
  { rewrite !F2Q_int, Ea, Eb.
    assert (Pb : (0 < inject_Z b)%Q) by (change 0%Q with (inject_Z 0); rewrite <- Zlt_Qlt; lia).
    assert (Qb : (inject_Z b <= inject_Z two_1023)%Q) by (rewrite <- Zle_Qle; lia).
    assert (Qa : (1 <= inject_Z (Z.abs a))%Q) by (change 1%Q with (inject_Z 1); rewrite <- Zle_Qle; lia).
    apply Qle_shift_div_l; [exact Pb|]. pose proof F2Q_tiny as E.
    set (t := F2Q (Zpos (Z.to_pos (2 ^ 51))) (-1074)) in *.
    assert (0 < t)%Q by apply F2Q_pos. nra. }
  destruct (SFdiv_ge (a <? 0) pa 0 (b <? 0) pb 0 _ _ tiny_canonical Hv) as [->|(m & e & -> & R & V)];
    cbn [is_inf]; intros E; [discriminate|].
  injection E as <-. eauto.
Qed.

Lemma in_unit_nonneg (p : float) : nonneg p -> (B2Q p <= 1)%Q -> in_unit p.
Proof.
  intros Np Bp. split.
  - apply fleb_nonneg; [apply nonneg_zero|exact Np|]. cbn [B2Q f_zero]. apply nonneg_B2Q, Np.
  - apply fleb_nonneg; [exact Np|apply one_representable|]. rewrite B2Q_one. exact Bp.
Qed.

Lemma clamp_range (p : float) : valid p -> nonneg (clamp p) /\ (B2Q (clamp p) <= 1)%Q.
Proof.
  assert (U1 : nonneg f_one /\ (B2Q f_one <= 1)%Q).
  { split; [apply one_representable|rewrite B2Q_one; apply Qle_refl]. }
  assert (U0 : forall s, nonneg (S754_zero s) /\ (B2Q (S754_zero s) <= 1)%Q).
  { intros s. split; [exact I|cbn [B2Q]; lra]. }
  intros Vp. destruct p as [s|s| |s m e]; cbn [valid] in Vp; try tauto.
  - destruct s; apply U0.
  - destruct s; [apply (U0 false)|exact U1].
  - destruct s.
    + apply (U0 false).
    + assert (Np : nonneg (S754_finite false m e)) by exact Vp.
      assert (N1 : nonneg f_one) by apply one_representable.
      unfold clamp, py_max, py_min. cbn [ltb binary64].
      destruct (fltb f_one (S754_finite false m e)) eqn:E1.
      * exact U1.
      * assert (B1 : (B2Q (S754_finite false m e) <= 1)%Q).
        { destruct (Qlt_le_dec 1 (B2Q (S754_finite false m e))) as [L|L]; [|exact L].
          rewrite <- B2Q_one in L. apply (fltb_nonneg f_one _ N1 Np) in L. congruence. }
        change (fltb (S754_finite false m e) f_zero) with false. cbv iota.
        split; assumption.
Qed.

Lemma prob_zero_defects_range (N D n : Z) (p : float) :
  N <= two_1023 -> prob_zero_defects N D n = Ok p -> nonneg p /\ (B2Q p <= 1)%Q.
Proof.
  assert (U1 : nonneg f_one /\ (B2Q f_one <= 1)%Q).
  { split; [apply one_representable|rewrite B2Q_one; apply Qle_refl]. }
  assert (U0 : nonneg f_zero /\ (B2Q f_zero <= 1)%Q).
  { split; [exact I|cbn [B2Q f_zero]; lra]. }
  intros HN. unfold prob_zero_defects.
  destruct (Z.eqb_spec n 0); [intros E; injection E as <-; exact U1|].
  destruct (Z.leb_spec D 0); [intros E; injection E as <-; exact U1|].
  destruct (Z.gtb_spec n N) as [|Hn]; [intros E; injection E as <-; exact U0|].
  destruct (Z_le_gt_dec D N) as [HD|HD].
  - (* the lot holds the defectives: the product is already in [0, 1] *)
    destruct (Z_lt_le_dec n 0) as [Neg|Pos].
    + rewrite range_empty by lia. cbn [foldM bind]. intros E; injection E as <-. exact U1.
    + intros E.
      destruct (pzd_value N D ltac:(lia) ltac:(lia) n ltac:(lia)) as (q & Eq & _ & (Nq & Bq & _)).
      unfold prob_zero_defects in Eq.
      destruct (Z.eqb_spec n 0); [lia|]. destruct (Z.leb_spec D 0); [lia|].
      destruct (Z.gtb_spec n N); [lia|]. rewrite Eq in E. injection E as <-.
      split; assumption.
  - (* more defectives than units: every factor is negative and non-zero *)
    destruct (foldM (fun (p0 : float) i => r <- truediv (N - D - i) (N - i) ;; Ok (mul p0 r))
                (range 0 n) (one : float)) as [p0|e] eqn:E0; cbn [bind]; [|discriminate].
    intros E; injection E as <-. apply clamp_range.
    refine (foldM_preserves _ valid _ _ _ _ _ E0).
    + intros a i a' Hi Va. apply range_In in Hi. cbn [truediv mul binary64].
      destruct (int_truediv (N - D - i) (N - i)) as [r|] eqn:Er; cbn [bind]; [|discriminate].
      intros E; injection E as <-.
      destruct (int_truediv_nonzero (N - D - i) (N - i) r) as (s & m & e' & -> & R);
        [lia|lia|exact Er|].
      apply fmul_valid; assumption.
    + apply one_representable.
Qed.

(** X1.  Whatever the arguments, as long as [N] and [D] stay below [2^1023],
    [prob_zero_defects] returns, without exception, a float [p] with
    [0.0 <= p <= 1.0]: it is never NaN, never negative and never above one,
    also when [D] exceeds [N] and the factors of the product are negative. *)
Theorem prob_zero_defects_unit_interval (N D n : Z) :
  N <= two_1023 -> D <= two_1023 ->
  exists p : float, prob_zero_defects N D n = Ok p /\
                    fleb f_zero p = true /\ fleb p f_one = true.
Proof.
  intros HN HD. destruct (prob_zero_defects_total N D n HN HD) as (p & E).
  exists p. split; [exact E|].
  destruct (prob_zero_defects_range N D n p HN E) as [Np Bp].
  exact (in_unit_nonneg p Np Bp).
Qed.

Lemma prob_zero_defects_unit_interval_witness :
  exists p : float, prob_zero_defects 3 7 2 = Ok p /\
                    fleb f_zero p = true /\ fleb p f_one = true.
Proof. apply (prob_zero_defects_unit_interval 3 7 2); unfold two_1023; lia. Defined.

(** ** Sampling the whole lot *)

Lemma prob_aceptacion_whole_lot (N D c : Z) :
  1 <= N -> 0 <= D <= N ->
  prob_aceptacion (F := float) N D N c = Ok (if D <=? c then f_one else f_zero).
Proof.
  intros HN HD. rewrite prob_aceptacion_unfold.
  assert (HL : 0 <= llong_max) by (unfold llong_max; lia).
  assert (Gf : forall x, x <> D -> guard N D N x = false) by (intros x Hx; apply guard_false; lia).
  destruct (Z.leb_spec D c) as [Hc|Hc].
  - rewrite (range_split 0 D (c + 1)) by lia. rewrite foldM_app.
    rewrite foldM_id; [cbn [bind]|].
    2:{ intros x Hx. apply range_In in Hx. rewrite Gf by lia. reflexivity. }
    rewrite range_cons by lia. cbn [foldM].
    replace (guard N D N D) with true by (symmetry; apply guard_true; lia).
    rewrite !comb_ok by lia. cbn [bind]. rewrite !binom_diag.
    change (int_truediv (1 * 1) 1) with (Ok f_one). cbn [bind].
    change (fadd f_zero f_one) with f_one.
    apply foldM_id. intros x Hx. apply range_In in Hx. rewrite Gf by lia. reflexivity.
  - apply foldM_id. intros x Hx. apply range_In in Hx. rewrite Gf by lia. reflexivity.
Qed.

(** X2.  A sample that is the whole lot decides with certainty: with
    [0 <= D <= N], [prob_aceptacion N D N c] is exactly 1.0 when the lot's
    [D] defectives are within the acceptance number [c], and exactly 0.0
    when they are not.  Only the term [x = D] passes the guard, and it is
    [1 / 1]. *)
Theorem whole_lot_sample_decides (N D c : Z) :
  1 <= N -> 0 <= D <= N ->
  (D <= c -> prob_aceptacion (F := float) N D N c = Ok f_one) /\
  (c < D -> prob_aceptacion (F := float) N D N c = Ok f_zero).
Proof.
  intros HN HD. rewrite (prob_aceptacion_whole_lot N D c HN HD).
  destruct (Z.leb_spec D c); split; intros; try reflexivity; lia.
Qed.

Lemma whole_lot_sample_decides_witness :
  (3 <= 4 -> prob_aceptacion (F := float) 10 3 10 4 = Ok f_one) /\
  (4 < 3 -> prob_aceptacion (F := float) 10 3 10 4 = Ok f_zero).
Proof. apply (whole_lot_sample_decides 10 3 4); lia. Defined.

(** ** What the solvers return *)

Lemma fleb_zero_nonneg (beta : float) : nonneg beta -> fleb f_zero beta = true.
Proof.
  intros Nb. apply fleb_nonneg; [apply nonneg_zero|exact Nb|].
  cbn [B2Q f_zero]. apply nonneg_B2Q, Nb.
Qed.

Lemma fleb_zero_any (s : bool) (beta : float) : nonneg beta -> fleb (S754_zero s) beta = true.
Proof.
  intros Nb. apply fleb_nonneg; [apply nonneg_zero|exact Nb|].
  cbn [B2Q]. apply nonneg_B2Q, Nb.
Qed.

Lemma general_solver (N : Z) (pL beta : float) (c : Z) :
  1 <= N <= two_53 -> nonneg pL -> (0 < B2Q pL)%Q -> (B2Q pL <= 1)%Q -> nonneg beta ->
  exists n D Pa,
    PlanC.encontrar_n_hipergeometrica N pL beta c = Ok (n, D, Pa) /\
    1 <= n <= N /\ 1 <= D <= N /\ prob_aceptacion N D n c = Ok Pa /\
    (c < D -> fleb Pa beta = true) /\
    (fleb Pa beta = false -> n = N /\ D <= c /\ Pa = f_one).
Proof.
  intros HN Np P0 P1 Nb.
  destruct (lot_limit_within N pL HN Np P0 P1) as (x & D & Ex & ED & HD).
  destruct (solve_spec (fun D n => prob_aceptacion N D n c) N pL beta x D) as (n & Pa & E & Hn & Ev & Hit & _);
    try assumption; try lia.
  { intros n _. apply prob_aceptacion_total.
    pose proof llong_max_big. unfold two_53 in *. lia. }
  exists n, D, Pa. split; [exact E|]. split; [exact Hn|]. split; [exact HD|].
  cbn beta in Ev. split; [exact Ev|].
  assert (W : n = N -> Pa = if D <=? c then f_one else f_zero).
  { intros ->. rewrite prob_aceptacion_whole_lot in Ev by lia. injection Ev as <-. reflexivity. }
  split.
  - intros Hc. destruct Hit as [H|H]; [exact H|].
    rewrite (W H). destruct (Z.leb_spec D c); [lia|]. apply fleb_zero_nonneg, Nb.
  - intros Hf. destruct Hit as [H|H]; [congruence|].
    split; [exact H|]. pose proof (W H) as EP. destruct (Z.leb_spec D c).
    + split; [assumption|exact EP].
    + rewrite EP, (fleb_zero_nonneg beta Nb) in Hf. discriminate.
Qed.

(** X3.  What the general solver can return.  For a lot of at most [2^53]
    units, a float [pL] in (0, 1] and a non-negative float [beta], the
    solver returns without exception a sample size [n] in [1..N] and a
    limiting count [D] in [1..N].  If the acceptance number is below [D] the
    returned probability meets the risk bound, [Pa <= beta]; the bound is
    missed only by the full-inspection answer [n = N] with [D <= c], and
    then [Pa] is exactly 1.0. *)
Theorem general_solver_outcome (N : Z) (pL beta : float) (c : Z) :
  1 <= N <= two_53 -> nonneg pL -> (0 < B2Q pL)%Q -> (B2Q pL <= 1)%Q -> nonneg beta ->
  exists n D Pa,
    PlanC.encontrar_n_hipergeometrica N pL beta c = Ok (n, D, Pa) /\
    1 <= n <= N /\ 1 <= D <= N /\ prob_aceptacion N D n c = Ok Pa /\
    (c < D -> fleb Pa beta = true) /\
    (fleb Pa beta = false -> n = N /\ D <= c /\ Pa = f_one).
Proof. exact (general_solver N pL beta c). Qed.

Lemma general_solver_outcome_witness :
  exists n D Pa,
    PlanC.encontrar_n_hipergeometrica 5 f_half f_half 3 = Ok (n, D, Pa) /\
    1 <= n <= 5 /\ 1 <= D <= 5 /\ prob_aceptacion 5 D n 3 = Ok Pa /\
    (3 < D -> fleb Pa f_half = true) /\
    (fleb Pa f_half = false -> n = 5 /\ D <= 3 /\ Pa = f_one).
Proof.
  apply (general_solver_outcome 5 f_half f_half 3).
  - unfold two_53. lia.
  - split; [reflexivity|lia].
  - reflexivity.
  - unfold Qle. cbn. lia.
  - split; [reflexivity|lia].
Defined.

(** The running product never grows. *)
Lemma pzd_loop_antitone (N D : Z) :
  1 <= N <= two_1023 -> 1 <= D <= N ->
  forall d k, 0 <= k -> k + Z.of_nat d <= N ->
  exists a b, pzd_loop N D (k + Z.of_nat d) = Ok a /\ pzd_loop N D k = Ok b /\
              pzd_inv N D (k + Z.of_nat d) a /\ pzd_inv N D k b /\ (B2Q a <= B2Q b)%Q.
Proof.
  intros HN HD. induction d as [|d IH]; intros k Hk Hd.
  - destruct (pzd_loop_inv N D HN HD k ltac:(lia)) as (p & E & I).
    exists p, p. replace (k + Z.of_nat 0) with k by lia.
    repeat split; try assumption; try apply I. apply Qle_refl.
  - destruct (IH k Hk ltac:(lia)) as (a & b & Ea & Eb & Ia & Ib & Le).
    destruct (pzd_step_inv N D HN HD (k + Z.of_nat d) a ltac:(lia) Ia) as (a' & E' & I' & Le').
    exists a', b. replace (k + Z.of_nat (S d)) with (k + Z.of_nat d + 1) by lia.
    rewrite pzd_loop_succ, Ea by lia. cbn [bind].
    repeat split; try assumption; try apply I'; try apply Ib. lra.
Qed.

Lemma zero_solver (N : Z) (pL beta : float) :
  1 <= N <= two_53 -> nonneg pL -> (0 < B2Q pL)%Q -> (B2Q pL <= 1)%Q -> nonneg beta ->
  exists n D P0,
    PlanC0.encontrar_n_hipergeometrica N pL beta = Ok (n, D, P0) /\
    1 <= n <= N - D + 1 /\ 1 <= D <= N /\ prob_zero_defects N D n = Ok P0 /\
    fleb P0 beta = true /\
    (forall m, n <= m <= N ->
       exists Pm, prob_zero_defects N D m = Ok Pm /\ fleb Pm P0 = true /\ fleb Pm beta = true).
Proof.
  intros HN Np P0 P1 Nb.
  pose proof two_53_le_two_1023 as T.
  destruct (lot_limit_within N pL HN Np P0 P1) as (x & D & Ex & ED & HD).
  destruct (solve_spec (fun D n => prob_zero_defects N D n) N pL beta x D) as (n & P & E & Hn & Ev & Hit & Min);
    try assumption; try lia.
  { intros n _. apply prob_zero_defects_total; lia. }
  cbn beta in Ev, Min.
  assert (Z0 : forall m, N - D < m <= N -> exists Pm, prob_zero_defects N D m = Ok Pm /\ fleb Pm beta = true).
  { intros m Hm. destruct (pzd_value N D ltac:(lia) HD m ltac:(lia)) as (Pm & Em & _ & (_ & _ & Zm)).
    exists Pm. split; [exact Em|]. destruct (is_zero_true Pm (Zm ltac:(lia))) as (s & ->).
    apply fleb_zero_any, Nb. }
  assert (Hn' : n <= N - D + 1).
  { destruct (Z_le_gt_dec n (N - D + 1)) as [L|G]; [exact L|].
    destruct (Z0 (N - D + 1) ltac:(lia)) as (Pm & Em & Fm).
    destruct (Min (N - D + 1) ltac:(lia)) as (Pm' & Em' & Fm'). congruence. }
  assert (Hit' : fleb P beta = true).
  { destruct Hit as [H|H]; [exact H|]. subst n.
    destruct (Z0 N ltac:(lia)) as (Pm & Em & Fm). congruence. }
  exists n, D, P. split; [exact E|]. split; [lia|]. split; [exact HD|]. split; [exact Ev|].
  split; [exact Hit'|]. intros m Hm.
  destruct (pzd_loop_antitone N D ltac:(lia) HD (Z.to_nat (m - n)) n ltac:(lia) ltac:(lia))
    as (a & b & Ea & Eb & Ia & Ib & Le).
  replace (n + Z.of_nat (Z.to_nat (m - n))) with m in * by lia.
  destruct (pzd_value N D ltac:(lia) HD m ltac:(lia)) as (Pm & Em & Lm & _).
  destruct (pzd_value N D ltac:(lia) HD n ltac:(lia)) as (Pn & En & Ln & _).
  assert (Pm = a) by congruence. assert (Pn = b) by congruence. assert (P = b) by congruence.
  subst Pm Pn P. exists a. split; [exact Em|].
  destruct Ia as (Na & _), Ib as (Nb' & _).
  split; [apply fleb_nonneg; assumption|].
  apply fleb_nonneg; [exact Na|exact Nb|].
  apply (fleb_nonneg b beta Nb' Nb) in Hit'. lra.
Qed.

(** X4.  The zero-acceptance solver always meets the risk bound.  For a lot
    of at most [2^53] units, a float [pL] in (0, 1] and a non-negative float
    [beta], it returns without exception [n], [D] in [1..N] and a
    probability [P0 <= beta]; the sample size is at most [N - D + 1], and
    every larger sample within the lot has an acceptance probability that is
    no larger than [P0], hence within the bound as well. *)
Theorem zero_solver_meets_risk (N : Z) (pL beta : float) :
  1 <= N <= two_53 -> nonneg pL -> (0 < B2Q pL)%Q -> (B2Q pL <= 1)%Q -> nonneg beta ->
  exists n D P0,
    PlanC0.encontrar_n_hipergeometrica N pL beta = Ok (n, D, P0) /\
    1 <= n <= N - D + 1 /\ 1 <= D <= N /\ prob_zero_defects N D n = Ok P0 /\
    fleb P0 beta = true /\
    (forall m, n <= m <= N ->
       exists Pm, prob_zero_defects N D m = Ok Pm /\ fleb Pm P0 = true /\ fleb Pm beta = true).
Proof. exact (zero_solver N pL beta). Qed.

Lemma zero_solver_meets_risk_witness :
  exists n D P0,
    PlanC0.encontrar_n_hipergeometrica 5 f_half f_half = Ok (n, D, P0) /\
    1 <= n <= 5 - D + 1 /\ 1 <= D <= 5 /\ prob_zero_defects 5 D n = Ok P0 /\
    fleb P0 f_half = true /\
    (forall m, n <= m <= 5 ->
       exists Pm, prob_zero_defects 5 D m = Ok Pm /\ fleb Pm P0 = true /\ fleb Pm f_half = true).
Proof.
  apply (zero_solver_meets_risk 5 f_half f_half).
  - unfold two_53. lia.
  - split; [reflexivity|lia].
  - reflexivity.
  - unfold Qle. cbn. lia.
  - split; [reflexivity|lia].
Defined.

(** ** The AOQL estimate is a proportion *)

(** Every power of two from [2^-1074] to [2^1023] is a binary64 number. *)
Lemma pow2_rep (k : Z) :
  -1074 <= k <= 1023 ->
  exists m e, representable m e /\ (F2Q (Zpos m) e == pow2 k)%Q.
Proof.
  intros Hk. destruct (Z_lt_le_dec k (-1022)) as [Sub|Nor].
  - set (j := k + 1074).
    assert (Hp : 0 < 2 ^ j) by (apply Z.pow_pos_nonneg; lia).
    exists (Z.to_pos (2 ^ j)), (-1074). split; [split; [|lia]|].
    + unfold canonical. rewrite Z2Pos.id by exact Hp.
      assert (Hd : dig (2 ^ j) = j + 1).
      { rewrite <- (Z2Pos.id (2 ^ j)) by exact Hp. apply dig_unique; [|lia].
        rewrite Z2Pos.id by exact Hp. replace (j + 1 - 1) with j by lia.
        split; [lia|]. apply Z.pow_lt_mono_r; lia. }
      rewrite Hd, fx_eq. lia.
    + unfold F2Q. rewrite Z2Pos.id by exact Hp. rewrite <- (pow2_Z j) by lia.
      rewrite <- pow2_add. replace (j + -1074) with k by (unfold j; lia). reflexivity.
  - destruct (pow2_representable k ltac:(lia)) as [R V]. eauto.
Qed.

Lemma pow2_inv (k : Z) : (pow2 (- k) * pow2 k == 1)%Q.
Proof. rewrite <- pow2_add. replace (- k + k) with 0 by lia. reflexivity. Qed.

Lemma int_to_float_ge (z : Z) (mb : positive) (eb : Z) :
  0 < z <= two_1023 -> canonical (Zpos mb) eb -> (F2Q (Zpos mb) eb <= inject_Z z)%Q ->
  exists m e, int_to_float z = Ok (S754_finite false m e) /\ representable m e /\
              (F2Q (Zpos mb) eb <= F2Q (Zpos m) e)%Q /\ (F2Q (Zpos m) e <= inject_Z two_1023)%Q.
Proof.
  intros Hz Cb Hv. destruct z as [|p|p]; try lia.
  unfold int_to_float, float_of_Z. cbn [binary_normalize].
  destruct (binary_round_bounds false p 0) as (mz & ez & -> & Hin & Hsh).
  assert (Hm : 0 <= Zpos mz) by lia.
  assert (Hu : (F2Q (Zpos p) 0 <= F2Q (Zpos (Z.to_pos M52)) 971)%Q).
  { rewrite F2Q_int, two_1023_big, <- Zle_Qle. lia. }
  assert (Hl : (F2Q (Zpos mb) eb <= F2Q (Zpos p) 0)%Q) by (rewrite F2Q_int; exact Hv).
  destruct (bra_le false _ _ _ _ Hm Hin Hsh _ _ (proj1 big_representable) (proj2 big_representable) Hu)
    as [E|(m & e & E & C & Ee & V)];
  destruct (bra_ge false _ _ _ _ Hm Hin Hsh mb eb Cb Hl) as [E'|(m' & e' & E' & C' & Ee' & V')];
    rewrite E in E'; try discriminate.
  injection E' as <- <-. exists m, e. rewrite E. cbn [is_inf].
  split; [reflexivity|]. split; [split; assumption|]. split; [exact V'|].
  rewrite <- two_1023_big. exact V.
Qed.

Lemma fdiv_pos_ge (mx : positive) (ex : Z) (my : positive) (ey : Z) (mb : positive) (eb : Z) :
  canonical (Zpos mb) eb ->
  (F2Q (Zpos mb) eb * F2Q (Zpos my) ey <= F2Q (Zpos mx) ex)%Q ->
  fdiv (S754_finite false mx ex) (S754_finite false my ey) = S754_infinity false \/
  exists m e, fdiv (S754_finite false mx ex) (S754_finite false my ey) = S754_finite false m e /\
              representable m e /\ (F2Q (Zpos mb) eb <= F2Q (Zpos m) e)%Q.
Proof.
  intros Cb Hv. unfold fdiv.
  destruct (SFdiv_ge false mx ex false my ey mb eb Cb) as [->|(m & e & -> & R & V)].
  - apply Qle_shift_div_l; [apply F2Q_pos|exact Hv].
  - left. reflexivity.
  - right. exists m, e. auto.
Qed.

Lemma lit_0_3679_bounds :
  nonneg lit_0_3679 /\ (pow2 (-2) <= B2Q lit_0_3679)%Q /\ (B2Q lit_0_3679 <= pow2 (-1))%Q.
Proof.
  split; [split; [reflexivity|unfold lit_0_3679; lia]|].
  split; vm_compute; discriminate.
Qed.

Lemma aoql_range (N n : Z) :
  1 <= N <= two_1023 -> 1 <= n <= N ->
  exists f a, int_truediv n N = Ok f /\ nonneg f /\ (0 < B2Q f)%Q /\ (B2Q f <= 1)%Q /\
    PlanC0.aoql_aproximado N n = Ok a /\ PlanC.aoql_aprox N n = Ok a /\
    nonneg a /\ (0 < B2Q a)%Q /\ (B2Q a <= 1)%Q.
Proof.
  intros HN Hn. destruct N as [|p|p]; try lia.
  pose proof (dig_Z p) as Hd. pose proof (dig_pos p) as Hd0.
  set (k := dig (Zpos p)) in *.
  assert (Hk : k <= 1024).
  { apply dig_le; [lia|]. unfold two_1023 in HN.
    replace (2 ^ 1024) with (2 * 2 ^ 1023) by (rewrite <- Z.pow_succ_r; [reflexivity|lia]). lia. }
  assert (PN : (0 < inject_Z (Zpos p))%Q) by (change 0%Q with (inject_Z 0); rewrite <- Zlt_Qlt; lia).
  assert (Qn : (1 <= inject_Z n)%Q) by (change 1%Q with (inject_Z 1); rewrite <- Zle_Qle; lia).
  assert (QNu : (inject_Z (Zpos p) <= pow2 k)%Q) by (rewrite pow2_Z by lia; rewrite <- Zle_Qle; lia).
  assert (QNl : (pow2 (k - 1) <= inject_Z (Zpos p))%Q) by (rewrite pow2_Z by lia; rewrite <- Zle_Qle; lia).
  pose proof (pow2_inv k) as Inv. pose proof (pow2_pos k) as Pk. pose proof (pow2_pos (- k)) as Pk'.
  pose proof (pow2_pos (k - 1)) as Pk1.
  assert (Half : (pow2 (k - 1) * pow2 (- k) == pow2 (-1))%Q).
  { rewrite <- pow2_add. replace (k - 1 + - k) with (-1) by lia. reflexivity. }
  (* the inspected fraction *)
  destruct (pow2_rep (- k) ltac:(lia)) as (m1 & e1 & R1 & V1).
  destruct (int_truediv_unit n (Zpos p) ltac:(lia) ltac:(lia)) as (f & Ef & Nf & Bf).
  destruct (int_truediv_ge n (Zpos p) m1 e1 ltac:(lia) ltac:(lia) (proj1 R1)) as [Ov|(mf & ef & Ef' & Rf & Lf)].
  { rewrite V1. apply Qle_shift_div_l; [exact PN|]. nra. }
  { rewrite Ef in Ov. discriminate. }
  rewrite Ef in Ef'. injection Ef' as ->. cbn [B2Q] in Bf. rewrite V1 in Lf.
  (* the lot size as a float *)
  destruct (pow2_rep (k - 1) ltac:(lia)) as (m2 & e2 & R2 & V2).
  destruct (int_to_float_ge (Zpos p) m2 e2 ltac:(lia) (proj1 R2)) as (mN & eN & EN & RN & LN & UN).
  { rewrite V2. exact QNl. }
  rewrite V2 in LN.
  (* their product *)
  pose proof (F2Q_pos mf ef) as Pf. pose proof (F2Q_pos mN eN) as PNf.
  destruct (fmul_nonneg_le (S754_finite false mN eN) (S754_finite false mf ef) _ _ RN Rf big_representable)
    as [Ny By].
  { cbn [B2Q]. rewrite two_1023_big. nra. }
  destruct (pow2_rep (-1) ltac:(lia)) as (m3 & e3 & R3 & V3).
  destruct (fmul_nonneg_ge (S754_finite false mN eN) (S754_finite false mf ef) m3 e3 RN Rf (proj1 R3))
    as [Inf|(my & ey & Ey & Ry & Ly)].
  { cbn [B2Q]. rewrite V3, <- Half. nra. }
  { rewrite Inf in Ny. cbn [nonneg] in Ny. tauto. }
  rewrite Ey in By. cbn [B2Q] in By. rewrite V3 in Ly. rewrite two_1023_big in By.
  (* the quotient *)
  destruct lit_0_3679_bounds as (NL & LL & UL).
  pose proof (F2Q_pos my ey) as Py.
  destruct (fdiv_nonneg_le lit_0_3679 (S754_finite false my ey) _ _ NL Ry Py one_representable)
    as [Na Ba].
  { cbn [B2Q]. rewrite F2Q_one. lra. }
  rewrite F2Q_one in Ba.
  destruct (pow2_rep (-1025) ltac:(lia)) as (m4 & e4 & R4 & V4).
  assert (Tiny : (pow2 (-1025) * inject_Z two_1023 == pow2 (-2))%Q).
  { unfold two_1023. rewrite <- (pow2_Z 1023) by lia. rewrite <- pow2_add. reflexivity. }
  pose proof (pow2_pos (-1025)) as Pt.
  assert (Pos : (0 < B2Q (fdiv lit_0_3679 (S754_finite false my ey)))%Q).
  { unfold lit_0_3679 in *. cbn [B2Q] in LL.
    match goal with |- context [fdiv (S754_finite false ?ml ?el) _] =>
      destruct (fdiv_pos_ge ml el my ey m4 e4 (proj1 R4)) as [Inf|(ma & ea & Ea & Ra & La)]
    end.
    - rewrite V4. nra.
    - rewrite Inf in Na. cbn [nonneg] in Na. tauto.
    - rewrite Ea. cbn [B2Q]. apply F2Q_pos. }
  exists (S754_finite false mf ef), (fdiv lit_0_3679 (S754_finite false my ey)).
  split; [exact Ef|]. split; [exact Rf|]. split; [exact Pf|]. split; [exact Bf|].
  unfold PlanC0.aoql_aproximado, PlanC.aoql_aprox.
  cbn [Z.gtb Z.compare]. rewrite Ef. cbn [bind].
  change (fltb f_zero (S754_finite false mf ef)) with true. cbv iota.
  unfold int_mul_float. rewrite EN. cbn [bind]. rewrite Ey.
  unfold float_truediv. cbn [is_zero]. repeat split; assumption.
Qed.

(** X5.  For a real plan, [1 <= n <= N <= 2^1023], the two AOQL estimators
    return the same float, without exception, and that float is a proper
    proportion: strictly positive and at most 1.0 (hence neither NaN nor
    infinite). *)
Theorem aoql_is_a_proportion (N n : Z) :
  1 <= N <= two_1023 -> 1 <= n <= N ->
  exists a, PlanC0.aoql_aproximado N n = Ok a /\ PlanC.aoql_aprox N n = Ok a /\
            fltb f_zero a = true /\ fleb a f_one = true.
Proof.
  intros HN Hn.
  destruct (aoql_range N n HN Hn) as (f & a & _ & _ & _ & _ & E0 & E1 & Na & Pa & Ba).
  exists a. split; [exact E0|]. split; [exact E1|]. split.
  - apply fltb_nonneg; [apply nonneg_zero|exact Na|exact Pa].
  - apply fleb_nonneg; [exact Na|apply one_representable|]. rewrite B2Q_one. exact Ba.
Qed.

Lemma aoql_is_a_proportion_witness :
  exists a, PlanC0.aoql_aproximado 600 80 = Ok a /\ PlanC.aoql_aprox 600 80 = Ok a /\
            fltb f_zero a = true /\ fleb a f_one = true.
Proof. apply (aoql_is_a_proportion 600 80); unfold two_1023; lia. Defined.

(** X6.  The two estimators differ only on a lot that is not positive:
    [aoql_aproximado] guards the division and returns NaN for every
    [N <= 0], while [aoql_aprox] divides first and raises
    [ZeroDivisionError] at [N = 0]. *)
Theorem aoql_empty_lot (N n : Z) :
  N <= 0 ->
  PlanC0.aoql_aproximado N n = Ok f_nan /\
  (N = 0 -> PlanC.aoql_aprox N n = Raise ZeroDivisionError).
Proof.
  intros HN. unfold PlanC0.aoql_aproximado, PlanC.aoql_aprox. split.
  - destruct (Z.gtb_spec N 0); [lia|]. reflexivity.
  - intros ->. reflexivity.
Qed.

Lemma aoql_empty_lot_witness :
  PlanC0.aoql_aproximado 0 3 = Ok f_nan /\
  (0 = 0 -> PlanC.aoql_aprox 0 3 = Raise ZeroDivisionError).
Proof. apply (aoql_empty_lot 0 3). lia. Defined.

(** ** The ordinates of the zero-acceptance curve are percentages *)

Lemma Forall2_right {A B : Type} (R : A -> B -> Prop) (Q : B -> Prop) (l : list A) (vs : list B) :
  Forall2 R l vs -> (forall a v, R a v -> Q v) -> Forall Q vs.
Proof. intros F H. induction F; constructor; eauto. Qed.

Lemma hundred_representable : nonneg f_hundred /\ (B2Q f_hundred == 100)%Q.
Proof. split; [split; [reflexivity|unfold f_hundred; lia]|reflexivity]. Qed.

Lemma fmul_hundred (P : float) :
  nonneg P -> (B2Q P <= 1)%Q ->
  nonneg (fmul P f_hundred) /\ (B2Q (fmul P f_hundred) <= 100)%Q.
Proof.
  intros NP BP. destruct hundred_representable as [N100 V100].
  pose proof (nonneg_B2Q P NP) as P0.
  unfold f_hundred in *. cbn [nonneg B2Q] in N100, V100.
  match type of N100 with representable ?m ?e =>
    destruct (fmul_nonneg_le P (S754_finite false m e) m e NP N100 N100) as [N B]
  end.
  - cbn [B2Q]. rewrite V100. nra.
  - split; [exact N|]. rewrite <- V100. exact B.
Qed.

Lemma percent_range (v : float) :
  nonneg v -> (B2Q v <= 100)%Q -> fleb f_zero v = true /\ fleb v f_hundred = true.
Proof.
  intros Nv Bv. destruct hundred_representable as [N100 V100]. split.
  - apply fleb_nonneg; [apply nonneg_zero|exact Nv|]. cbn [B2Q f_zero]. apply nonneg_B2Q, Nv.
  - apply fleb_nonneg; [exact Nv|exact N100|]. rewrite V100. exact Bv.
Qed.

Lemma curve_c0 (N n : Z) (p_max : float) (puntos : Z) :
  1 <= N <= two_53 ->
  nonneg p_max -> (0 < B2Q p_max)%Q -> (B2Q p_max <= inject_Z two_53)%Q ->
  2 <= puntos <= two_53 ->
  exists Pa,
    PlanC0.curva_OC_hipergeometrica N n p_max puntos
      = Ok (map (fun p => fmul p f_hundred) (map (grid_point p_max puntos) (range 0 puntos)), Pa) /\
    length Pa = Z.to_nat puntos /\ hd f_zero Pa = f_hundred /\
    Forall (fun v => nonneg v /\ (B2Q v <= 100)%Q) Pa.
Proof.
  intros HN Np P0 P1 Hp. pose proof two_53_le_two_1023 as T.
  rewrite curva_OC_unfold, linspace_grid by lia. cbn [bind].
  destruct (curve_ordinates (fun D => prob_zero_defects N D n) N p_max puntos) as (vs & E & F & H);
    try assumption.
  - intros D HD. apply prob_zero_defects_total; lia.
  - apply prob_zero_defects_certain. lia.
  - rewrite E. cbn [bind]. exists vs. split; [reflexivity|]. split; [|split; [exact H|]].
    + rewrite <- (Forall2_length F), length_map, range_length. f_equal. lia.
    + apply (Forall2_right _ _ _ _ F). intros p v (x & D & P & _ & _ & EP & ->).
      destruct (prob_zero_defects_range N D n P ltac:(lia) EP) as [NP BP].
      apply fmul_hundred; assumption.
Qed.

(** X7.  The curve of the zero-acceptance plan is a curve of percentages.
    For [N], [puntos] and [p_max] up to [2^53] and any sample size [n],
    [curva_OC_hipergeometrica] returns, without exception, [puntos]
    ordinates, each a float between 0.0 and 100.0; this holds also for the
    abscissas beyond 100 %, where [D] exceeds [N]. *)
Theorem oc_curve_percentages (N n : Z) (p_max : float) (puntos : Z) :
  1 <= N <= two_53 ->
  nonneg p_max -> (0 < B2Q p_max)%Q -> (B2Q p_max <= inject_Z two_53)%Q ->
  2 <= puntos <= two_53 ->
  exists p_vals Pa,
    PlanC0.curva_OC_hipergeometrica N n p_max puntos = Ok (p_vals, Pa) /\
    length Pa = Z.to_nat puntos /\
    Forall (fun v => fleb f_zero v = true /\ fleb v f_hundred = true) Pa.
Proof.
  intros HN Np P0 P1 Hp.
  destruct (curve_c0 N n p_max puntos HN Np P0 P1 Hp) as (Pa & E & L & _ & F).
  eexists; exists Pa. split; [exact E|]. split; [exact L|].
  eapply Forall_impl; [|exact F]. intros v [Nv Bv]. apply percent_range; assumption.
Qed.

Lemma oc_curve_percentages_witness :
  exists p_vals Pa,
    PlanC0.curva_OC_hipergeometrica 10 2 f_three 3 = Ok (p_vals, Pa) /\
    length Pa = Z.to_nat 3 /\
    Forall (fun v => fleb f_zero v = true /\ fleb v f_hundred = true) Pa.
Proof.
  apply (oc_curve_percentages 10 2 f_three 3).
  - unfold two_53. lia.
  - split; [reflexivity|unfold f_three; lia].
  - reflexivity.
  - unfold Qle. vm_compute. discriminate.
  - unfold two_53. lia.
Defined.

(** ** [prob_aceptacion] is a non-negative finite number *)

Lemma fadd_nonneg_le (x y : float) (mb : positive) (eb : Z) :
  nonneg x -> nonneg y -> representable mb eb ->
  (B2Q x + B2Q y <= F2Q (Zpos mb) eb)%Q ->
  nonneg (fadd x y) /\ (B2Q (fadd x y) <= F2Q (Zpos mb) eb)%Q.
Proof.
  pose proof (F2Q_pos mb eb) as Hb.
  destruct x as [s|s| |[|] mx ex]; cbn [nonneg]; try tauto;
  destruct y as [s'|s'| |[|] my ey]; cbn [nonneg]; try tauto; intros Hx Hy [Cb Eb] Hv.
  - destruct s, s'; cbn; split; try exact I; lra.
  - cbn [B2Q] in Hv. cbn. split; [exact Hy|]. cbn [B2Q]. lra.
  - cbn [B2Q] in Hv. cbn. split; [exact Hx|]. cbn [B2Q]. lra.
  - cbn [B2Q] in Hv. unfold fadd. cbn [SFadd cond_Zopp].
    set (ez := Z.min ex ey).
    pose proof (shl_align_spec mx ex ez) as Sx. pose proof (shl_align_spec my ey ez) as Sy.
    destruct (shl_align mx ex ez) as [mx' ex'], (shl_align my ey ez) as [my' ey'].
    cbn [fst]. destruct Sx as (_ & Ex & Ax), Sy as (_ & Ey & Ay).
    assert (ex' = ez) by (unfold ez in *; lia). assert (ey' = ez) by (unfold ez in *; lia).
    subst ex' ey'. cbn [Z.add binary_normalize].
    destruct (binary_round_bounds false (mx' + my') ez) as (mz & ez' & -> & Hin & Hsh).
    assert (Hm : 0 <= Zpos mz) by lia.
    assert (Hs : (F2Q (Zpos (mx' + my')) ez == F2Q (Zpos mx) ex + F2Q (Zpos my) ey)%Q).
    { rewrite (F2Q_shift (Zpos mx) ex ez), (F2Q_shift (Zpos my) ey ez) by (unfold ez; lia).
      rewrite <- Ex, <- Ey. unfold F2Q. rewrite Pos2Z.inj_add, inject_Z_plus. ring. }
    assert (Hv' : (F2Q (Zpos (mx' + my')) ez <= F2Q (Zpos mb) eb)%Q) by (rewrite Hs; exact Hv).
    destruct (bra_le false _ _ _ _ Hm Hin Hsh mb eb Cb Eb Hv') as [->|(m & e & -> & C & E & V)].
    + cbn. split; [exact I|lra].
    + cbn. split; [split; assumption|exact V].
Qed.

Lemma bind_ret {A : Type} (r : result A) : (a <- r ;; Ok a) = r.
Proof. destruct r; reflexivity. Qed.

Lemma prob_aceptacion_succ (N D n c : Z) :
  0 <= c ->
  prob_aceptacion (F := float) N D n (c + 1)
  = (Pa <- prob_aceptacion (F := float) N D n c ;;
     if guard N D n (c + 1) then
       a <- comb D (c + 1) ;; b <- comb (N - D) (n - (c + 1)) ;; d <- comb N n ;;
       t <- int_truediv (a * b) d ;; Ok (fadd Pa t)
     else Ok Pa).
Proof.
  intros Hc. rewrite !prob_aceptacion_unfold.
  rewrite (range_snoc 0 (c + 1 + 1)) by lia. replace (c + 1 + 1 - 1) with (c + 1) by lia.
  rewrite foldM_app.
  destruct (foldM _ (range 0 (c + 1)) f_zero) as [Pa|e]; cbn [bind foldM]; [|reflexivity].
  apply bind_ret.
Qed.

Lemma prob_aceptacion_step (N D n x : Z) (Pa : float) (k : Z) :
  Z.min n (N - n) <= llong_max ->
  0 <= k -> k + 1 <= two_53 -> nonneg Pa -> (B2Q Pa <= inject_Z k)%Q ->
  exists Pa',
    (if guard N D n x then
       a <- comb D x ;; b <- comb (N - D) (n - x) ;; d <- comb N n ;;
       t <- int_truediv (a * b) d ;; Ok (fadd Pa t)
     else Ok Pa) = Ok Pa' /\ nonneg Pa' /\ (B2Q Pa' <= inject_Z (k + 1))%Q.
Proof.
  intros Hm Hk Hk' NP BP.
  assert (Le : (inject_Z k <= inject_Z (k + 1))%Q) by (rewrite <- Zle_Qle; lia).
  destruct (guard N D n x) eqn:G.
  - destruct (term_ok N D n x Hm G) as (a & b & d & t & Ea & Eb & Ed & _ & _ & Et & Nt & Bt).
    rewrite Ea, Eb, Ed. cbn [bind]. rewrite Et. cbn [bind]. eexists. split; [reflexivity|].
    destruct (int_representable (k + 1) ltac:(lia)) as (m & e & R & V).
    rewrite <- V. apply fadd_nonneg_le; try assumption.
    rewrite V, inject_Z_plus. change (inject_Z 1) with 1%Q. lra.
  - exists Pa. split; [reflexivity|]. split; [exact NP|lra].
Qed.

Lemma prob_aceptacion_bounded (N D n c : Z) :
  Z.min n (N - n) <= llong_max -> 0 <= c < two_53 ->
  exists Pa : float, prob_aceptacion N D n c = Ok Pa /\ nonneg Pa /\
                     (B2Q Pa <= inject_Z (c + 1))%Q.
Proof.
  intros Hm [Hc0 Hc]. revert Hc. pattern c. apply natlike_ind; [| |exact Hc0].
  - intros _. rewrite prob_aceptacion_unfold. change (range 0 (0 + 1)) with [0]. cbn [foldM].
    destruct (prob_aceptacion_step N D n 0 f_zero 0) as (Pa & E & NP & BP);
      [exact Hm|lia|unfold two_53; lia|exact I|unfold Qle; cbn; lia|].
    rewrite E. cbn [bind]. exists Pa. auto.
  - intros x Hx IH Hc. destruct (IH ltac:(lia)) as (Pa & E & NP & BP).
    change (Z.succ x) with (x + 1). rewrite prob_aceptacion_succ, E by lia. cbn [bind].
    destruct (prob_aceptacion_step N D n (x + 1) Pa (x + 1)) as (Pa' & E' & NP' & BP');
      [exact Hm|lia|lia|exact NP|exact BP|].
    exists Pa'. auto.
Qed.

(** X8.  Although rounding can push [prob_aceptacion] above 1.0, it is
    a non-negative finite number whenever it returns: for [0 <= c < 2^53]
    and any [N], [D], [n] with [min(n, N - n)] within a C [long long], the
    limit of [math.comb], the result [Pa] satisfies
    [0.0 <= Pa <= float(c + 1)], one unit per term of the sum, so it is
    never NaN, negative or infinite. *)
Theorem prob_aceptacion_nonneg_finite (N D n c : Z) :
  Z.min n (N - n) <= llong_max -> 0 <= c < two_53 ->
  exists Pa : float, prob_aceptacion N D n c = Ok Pa /\
                     fleb f_zero Pa = true /\ fleb Pa (float_of_Z (c + 1)) = true.
Proof.
  intros Hm Hc. destruct (prob_aceptacion_bounded N D n c Hm Hc) as (Pa & E & NP & BP).
  exists Pa. split; [exact E|]. split.
  - apply fleb_nonneg; [apply nonneg_zero|exact NP|]. cbn [B2Q f_zero]. apply nonneg_B2Q, NP.
  - destruct (float_of_Z_exact (c + 1) ltac:(lia)) as (m & e & -> & R & V).
    apply fleb_nonneg; [exact NP|exact R|]. cbn [B2Q]. rewrite V. exact BP.
Qed.

Lemma prob_aceptacion_nonneg_finite_witness :
  exists Pa : float, prob_aceptacion 12 5 7 5 = Ok Pa /\
                     fleb f_zero Pa = true /\ fleb Pa (float_of_Z (5 + 1)) = true.
Proof.
  apply (prob_aceptacion_nonneg_finite 12 5 7 5).
  - unfold llong_max. lia.
  - unfold two_53. lia.
Defined.

(** ** In exact arithmetic [prob_aceptacion] is a probability *)

Lemma hsum_vsum (N D n : Z) (c : nat) : hsum N D n c = vsum (Z.to_nat D) (N - D) n c.
Proof.
  induction c as [|c IH]; cbn [hsum vsum]; unfold hterm.
  - change (Z.of_nat 0) with 0. rewrite Z.sub_0_r. reflexivity.
  - rewrite IH. reflexivity.
Qed.

Lemma vsum_nonneg (d : nat) (M n : Z) (c : nat) : 0 <= vsum d M n c.
Proof.
  induction c as [|c IH]; cbn [vsum].
  - apply Z.mul_nonneg_nonneg; [apply binom_nonneg|apply bz_nonneg].
  - pose proof (binom_nonneg d (S c)). pose proof (bz_nonneg M (n - Z.of_nat (S c))). nia.
Qed.

Lemma vsum_no_defectives (M n : Z) (c : nat) : vsum 0 M n c = bz M n.
Proof.
  induction c as [|c IH]; cbn [vsum binom]; lia.
Qed.

(** Pascal's rule, summed: one more defective splits the sum in two. *)
Lemma vsum_pascal (d : nat) (M n : Z) (c : nat) :
  vsum (S d) M n c
  = vsum d M n c + match c with O => 0 | S c' => vsum d M (n - 1) c' end.
Proof.
  induction c as [|c IH].
  - cbn [vsum]. rewrite !binom_0_r. lia.
  - cbn [vsum] in *. rewrite IH. cbn [binom]. destruct c as [|c'].
    + cbn [vsum]. rewrite !binom_0_r. change (Z.of_nat 1) with 1. lia.
    + cbn [vsum].
      replace (n - 1 - Z.of_nat (S c')) with (n - Z.of_nat (S (S c'))) by lia. lia.
Qed.

Lemma bz_pascal (K n : Z) : 0 <= K -> bz (K + 1) n = bz K n + bz K (n - 1).
Proof.
  intros HK. unfold bz. destruct (Z.ltb_spec n 0) as [Neg|Pos].
  - destruct (Z.ltb_spec (n - 1) 0); lia.
  - replace (Z.to_nat (K + 1)) with (S (Z.to_nat K)) by lia.
    destruct (Z.ltb_spec (n - 1) 0) as [Z|P].
    + replace n with 0 by lia. change (Z.to_nat 0) with O. rewrite !binom_0_r. lia.
    + replace (Z.to_nat n) with (S (Z.to_nat (n - 1))) by lia. cbn [binom]. lia.
Qed.

(** Vandermonde's bound: the partial sums never exceed the number of
    samples. *)
Lemma vsum_bound (d : nat) : forall (M n : Z) (c : nat),
  0 <= M -> vsum d M n c <= bz (Z.of_nat d + M) n.
Proof.
  induction d as [|d IH]; intros M n c HM.
  - rewrite vsum_no_defectives. change (Z.of_nat 0) with 0. rewrite Z.add_0_l. lia.
  - rewrite vsum_pascal.
    replace (Z.of_nat (S d) + M) with (Z.of_nat d + M + 1) by lia.
    rewrite bz_pascal by lia. pose proof (IH M n c HM).
    destruct c as [|c'].
    + pose proof (bz_nonneg (Z.of_nat d + M) (n - 1)). lia.
    + pose proof (IH M (n - 1) c' HM). lia.
Qed.

(** X9.  In exact rational arithmetic the sum of [prob_aceptacion] is a
    probability: for [0 <= D <= N], [0 <= n <= N] and [c >= 0] its value
    lies between 0 and 1.  The excess over 1.0 that the floats can show is
    rounding only. *)
Theorem exact_prob_aceptacion_is_probability (N D n c : Z) :
  0 <= D <= N -> 0 <= n <= N -> 0 <= c ->
  exists q : Q, prob_aceptacion N D n c = Ok q /\ (0 <= q)%Q /\ (q <= 1)%Q.
Proof.
  intros HD Hn Hc.
  destruct (exact_sum N D n HD Hn (Z.to_nat c)) as (q & E & V).
  rewrite Z2Nat.id in E by lia. exists q. split; [exact E|].
  pose proof (vsum_nonneg (Z.to_nat D) (N - D) n (Z.to_nat c)) as H0.
  pose proof (vsum_bound (Z.to_nat D) (N - D) n (Z.to_nat c) ltac:(lia)) as H1.
  rewrite <- hsum_vsum in H0, H1.
  replace (Z.of_nat (Z.to_nat D) + (N - D)) with N in H1 by lia.
  unfold bz in H1. destruct (Z.ltb_spec n 0); [lia|].
  assert (Hb : 0 < binom (Z.to_nat N) (Z.to_nat n)) by (apply binom_pos; lia).
  set (h := hsum N D n (Z.to_nat c)) in *. set (b := binom (Z.to_nat N) (Z.to_nat n)) in *.
  assert (Qb : (0 < inject_Z b)%Q) by (change 0%Q with (inject_Z 0); rewrite <- Zlt_Qlt; exact Hb).
  rewrite V. split.
  - apply Qle_shift_div_l; [exact Qb|]. rewrite Qmult_0_l.
    change 0%Q with (inject_Z 0). rewrite <- Zle_Qle. exact H0.
  - apply Qle_shift_div_r; [exact Qb|]. rewrite Qmult_1_l, <- Zle_Qle. exact H1.
Qed.

Lemma exact_prob_aceptacion_is_probability_witness :
  exists q : Q, prob_aceptacion 12 5 7 5 = Ok q /\ (0 <= q)%Q /\ (q <= 1)%Q.
Proof. apply (exact_prob_aceptacion_is_probability 12 5 7 5); lia. Defined.

(** ** The ordinates of the general curve *)

Lemma curve_general (N n c : Z) (p_max : float) (puntos : Z) :
  1 <= N <= two_53 -> 0 <= n <= N -> 0 <= c < two_53 ->
  nonneg p_max -> (0 < B2Q p_max)%Q -> (B2Q p_max <= inject_Z two_53)%Q ->
  2 <= puntos <= two_53 ->
  exists Pa_vals,
    PlanC.curva_CO N n c p_max puntos
      = Ok (map (fun p => fmul p f_hundred) (map (grid_point p_max puntos) (range 0 puntos)), Pa_vals) /\
    length Pa_vals = Z.to_nat puntos /\ hd f_zero Pa_vals = f_hundred /\
    Forall nonneg Pa_vals.
Proof.
  intros HN Hn Hc Np P0 P1 Hp.
  assert (HL : Z.min n (N - n) <= llong_max) by (pose proof llong_max_big; lia).
  rewrite curva_CO_unfold, linspace_grid by lia. cbn [bind].
  destruct (curve_ordinates (fun D => prob_aceptacion N D n c) N p_max puntos) as (vs & E & F & H);
    try assumption.
  - intros D _. apply prob_aceptacion_total. exact HL.
  - apply prob_aceptacion_certain; lia.
  - rewrite E. cbn [bind]. exists vs. split; [reflexivity|]. split; [|split; [exact H|]].
    + rewrite <- (Forall2_length F), length_map, range_length. f_equal. lia.
    + apply (Forall2_right _ _ _ _ F). intros p v (x & D & P & _ & _ & EP & ->).
      destruct (prob_aceptacion_bounded N D n c HL Hc) as (P' & EP' & NP & BP).
      assert (P' = P) by congruence. subst P'.
      destruct hundred_representable as [N100 V100].
      destruct (pow2_representable 60 ltac:(lia)) as [R60 V60].
      apply (fmul_nonneg_le P f_hundred _ _ NP N100 R60).
      rewrite V60, V100. pose proof (nonneg_B2Q P NP).
      assert (inject_Z (c + 1) <= inject_Z two_53)%Q by (rewrite <- Zle_Qle; lia).
      assert (inject_Z two_53 * 100 <= pow2 60)%Q by (vm_compute; discriminate).
      nra.
Qed.

(** X10.  Every ordinate of the general curve is a non-negative finite
    float.  For [N], [puntos], [p_max] up to [2^53], [0 <= n <= N] and
    [0 <= c < 2^53], [curva_CO] returns, without exception, [puntos]
    ordinates, none of them NaN, negative or infinite. *)
Theorem co_curve_ordinates_finite (N n c : Z) (p_max : float) (puntos : Z) :
  1 <= N <= two_53 -> 0 <= n <= N -> 0 <= c < two_53 ->
  nonneg p_max -> (0 < B2Q p_max)%Q -> (B2Q p_max <= inject_Z two_53)%Q ->
  2 <= puntos <= two_53 ->
  exists p_vals Pa_vals,
    PlanC.curva_CO N n c p_max puntos = Ok (p_vals, Pa_vals) /\
    length Pa_vals = Z.to_nat puntos /\
    Forall (fun v => fleb f_zero v = true /\ is_inf v = false) Pa_vals.
Proof.
  intros HN Hn Hc Np P0 P1 Hp.
  destruct (curve_general N n c p_max puntos HN Hn Hc Np P0 P1 Hp) as (vs & E & L & _ & F).
  eexists; exists vs. split; [exact E|]. split; [exact L|].
  eapply Forall_impl; [|exact F]. intros v Nv. split.
  - apply fleb_nonneg; [apply nonneg_zero|exact Nv|]. cbn [B2Q f_zero]. apply nonneg_B2Q, Nv.
  - destruct v as [s|s| |[|] m e]; cbn [nonneg] in Nv; try tauto; reflexivity.
Qed.

Lemma co_curve_ordinates_finite_witness :
  exists p_vals Pa_vals,
    PlanC.curva_CO 10 2 1 lit_0_08 3 = Ok (p_vals, Pa_vals) /\
    length Pa_vals = Z.to_nat 3 /\
    Forall (fun v => fleb f_zero v = true /\ is_inf v = false) Pa_vals.
Proof.
  apply (co_curve_ordinates_finite 10 2 1 lit_0_08 3).
  - unfold two_53. lia.
  - lia.
  - unfold two_53. lia.
  - split; [reflexivity|unfold lit_0_08; lia].
  - reflexivity.
  - unfold Qle. vm_compute. discriminate.
  - unfold two_53. lia.
Defined.

(** ** The whole computation of a page *)

Lemma percent_to_fraction (pL_percent : float) :
  nonneg pL_percent -> (1 # 100 <= B2Q pL_percent)%Q -> (B2Q pL_percent <= 100)%Q ->
  float_truediv pL_percent f_hundred = Ok (fdiv pL_percent f_hundred) /\
  nonneg (fdiv pL_percent f_hundred) /\ (0 < B2Q (fdiv pL_percent f_hundred))%Q /\
  (B2Q (fdiv pL_percent f_hundred) <= 1)%Q.
Proof.
  intros Np L U. split; [reflexivity|].
  destruct hundred_representable as [N100 V100].
  assert (P100 : (0 < B2Q f_hundred)%Q) by (rewrite V100; reflexivity).
  destruct (fdiv_nonneg_le pL_percent f_hundred _ _ Np N100 P100 one_representable) as [Nq Bq].
  { rewrite F2Q_one, V100. lra. }
  rewrite F2Q_one in Bq. split; [exact Nq|]. split; [|exact Bq].
  destruct pL_percent as [s|s| |[|] mp ep]; cbn [nonneg B2Q] in *; try tauto; try lra.
  destruct (pow2_rep (-14) ltac:(lia)) as (m & e & R & V).
  unfold f_hundred in *. cbn [B2Q] in V100.
  match goal with |- context [fdiv _ (S754_finite false ?mh ?eh)] =>
    destruct (fdiv_pos_ge mp ep mh eh m e (proj1 R)) as [Inf|(mq & eq & Eq & Rq & Lq)]
  end.
  - rewrite V, V100. assert (pow2 (-14) * 100 <= 1 # 100)%Q by (vm_compute; discriminate). lra.
  - rewrite Inf in Nq. cbn [nonneg] in Nq. tauto.
  - rewrite Eq. cbn [B2Q]. apply F2Q_pos.
Qed.

Lemma p_max_range (pL : float) :
  nonneg pL -> (B2Q pL <= 1)%Q ->
  nonneg (py_max lit_0_05 (fmul pL f_three)) /\
  (0 < B2Q (py_max lit_0_05 (fmul pL f_three)))%Q /\
  (B2Q (py_max lit_0_05 (fmul pL f_three)) <= inject_Z two_53)%Q.
Proof.
  intros Np Bp.
  assert (N3 : nonneg f_three) by (split; [reflexivity|unfold f_three; lia]).
  assert (V3 : (B2Q f_three == 3)%Q) by reflexivity.
  assert (N5 : nonneg lit_0_05) by (split; [reflexivity|unfold lit_0_05; lia]).
  assert (P5 : (0 < B2Q lit_0_05)%Q) by (unfold lit_0_05; cbn [B2Q]; apply F2Q_pos).
  assert (U5 : (B2Q lit_0_05 <= pow2 2)%Q) by (vm_compute; discriminate).
  assert (T : (pow2 2 <= inject_Z two_53)%Q) by (vm_compute; discriminate).
  destruct (pow2_representable 2 ltac:(lia)) as [R4 V4].
  destruct (fmul_nonneg_le pL f_three _ _ Np N3 R4) as [Nm Bm].
  { rewrite V4, V3. pose proof (nonneg_B2Q pL Np).
    assert (pow2 2 == 4)%Q by reflexivity. lra. }
  rewrite V4 in Bm.
  unfold py_max. cbn [ltb binary64].
  destruct (fltb lit_0_05 (fmul pL f_three)) eqn:E.
  - apply (fltb_nonneg _ _ N5 Nm) in E. split; [exact Nm|]. split; lra.
  - split; [exact N5|]. split; lra.
Qed.

Lemma proportion_range (a : float) :
  nonneg a -> (0 < B2Q a)%Q -> (B2Q a <= 1)%Q ->
  fltb f_zero a = true /\ fleb a f_one = true.
Proof.
  intros Na Pa Ba. split.
  - apply fltb_nonneg; [apply nonneg_zero|exact Na|exact Pa].
  - apply fleb_nonneg; [exact Na|apply one_representable|]. rewrite B2Q_one. exact Ba.
Qed.

(** X11.  The page of the zero-acceptance plan runs to the end on every
    input the form is meant for.  For a lot of 1 to [2^53] units, a limit
    [pL_percent] between 0.01 and 100 and a non-negative [beta] it raises no
    exception, and what it shows is sound: [n] and [D] lie in [1..N], the
    acceptance probability at the limit is at most [beta], the inspected
    fraction [n / N] and the AOQL are positive and at most 1.0, and the curve
    has 200 points whose ordinates lie between 0.0 and 100.0. *)
Theorem plan_c0_runs (N : Z) (pL_percent beta : float) :
  1 <= N <= two_53 ->
  nonneg pL_percent -> (1 # 100 <= B2Q pL_percent)%Q -> (B2Q pL_percent <= 100)%Q ->
  nonneg beta ->
  exists r, calcular_plan_c0 N pL_percent beta = Ok r /\
    1 <= plan_n r <= N /\ 1 <= plan_D r <= N /\
    fleb (plan_Pa r) beta = true /\
    (fltb f_zero (plan_f r) = true /\ fleb (plan_f r) f_one = true) /\
    (fltb f_zero (plan_AOQL r) = true /\ fleb (plan_AOQL r) f_one = true) /\
    length (plan_p_vals r) = 200%nat /\ length (plan_Pa_vals r) = 200%nat /\
    Forall (fun v => fleb f_zero v = true /\ fleb v f_hundred = true) (plan_Pa_vals r).
Proof.
  intros HN Npp Lpp Upp Nb. pose proof two_53_le_two_1023 as T.
  destruct (percent_to_fraction pL_percent Npp Lpp Upp) as (EpL & NpL & PpL & BpL).
  set (pL := fdiv pL_percent f_hundred) in *.
  destruct (zero_solver N pL beta HN NpL PpL BpL Nb) as (n & D & P0 & Es & Hn & HD & _ & Hit & _).
  destruct (lot_limit_within N pL HN NpL PpL BpL) as (K & D' & EK & _ & _).
  destruct (aoql_range N n ltac:(lia) ltac:(lia)) as (f & a & Ef & Nf & Pf & Bf & Ea & _ & Na & Pa & Ba).
  destruct (p_max_range pL NpL BpL) as (Nm & Pm & Bm).
  destruct (curve_c0 N n _ 200 HN Nm Pm Bm ltac:(unfold two_53; lia)) as (vs & Ec & Lc & _ & Fc).
  unfold calcular_plan_c0. rewrite EpL. cbn [bind]. fold pL. rewrite Es. cbn [bind].
  rewrite EK. cbn [bind]. rewrite Ef. cbn [bind]. rewrite Ea. cbn [bind].
  rewrite Ec. cbn [bind]. eexists. split; [reflexivity|]. cbn [plan_n plan_D plan_Pa plan_f plan_AOQL plan_p_vals plan_Pa_vals fst snd].
  split; [lia|]. split; [exact HD|]. split; [exact Hit|].
  split; [apply proportion_range; assumption|]. split; [apply proportion_range; assumption|].
  split; [rewrite !length_map, range_length; reflexivity|]. split; [exact Lc|].
  eapply Forall_impl; [|exact Fc]. intros v [Nv Bv]. apply percent_range; assumption.
Qed.

Lemma plan_c0_runs_witness :
  exists r, calcular_plan_c0 600 f_three f_half = Ok r /\
    1 <= plan_n r <= 600 /\ 1 <= plan_D r <= 600 /\
    fleb (plan_Pa r) f_half = true /\
    (fltb f_zero (plan_f r) = true /\ fleb (plan_f r) f_one = true) /\
    (fltb f_zero (plan_AOQL r) = true /\ fleb (plan_AOQL r) f_one = true) /\
    length (plan_p_vals r) = 200%nat /\ length (plan_Pa_vals r) = 200%nat /\
    Forall (fun v => fleb f_zero v = true /\ fleb v f_hundred = true) (plan_Pa_vals r).
Proof.
  apply (plan_c0_runs 600 f_three f_half).
  - unfold two_53. lia.
  - split; [reflexivity|unfold f_three; lia].
  - unfold Qle. vm_compute. discriminate.
  - unfold Qle. vm_compute. discriminate.
  - split; [reflexivity|unfold f_half; lia].
Defined.

(** X12.  The page of the general plan runs to the end as well.  For the
    same inputs and an acceptance number [0 <= c < 2^53] it raises no
    exception; [n] and [D] lie in [1..N]; the acceptance probability meets
    [beta] whenever [c < D], and when it does not the page shows the full
    inspection [n = N] with a probability of exactly 1.0; the inspected
    fraction and the AOQL are positive and at most 1.0; the curve has 200
    points, starts at 100.0 and has no NaN, negative or infinite ordinate. *)
Theorem plan_runs (N : Z) (pL_percent beta : float) (c : Z) :
  1 <= N <= two_53 ->
  nonneg pL_percent -> (1 # 100 <= B2Q pL_percent)%Q -> (B2Q pL_percent <= 100)%Q ->
  nonneg beta -> 0 <= c < two_53 ->
  exists r, calcular_plan N pL_percent beta c = Ok r /\
    1 <= plan_n r <= N /\ 1 <= plan_D r <= N /\
    (c < plan_D r -> fleb (plan_Pa r) beta = true) /\
    (fleb (plan_Pa r) beta = false ->
     plan_n r = N /\ plan_D r <= c /\ plan_Pa r = f_one) /\
    (fltb f_zero (plan_f r) = true /\ fleb (plan_f r) f_one = true) /\
    (fltb f_zero (plan_AOQL r) = true /\ fleb (plan_AOQL r) f_one = true) /\
    length (plan_p_vals r) = 200%nat /\ length (plan_Pa_vals r) = 200%nat /\
    hd f_zero (plan_Pa_vals r) = f_hundred /\
    Forall (fun v => fleb f_zero v = true /\ is_inf v = false) (plan_Pa_vals r).
Proof.
  intros HN Npp Lpp Upp Nb Hc. pose proof two_53_le_two_1023 as T.
  destruct (percent_to_fraction pL_percent Npp Lpp Upp) as (EpL & NpL & PpL & BpL).
  set (pL := fdiv pL_percent f_hundred) in *.
  destruct (general_solver N pL beta c HN NpL PpL BpL Nb) as (n & D & Pa & Es & Hn & HD & _ & Hit & Miss).
  destruct (lot_limit_within N pL HN NpL PpL BpL) as (K & D' & EK & _ & _).
  destruct (aoql_range N n ltac:(lia) ltac:(lia)) as (f & a & Ef & Nf & Pf & Bf & _ & Ea & Na & Pa' & Ba).
  destruct (p_max_range pL NpL BpL) as (Nm & Pm & Bm).
  destruct (curve_general N n c _ 200 HN ltac:(lia) Hc Nm Pm Bm ltac:(unfold two_53; lia))
    as (vs & Ec & Lc & Hc0 & Fc).
  unfold calcular_plan. rewrite EpL. cbn [bind]. fold pL. rewrite Es. cbn [bind].
  rewrite EK. cbn [bind]. rewrite Ef. cbn [bind]. rewrite Ea. cbn [bind].
  rewrite Ec. cbn [bind]. eexists. split; [reflexivity|]. cbn [plan_n plan_D plan_Pa plan_f plan_AOQL plan_p_vals plan_Pa_vals fst snd].
  split; [exact Hn|]. split; [exact HD|]. split; [exact Hit|]. split; [exact Miss|].
  split; [apply proportion_range; assumption|]. split; [apply proportion_range; assumption|].
  split; [rewrite !length_map, range_length; reflexivity|]. split; [exact Lc|].
  split; [exact Hc0|].
  eapply Forall_impl; [|exact Fc]. intros v Nv. split.
  - apply fleb_nonneg; [apply nonneg_zero|exact Nv|]. cbn [B2Q f_zero]. apply nonneg_B2Q, Nv.
  - destruct v as [s|s| |[|] m e]; cbn [nonneg] in Nv; try tauto; reflexivity.
Qed.

Lemma plan_runs_witness :
  exists r, calcular_plan 600 f_three f_half 1 = Ok r /\
    1 <= plan_n r <= 600 /\ 1 <= plan_D r <= 600 /\
    (1 < plan_D r -> fleb (plan_Pa r) f_half = true) /\
    (fleb (plan_Pa r) f_half = false ->
     plan_n r = 600 /\ plan_D r <= 1 /\ plan_Pa r = f_one) /\
    (fltb f_zero (plan_f r) = true /\ fleb (plan_f r) f_one = true) /\
    (fltb f_zero (plan_AOQL r) = true /\ fleb (plan_AOQL r) f_one = true) /\
    length (plan_p_vals r) = 200%nat /\ length (plan_Pa_vals r) = 200%nat /\
    hd f_zero (plan_Pa_vals r) = f_hundred /\
    Forall (fun v => fleb f_zero v = true /\ is_inf v = false) (plan_Pa_vals r).
Proof.
  apply (plan_runs 600 f_three f_half 1).
  - unfold two_53. lia.
  - split; [reflexivity|unfold f_three; lia].
  - unfold Qle. vm_compute. discriminate.
  - unfold Qle. vm_compute. discriminate.
  - split; [reflexivity|unfold f_half; lia].
  - unfold two_53. lia.
Defined.

(** ** Rounding to nearest is monotone *)

Lemma rne_nearest u mrs v :
  (0 < u)%Q -> inbetween u mrs v ->
  (rne mrs = shr_m mrs -> (v <= (inject_Z (shr_m mrs) + (1#2)) * u)%Q) /\
  (rne mrs = shr_m mrs + 1 -> ((inject_Z (shr_m mrs) + (1#2)) * u <= v)%Q) /\
  ((v == (inject_Z (shr_m mrs) + (1#2)) * u)%Q ->
   rne mrs = if Z.even (shr_m mrs) then shr_m mrs else shr_m mrs + 1).
Proof.
  unfold inbetween, rne. destruct mrs as [m r s]. cbn [shr_m shr_r shr_s loc_of_shr_record].
  set (w := inject_Z m). intros Hu.
  destruct r, s; cbn [round_nearest_even]; intros H.
  - repeat split; intros; try lia; try nra.
  - repeat split; intros; try lia; try nra.
  - repeat split; intros; try lia; try nra.
  - repeat split; intros; try lia; try nra.
Qed.

Lemma round_core_nearest mx ex lx v :
  0 <= mx -> inbetween (pow2 ex) (shr_record_of_loc mx lx) v ->
  ex <= fx (dig mx + ex) ->
  exists m1, rounds v m1 (fst (round_core mx ex lx)) (snd (round_core mx ex lx)).
Proof.
  intros Hm Hin Hsh.
  destruct (round_core_spec mx ex lx v Hm Hin Hsh) as (m0 & S).
  cbv zeta in S. destruct S as (E0 & M0 & B0 & R0 & _ & L0 & N0).
  revert E0 M0 B0 R0 L0 N0.
  unfold round_core, shr_fexp. fold (dig mx). fold (fx (dig mx + ex)).
  set (n := fx (dig mx + ex) - ex).
  assert (Hn : 0 <= n) by (unfold n; lia).
  assert (Hm' : 0 <= shr_m (shr_record_of_loc mx lx)) by (rewrite shr_m_of_loc; exact Hm).
  destruct (shr_inb _ ex n v Hn Hm' Hin) as (H1 & H2 & H3).
  destruct (shr (shr_record_of_loc mx lx) ex n) as [mrs e1] eqn:E.
  cbn [fst snd] in *. intros E0 M0 B0 R0 L0 N0.
  replace (ex + n) with e1 in H1 by lia.
  pose proof (pow2_pos e1) as Hu.
  destruct (inbetween_bracket _ _ _ Hu H1) as [B1 B2].
  destruct (rne_nearest _ _ _ Hu H1) as (Q1 & Q2 & Q3).
  assert (Em : m0 = shr_m mrs).
  { destruct B0 as [B01 B02].
    assert (A : (inject_Z m0 * pow2 e1 < inject_Z (shr_m mrs + 1) * pow2 e1)%Q) by lra.
    assert (B : (inject_Z (shr_m mrs) * pow2 e1 < inject_Z (m0 + 1) * pow2 e1)%Q) by lra.
    apply Qmul_lt_cancel in A; [|exact Hu]. apply Qmul_lt_cancel in B; [|exact Hu].
    rewrite <- Zlt_Qlt in A, B. lia. }
  exists m0. unfold rounds. rewrite Em in *.
  assert (-1074 <= e1) by (rewrite E0, fx_eq; lia).
  repeat split; try assumption; try lia; try apply B0.
Qed.

Lemma rounds_order (v v' : Q) (m1 m2 e1 m1' m2' e1' : Z) :
  (v <= v')%Q -> rounds v m1 m2 e1 -> rounds v' m1' m2' e1' ->
  (F2Q m2 e1 <= F2Q m2' e1')%Q.
Proof.
  intros Hv (He & Hm & [B1 B2] & R & L & Nn & Q1 & Q2 & Q3)
            (He' & Hm' & [B1' B2'] & R' & L' & Nn' & Q1' & Q2' & Q3').
  unfold F2Q.
  pose proof (pow2_pos e1) as Px. pose proof (pow2_pos e1') as Py.
  set (x := pow2 e1) in *. set (y := pow2 e1') in *.
  assert (T : (inject_Z M53 == 2 * inject_Z M52)%Q) by reflexivity.
  assert (P52 : (0 < inject_Z M52)%Q) by reflexivity.
  destruct (Z.compare_spec e1 e1') as [E|Lt|Gt].
  - (* the same exponent *)
    assert (x == y)%Q as Exy by (unfold x, y; rewrite E; reflexivity).
    destruct (Z.compare_spec m1 m1') as [Em|Lm|Gm].
    + assert (m2 <= m2').
      { destruct (Z_le_gt_dec m2 m2') as [|G]; [assumption|exfalso].
        assert (m2 = m1 + 1) by lia. assert (m2' = m1') by lia.
        pose proof (Q2 H) as A. pose proof (Q1' H0) as B.
        rewrite <- Em in B. rewrite <- Exy in B.
        assert (C : (v == (inject_Z m1 + (1 # 2)) * x)%Q) by lra.
        assert (C' : (v' == (inject_Z m1' + (1 # 2)) * y)%Q) by (rewrite <- Em, <- Exy; lra).
        pose proof (Q3 C). pose proof (Q3' C'). rewrite <- Em in H2.
        destruct (Z.even m1); lia. }
      rewrite <- Exy. apply Qmult_le_compat_r; [rewrite <- Zle_Qle; assumption|lra].
    + assert (m2 <= m2') by lia.
      rewrite <- Exy. apply Qmult_le_compat_r; [rewrite <- Zle_Qle; assumption|lra].
    + exfalso. assert (A : (inject_Z (m1' + 1) <= inject_Z m1)%Q) by (rewrite <- Zle_Qle; lia).
      rewrite <- Exy in B2'. nra.
  - (* the next binade starts above *)
    assert (H2 : (2 * x <= y)%Q).
    { unfold x, y. change 2%Q with (pow2 1). rewrite <- pow2_add. apply pow2_le. lia. }
    assert (A : (inject_Z m2 <= 2 * inject_Z M52)%Q) by (rewrite <- T, <- Zle_Qle; lia).
    assert (B : (inject_Z M52 <= inject_Z m2')%Q) by (rewrite <- Zle_Qle; lia).
    assert (A0 : (0 <= inject_Z m2)%Q) by (change 0%Q with (inject_Z 0); rewrite <- Zle_Qle; lia).
    apply Qle_trans with (2 * inject_Z M52 * x)%Q.
    + apply Qmult_le_compat_r; [exact A|lra].
    + apply Qle_trans with (inject_Z M52 * y)%Q; [nra|].
      apply Qmult_le_compat_r; [exact B|lra].
  - (* impossible: the smaller value cannot sit in a higher binade *)
    exfalso.
    assert (H2 : (2 * y <= x)%Q).
    { unfold x, y. change 2%Q with (pow2 1). rewrite <- pow2_add. apply pow2_le. lia. }
    assert (A : (inject_Z M52 <= inject_Z m1)%Q) by (rewrite <- Zle_Qle; lia).
    assert (B : (inject_Z (m1' + 1) <= 2 * inject_Z M52)%Q) by (rewrite <- T, <- Zle_Qle; lia).
    assert (C : (inject_Z M52 * x <= v)%Q).
    { apply Qle_trans with (2 := B1). apply Qmult_le_compat_r; [exact A|lra]. }
    assert (D : (v' < 2 * inject_Z M52 * y)%Q).
    { apply Qlt_le_trans with (1 := B2'). apply Qmult_le_compat_r; [exact B|lra]. }
    nra.
Qed.

Lemma finish_mono (m2 e1 m2' e1' : Z) :
  -1074 <= e1 -> 0 <= m2 <= M53 -> (-1074 < e1 -> M52 <= m2) ->
  -1074 <= e1' -> 0 <= m2' <= M53 -> (-1074 < e1' -> M52 <= m2') ->
  (F2Q m2 e1 <= F2Q m2' e1')%Q ->
  below (finish false m2 e1) (finish false m2' e1').
Proof.
  intros He Hm Hn He' Hm' Hn' Hv.
  destruct (finish_spec false m2 e1 He Hm Hn) as [[_ ->]|(m3 & e3 & V & C & _ & _ & ->)];
    [left; reflexivity|].
  destruct (finish_spec false m2' e1' He' Hm' Hn') as [[Z _]|(m3' & e3' & V' & C' & _ & _ & ->)].
  - exfalso. pose proof (F2Q_pos m3 e3). rewrite Z in Hv. unfold F2Q in Hv at 2.
    assert (inject_Z 0 * pow2 e1' == 0)%Q by ring. lra.
  - destruct (Z.leb_spec e3' 971) as [L'|G']; [|right; left; reflexivity].
    destruct (Z.leb_spec e3 971) as [L|G].
    + right; right. exists m3, e3, m3', e3'.
      repeat split; try assumption. rewrite V, V'. exact Hv.
    + exfalso. pose proof (representable_F2Q_lt m3' e3' m3 e3 C' C ltac:(lia)). lra.
Qed.

Section RoundMono.
Variables (mx ex : Z) (lx : location) (v : Q) (mx' ex' : Z) (lx' : location) (v' : Q).
Hypothesis Hmx : 0 <= mx.
Hypothesis Hin : inbetween (pow2 ex) (shr_record_of_loc mx lx) v.
Hypothesis Hsh : ex <= fx (dig mx + ex).
Hypothesis Hmx' : 0 <= mx'.
Hypothesis Hin' : inbetween (pow2 ex') (shr_record_of_loc mx' lx') v'.
Hypothesis Hsh' : ex' <= fx (dig mx' + ex').
Hypothesis Hle : (v <= v')%Q.

Lemma bra_mono :
  below (binary_round_aux prec emax false mx ex lx)
        (binary_round_aux prec emax false mx' ex' lx').
Proof.
  rewrite !bra_unfold.
  destruct (round_core_nearest mx ex lx v Hmx Hin Hsh) as (m1 & R).
  destruct (round_core_nearest mx' ex' lx' v' Hmx' Hin' Hsh') as (m1' & R').
  pose proof (rounds_order _ _ _ _ _ _ _ _ Hle R R') as O.
  destruct R as (He & Hm & _ & Rg & L & Nn & _), R' as (He' & Hm' & _ & Rg' & L' & Nn' & _).
  apply finish_mono; try assumption; lia.
Qed.
End RoundMono.

Lemma below_B2Q (z z' : float) :
  below z z' -> nonneg z' -> nonneg z /\ (B2Q z <= B2Q z')%Q.
Proof.
  intros [->|[->|(m & e & m' & e' & -> & -> & R & R' & V)]] N'.
  - split; [exact I|]. cbn [B2Q]. apply nonneg_B2Q, N'.
  - destruct N'.
  - split; [exact R|exact V].
Qed.

(** Division and multiplication of positive floats are monotone. *)
Lemma fdiv_mono (mx : positive) (ex : Z) (mx' : positive) (ex' : Z) (my : positive) (ey : Z) :
  (F2Q (Zpos mx) ex <= F2Q (Zpos mx') ex')%Q ->
  below (fdiv (S754_finite false mx ex) (S754_finite false my ey))
        (fdiv (S754_finite false mx' ex') (S754_finite false my ey)).
Proof.
  intros Hv. unfold fdiv. rewrite !SFdiv_finite. cbn [xorb].
  pose proof (div_core_spec mx ex my ey) as H. pose proof (div_core_spec mx' ex' my ey) as H'.
  destruct (SFdiv_core_binary prec emax (Zpos mx) ex (Zpos my) ey) as [[q e] l].
  destruct (SFdiv_core_binary prec emax (Zpos mx') ex' (Zpos my) ey) as [[q' e'] l'].
  destruct H as (Hq & Hin & Hsh), H' as (Hq' & Hin' & Hsh'). cbn [fst snd].
  apply (bra_mono _ _ _ _ _ _ _ _ Hq Hin Hsh Hq' Hin' Hsh').
  pose proof (F2Q_pos my ey) as Py. unfold Qdiv.
  apply Qmult_le_compat_r; [exact Hv|]. apply Qlt_le_weak, Qinv_lt_0_compat, Py.
Qed.

Lemma fmul_mono (mx : positive) (ex : Z) (my : positive) (ey : Z)
                (mx' : positive) (ex' : Z) (my' : positive) (ey' : Z) :
  canonical (Zpos mx) ex -> canonical (Zpos my) ey ->
  canonical (Zpos mx') ex' -> canonical (Zpos my') ey' ->
  (F2Q (Zpos mx) ex <= F2Q (Zpos mx') ex')%Q -> (F2Q (Zpos my) ey <= F2Q (Zpos my') ey')%Q ->
  below (fmul (S754_finite false mx ex) (S754_finite false my ey))
        (fmul (S754_finite false mx' ex') (S754_finite false my' ey')).
Proof.
  intros Cx Cy Cx' Cy' Hx Hy. unfold fmul. cbn [SFmul xorb].
  assert (Hm : 0 <= Zpos (mx * my)) by lia. assert (Hm' : 0 <= Zpos (mx' * my')) by lia.
  apply (bra_mono _ _ _ _ _ _ _ _
           Hm (inbetween_exact _ _ _ (F2Q_mul mx ex my ey)) (fmul_shift _ _ _ _ Cx Cy)
           Hm' (inbetween_exact _ _ _ (F2Q_mul mx' ex' my' ey')) (fmul_shift _ _ _ _ Cx' Cy')).
  pose proof (F2Q_pos mx ex). pose proof (F2Q_pos my ey).
  pose proof (F2Q_pos mx' ex'). pose proof (F2Q_pos my' ey'). nra.
Qed.

(** ** More defectives never raise the zero-acceptance probability *)

Lemma int_truediv_pos_eq (a b : Z) (r : float) :
  0 < a -> 0 < b -> int_truediv a b = Ok r ->
  r = fdiv (S754_finite false (Z.to_pos a) 0) (S754_finite false (Z.to_pos b) 0).
Proof.
  intros Ha Hb. unfold int_truediv.
  destruct (Z.eqb_spec b 0); [lia|]. destruct (Z.eqb_spec a 0); [lia|].
  rewrite (Zfin_pos a Ha), (Zfin_pos b Hb).
  destruct (is_inf _); [discriminate|]. intros E. injection E as <-. reflexivity.
Qed.

Lemma int_truediv_mono (a a' b : Z) :
  0 < a <= a' -> a' <= b ->
  exists r r', int_truediv a b = Ok r /\ int_truediv a' b = Ok r' /\
               nonneg r /\ nonneg r' /\ (B2Q r <= B2Q r')%Q.
Proof.
  intros Ha Hb.
  destruct (int_truediv_unit a b ltac:(lia) ltac:(lia)) as (r & E & _ & _).
  destruct (int_truediv_unit a' b ltac:(lia) ltac:(lia)) as (r' & E' & N' & _).
  exists r, r'. split; [exact E|]. split; [exact E'|].
  pose proof (int_truediv_pos_eq a b r ltac:(lia) ltac:(lia) E) as V.
  pose proof (int_truediv_pos_eq a' b r' ltac:(lia) ltac:(lia) E') as V'.
  assert (B : below r r').
  { rewrite V, V'. apply fdiv_mono. rewrite !F2Q_int, !Z2Pos.id by lia.
    rewrite <- Zle_Qle. lia. }
  destruct (below_B2Q r r' B N') as [Nr Le]. auto.
Qed.

Lemma nonneg_zero_value (x : float) : nonneg x -> (B2Q x <= 0)%Q -> exists s, x = S754_zero s.
Proof.
  destruct x as [s|s| |[|] m e]; cbn [nonneg B2Q]; try tauto; intros _ H.
  - eauto.
  - pose proof (F2Q_pos m e). lra.
Qed.

Lemma fmul_mono_val (a ra b rb : float) :
  nonneg a -> nonneg ra -> nonneg b -> nonneg rb ->
  (B2Q a <= B2Q b)%Q -> (B2Q ra <= B2Q rb)%Q -> nonneg (fmul b rb) ->
  nonneg (fmul a ra) /\ (B2Q (fmul a ra) <= B2Q (fmul b rb))%Q.
Proof.
  intros Na Nra Nb Nrb La Lr Nm. pose proof (nonneg_B2Q _ Nm) as Pm.
  destruct a as [s|s| |[|] ma ea]; cbn [nonneg] in Na; try tauto.
  { destruct (fmul_zero_l s ra (nonneg_finite ra Nra)) as (s' & ->). split; [exact I|exact Pm]. }
  destruct ra as [s|s| |[|] mr er]; cbn [nonneg] in Nra; try tauto.
  pose proof (F2Q_pos ma ea). pose proof (F2Q_pos mr er). cbn [B2Q] in La, Lr.
  destruct b as [s|s| |[|] mb eb]; cbn [nonneg B2Q] in *; try tauto; try lra.
  destruct rb as [s|s| |[|] mq eq]; cbn [nonneg B2Q] in *; try tauto; try lra.
  apply below_B2Q; [|exact Nm].
  apply fmul_mono; try assumption; try apply Na; try apply Nra; try apply Nb; try apply Nrb.
Qed.

Lemma pzd_loop_defectives (N D : Z) :
  1 <= N <= two_1023 -> 1 <= D -> D + 1 <= N ->
  forall k, 0 <= k <= N ->
  exists a b, pzd_loop N (D + 1) k = Ok a /\ pzd_loop N D k = Ok b /\
              pzd_inv N (D + 1) k a /\ pzd_inv N D k b /\ (B2Q a <= B2Q b)%Q.
Proof.
  intros HN HD HD1 k [Hk0 Hk]. revert Hk. pattern k. apply natlike_ind; [| |exact Hk0].
  - intros _. exists f_one, f_one.
    assert (I1 : forall D', pzd_inv N D' 0 f_one \/ N - D' < 0).
    { intros D'. destruct (Z_lt_le_dec (N - D') 0); [right; assumption|left].
      unfold pzd_inv. repeat split; [apply one_representable|rewrite B2Q_one; lra|lia]. }
    split; [reflexivity|]. split; [reflexivity|].
    destruct (I1 (D + 1)) as [H1|]; [|lia]. destruct (I1 D) as [H2|]; [|lia].
    split; [exact H1|]. split; [exact H2|]. apply Qle_refl.
  - intros x Hx IH Hk. destruct (IH ltac:(lia)) as (a & b & Ea & Eb & Ia & Ib & Le).
    change (Z.succ x) with (x + 1).
    destruct (pzd_step_inv N (D + 1) HN ltac:(lia) x a ltac:(lia) Ia) as (a' & Ea' & Ia' & _).
    destruct (pzd_step_inv N D HN ltac:(lia) x b ltac:(lia) Ib) as (b' & Eb' & Ib' & _).
    exists a', b'. rewrite !pzd_loop_succ, Ea, Eb by lia. cbn [bind].
    split; [exact Ea'|]. split; [exact Eb'|]. split; [exact Ia'|]. split; [exact Ib'|].
    destruct Ia' as (Na' & _ & Za'), Ib' as (Nb' & _ & _).
    destruct (Z_lt_le_dec (N - (D + 1)) (x + 1)) as [Out|In].
    + destruct (is_zero_true a' (Za' Out)) as (s & ->). cbn [B2Q]. apply nonneg_B2Q, Nb'.
    + destruct (int_truediv_mono (N - (D + 1) - x) (N - D - x) (N - x) ltac:(lia) ltac:(lia))
        as (r & r' & Er & Er' & Nr & Nr' & Lr).
      unfold pzd_step in Ea', Eb'. rewrite Er in Ea'. rewrite Er' in Eb'. cbn [bind] in Ea', Eb'.
      injection Ea' as <-. injection Eb' as <-.
      apply fmul_mono_val; try assumption; [apply Ia|apply Ib].
Qed.

Lemma pzd_defectives_chain (N n : Z) :
  1 <= N <= two_1023 -> 0 <= n <= N ->
  forall (d : nat) (D : Z), 1 <= D -> D + Z.of_nat d <= N ->
  exists a b, prob_zero_defects (F := float) N (D + Z.of_nat d) n = Ok a /\
              prob_zero_defects (F := float) N D n = Ok b /\
              nonneg a /\ nonneg b /\ (B2Q a <= B2Q b)%Q.
Proof.
  intros HN Hn. induction d as [|d IH]; intros D HD Hd.
  - destruct (pzd_value N D HN ltac:(lia) n Hn) as (p & E & _ & (Np & _)).
    exists p, p. replace (D + Z.of_nat 0) with D by lia.
    repeat split; try assumption. apply Qle_refl.
  - destruct (IH D HD ltac:(lia)) as (a & b & Ea & Eb & Na & Nb & Le).
    destruct (pzd_loop_defectives N (D + Z.of_nat d) HN ltac:(lia) ltac:(lia) n Hn)
      as (a' & a0 & Ea' & Ea0 & Ia' & _ & Le').
    destruct (pzd_value N (D + Z.of_nat d) HN ltac:(lia) n Hn) as (p & Ep & Lp & _).
    destruct (pzd_value N (D + Z.of_nat d + 1) HN ltac:(lia) n Hn) as (p' & Ep' & Lp' & _).
    assert (p = a) by congruence. assert (p = a0) by congruence. assert (p' = a') by congruence.
    subst. exists a', b. replace (D + Z.of_nat (S d)) with (D + Z.of_nat d + 1) by lia.
    repeat split; try assumption; try apply Ia'. lra.
Qed.

(** X13.  With the floats the program computes, a lot with more defectives
    never has a higher zero-acceptance probability: for [N <= 2^1023],
    [0 <= D <= D' <= N] and [0 <= n <= N],
    [prob_zero_defects N D' n <= prob_zero_defects N D n].  Each rounded
    factor and each rounded product is monotone, so the curve of the [c = 0]
    plan cannot rise while [D] stays within the lot. *)
Theorem prob_zero_defects_decreases_with_defectives (N D D' n : Z) :
  1 <= N <= two_1023 -> 0 <= D <= D' -> D' <= N -> 0 <= n <= N ->
  exists a b : float, prob_zero_defects N D' n = Ok a /\ prob_zero_defects N D n = Ok b /\
                      fleb a b = true.
Proof.
  intros HN HD HD' Hn. destruct (Z.eq_dec D 0) as [->|ND].
  - destruct (prob_zero_defects_total N D' n ltac:(lia) ltac:(lia)) as (a & Ea).
    exists a, f_one. split; [exact Ea|]. split; [apply prob_zero_defects_certain; lia|].
    destruct (prob_zero_defects_range N D' n a ltac:(lia) Ea) as [Na Ba].
    apply fleb_nonneg; [exact Na|apply one_representable|]. rewrite B2Q_one. exact Ba.
  - destruct (pzd_defectives_chain N n HN Hn (Z.to_nat (D' - D)) D ltac:(lia) ltac:(lia))
      as (a & b & Ea & Eb & Na & Nb & Le).
    replace (D + Z.of_nat (Z.to_nat (D' - D))) with D' in Ea by lia.
    exists a, b. split; [exact Ea|]. split; [exact Eb|]. apply fleb_nonneg; assumption.
Qed.

Lemma prob_zero_defects_decreases_with_defectives_witness :
  exists a b : float, prob_zero_defects 10 4 3 = Ok a /\ prob_zero_defects 10 2 3 = Ok b /\
                      fleb a b = true.
Proof.
  apply (prob_zero_defects_decreases_with_defectives 10 2 4 3); unfold two_1023; lia.
Defined.

(** ** Beyond the lot: at least twice as many defectives as units *)

Lemma int_truediv_neg_big (a b : Z) :
  0 < b -> b <= - a <= two_1023 ->
  exists m e, int_truediv a b = Ok (S754_finite true m e) /\ representable m e /\
              (1 <= F2Q (Zpos m) e)%Q.
Proof.
  intros Hb Ha. unfold int_truediv.
  destruct (Z.eqb_spec b 0); [lia|]. destruct (Z.eqb_spec a 0); [lia|].
  rewrite (Zfin_nonzero a ltac:(lia)), (Zfin_nonzero b ltac:(lia)).
  destruct (Z.ltb_spec a 0); [|lia]. destruct (Z.ltb_spec b 0); [lia|].
  set (pa := Z.to_pos (Z.abs a)). set (pb := Z.to_pos (Z.abs b)).
  assert (Ea : Zpos pa = - a) by (unfold pa; rewrite Z2Pos.id; lia).
  assert (Eb : Zpos pb = b) by (unfold pb; rewrite Z2Pos.id; lia).
  assert (Pb : (0 < inject_Z b)%Q) by (change 0%Q with (inject_Z 0); rewrite <- Zlt_Qlt; lia).
  assert (Hu : (F2Q (Zpos pa) 0 / F2Q (Zpos pb) 0 <= F2Q (Zpos (Z.to_pos M52)) 971)%Q).
  { rewrite !F2Q_int, two_1023_big, Ea, Eb. apply Qle_shift_div_r; [exact Pb|].
    assert (inject_Z (- a) <= inject_Z two_1023)%Q by (rewrite <- Zle_Qle; lia).
    assert (1 <= inject_Z b)%Q by (change 1%Q with (inject_Z 1); rewrite <- Zle_Qle; lia).
    assert (0 < inject_Z two_1023)%Q by (change 0%Q with (inject_Z 0); rewrite <- Zlt_Qlt; unfold two_1023; lia).
    nra. }
  assert (Hl : (F2Q (Zpos (Z.to_pos M52)) (-52) <= F2Q (Zpos pa) 0 / F2Q (Zpos pb) 0)%Q).
  { rewrite !F2Q_int, F2Q_one, Ea, Eb. apply Qle_shift_div_l; [exact Pb|].
    rewrite Qmult_1_l, <- Zle_Qle. lia. }
  destruct (SFdiv_le true pa 0 false pb 0 _ _ big_representable Hu) as [E|(m & e & E & R & V)];
  destruct (SFdiv_ge true pa 0 false pb 0 _ _ (proj1 one_representable) Hl) as [E'|(m' & e' & E' & R' & V')];
    rewrite E in E'; try discriminate.
  injection E' as <- <-. rewrite E. cbn [xorb is_inf]. exists m, e.
  rewrite F2Q_one in V'. auto.
Qed.

Lemma fmul_big_signed (s : bool) (p : float) (m : positive) (e : Z) :
  big_signed s p -> representable m e -> (1 <= F2Q (Zpos m) e)%Q ->
  big_signed (negb s) (fmul p (S754_finite true m e)).
Proof.
  intros [->|(mp & ep & -> & [Cp Ep] & Lp)] [Cr Er] Lr.
  - left. destruct s; reflexivity.
  - unfold fmul. cbn [SFmul].
    replace (xorb s true) with (negb s) by (destruct s; reflexivity).
    assert (Hm : 0 <= Zpos (mp * m)) by lia.
    pose proof (inbetween_exact _ _ _ (F2Q_mul mp ep m e)) as Hin.
    pose proof (fmul_shift _ _ _ _ Cp Cr) as Hsh.
    assert (Hv : (F2Q (Zpos (Z.to_pos M52)) (-52) <= F2Q (Zpos mp) ep * F2Q (Zpos m) e)%Q).
    { rewrite F2Q_one. nra. }
    destruct (bra_ge (negb s) _ _ _ _ Hm Hin Hsh _ _ (proj1 one_representable) Hv)
      as [->|(m' & e' & -> & C' & E' & V')].
    + left. reflexivity.
    + right. exists m', e'. rewrite F2Q_one in V'. repeat split; assumption.
Qed.

Lemma pzd_loop_beyond (N D : Z) :
  1 <= N -> 2 * N <= D <= two_1023 ->
  forall k, 0 <= k <= N -> exists p, pzd_loop N D k = Ok p /\ big_signed (Z.odd k) p.
Proof.
  intros HN HD k [Hk0 Hk]. revert Hk. pattern k. apply natlike_ind; [| |exact Hk0].
  - intros _. exists f_one. split; [reflexivity|]. right.
    exists (Z.to_pos M52), (-52). split; [reflexivity|]. split; [apply one_representable|].
    rewrite F2Q_one. apply Qle_refl.
  - intros x Hx IH Hk. destruct (IH ltac:(lia)) as (p & E & B).
    change (Z.succ x) with (x + 1). rewrite pzd_loop_succ, E by lia. cbn [bind].
    destruct (int_truediv_neg_big (N - D - x) (N - x) ltac:(lia) ltac:(lia)) as (m & e & Er & R & L).
    unfold pzd_step. rewrite Er. cbn [bind]. eexists. split; [reflexivity|].
    replace (Z.odd (x + 1)) with (negb (Z.odd x)) by (rewrite Z.add_1_r, Z.odd_succ, <- Z.negb_odd; reflexivity).
    apply fmul_big_signed; assumption.
Qed.

Lemma clamp_big_signed (s : bool) (p : float) :
  big_signed s p -> clamp p = if s then f_zero else f_one.
Proof.
  intros [->|(m & e & -> & R & L)].
  - destruct s; reflexivity.
  - destruct s; [reflexivity|].
    assert (Np : nonneg (S754_finite false m e)) by exact R.
    assert (N1 : nonneg f_one) by apply one_representable.
    unfold clamp, py_max, py_min. cbn [ltb binary64].
    destruct (fltb f_one (S754_finite false m e)) eqn:E1; [reflexivity|].
    assert (B1 : (F2Q (Zpos m) e <= 1)%Q).
    { destruct (Qlt_le_dec 1 (F2Q (Zpos m) e)) as [G|G]; [|exact G].
      rewrite <- B2Q_one in G. apply (fltb_nonneg f_one _ N1 Np) in G. congruence. }
    destruct (canonical_inj m e (Z.to_pos M52) (-52) (proj1 R) (proj1 one_representable)) as [-> ->].
    { rewrite F2Q_one. apply Qle_antisym; assumption. }
    reflexivity.
Qed.

(** X14.  What the clamp hides when the lot is said to hold at least twice
    as many defectives as units.  For [0 <= n <= N] and
    [2 * N <= D <= 2^1023] every factor of the product is at most -1, so the
    product has magnitude at least one and the sign of [(-1)^n]:
    [prob_zero_defects] returns exactly 1.0 for an even sample size and
    exactly 0.0 for an odd one. *)
Theorem prob_zero_defects_beyond_twice_the_lot (N D n : Z) :
  1 <= N -> 2 * N <= D <= two_1023 -> 0 <= n <= N ->
  prob_zero_defects (F := float) N D n = Ok (if Z.even n then f_one else f_zero).
Proof.
  intros HN HD Hn. destruct (Z.eq_dec n 0) as [->|Nn].
  - reflexivity.
  - rewrite prob_zero_defects_unfold by lia.
    destruct (pzd_loop_beyond N D HN HD n Hn) as (p & -> & B). cbn [bind].
    rewrite (clamp_big_signed _ p B), <- Z.negb_even. destruct (Z.even n); reflexivity.
Qed.

Lemma prob_zero_defects_beyond_twice_the_lot_witness :
  prob_zero_defects (F := float) 10 25 4 = Ok (if Z.even 4 then f_one else f_zero).
Proof.
  apply (prob_zero_defects_beyond_twice_the_lot 10 25 4); unfold two_1023; lia.
Defined.

(** * The curves over their whole range *)

Lemma float_of_Z_value (i : Z) :
  0 <= i <= two_53 -> nonneg (float_of_Z i) /\ (B2Q (float_of_Z i) == inject_Z i)%Q.
Proof.
  intros Hi. destruct (Z.eq_dec i 0) as [->|Ni].
  - split; [exact I|reflexivity].
  - destruct (float_of_Z_exact i ltac:(lia)) as (m & e & -> & R & V).
    split; [exact R|exact V].
Qed.

Lemma grid_point_zero (p_max : float) (puntos : Z) :
  nonneg p_max -> (0 < B2Q p_max)%Q -> 2 <= puntos <= two_53 ->
  grid_point p_max puntos 0 = f_zero.
Proof.
  intros Np P0 Hp.
  unfold grid_point. destruct (Z.eqb_spec 0 (puntos - 1)); [lia|].
  rewrite (fsub_zero_r p_max Np P0).
  destruct (float_of_Z_exact (puntos - 1) ltac:(lia)) as (md & ed & -> & Rd & Vd).
  change (float_of_Z 0) with (S754_zero false).
  destruct p_max as [s|s| |[|] mp ep] eqn:Epm; cbn [nonneg B2Q] in *; try tauto; try lra.
  destruct (fdiv_nonneg_le (S754_finite false mp ep) (S754_finite false md ed) mp ep) as [Ns _];
    cbn [nonneg B2Q]; auto; try apply F2Q_pos.
  { pose proof (F2Q_pos mp ep).
    assert (1 <= F2Q (Zpos md) ed)%Q.
    { rewrite Vd. change 1%Q with (inject_Z 1). rewrite <- Zle_Qle. lia. }
    nra. }
  destruct (fdiv (S754_finite false mp ep) (S754_finite false md ed)) as [[|]|s| |[|] m e];
    cbn [nonneg] in Ns; try tauto; reflexivity.
Qed.

Lemma grid_point_formula (p_max : float) (puntos i : Z) :
  nonneg p_max -> (0 < B2Q p_max)%Q -> 0 <= i < puntos - 1 ->
  grid_point p_max puntos i
  = fadd (if feqb (fdiv p_max (float_of_Z (puntos - 1))) f_zero
          then fmul (fdiv (float_of_Z i) (float_of_Z (puntos - 1))) p_max
          else fmul (float_of_Z i) (fdiv p_max (float_of_Z (puntos - 1)))) f_zero.
Proof.
  intros Np P0 Hi. unfold grid_point. destruct (Z.eqb_spec i (puntos - 1)); [lia|].
  rewrite (fsub_zero_r p_max Np P0). reflexivity.
Qed.

Section WideGrid.
Variables (p_max : float) (puntos b : Z).
Hypothesis Np : nonneg p_max.
Hypothesis P0 : (0 < B2Q p_max)%Q.
Hypothesis Pb : (B2Q p_max <= pow2 b)%Q.
Hypothesis Hb : -1021 <= b <= 1022.
Hypothesis Hp : 2 <= puntos <= two_53.

(** No sample exceeds twice the power of two that bounds [p_max]. *)
Lemma grid_point_le (i : Z) :
  0 <= i < puntos ->
  nonneg (grid_point p_max puntos i) /\ (B2Q (grid_point p_max puntos i) <= pow2 (b + 1))%Q.
Proof.
  intros Hi.
  assert (Lb : (pow2 b <= pow2 (b + 1))%Q) by (apply pow2_le; lia).
  destruct (Z.eq_dec i (puntos - 1)) as [->|Ni].
  { rewrite grid_point_last. split; [exact Np|lra]. }
  rewrite (grid_point_formula p_max puntos i Np P0) by lia.
  destruct (float_of_Z_exact (puntos - 1) ltac:(lia)) as (md & ed & Ed & Rd & Vd).
  rewrite Ed. set (fd := S754_finite false md ed).
  assert (Nd : nonneg fd) by exact Rd.
  assert (Bd : (B2Q fd == inject_Z (puntos - 1))%Q) by exact Vd.
  assert (Pd : (0 < B2Q fd)%Q) by apply F2Q_pos.
  destruct (float_of_Z_value i ltac:(lia)) as [Ny By].
  (* the digits of the divisor *)
  destruct (puntos - 1) as [|pd|pd] eqn:Ediv; try lia.
  pose proof (dig_Z pd) as Hd. pose proof (dig_pos pd) as Hd0.
  set (j := dig (Zpos pd)) in *.
  assert (Hj : j <= 53).
  { apply dig_le; [lia|]. unfold two_53 in Hp. lia. }
  assert (Qd1 : (pow2 (j - 1) <= inject_Z (Zpos pd))%Q) by (rewrite pow2_Z by lia; rewrite <- Zle_Qle; lia).
  assert (Qi : (inject_Z i <= pow2 j)%Q) by (rewrite pow2_Z by lia; rewrite <- Zle_Qle; lia).
  assert (Qi0 : (0 <= inject_Z i)%Q) by (change 0%Q with (inject_Z 0); rewrite <- Zle_Qle; lia).
  assert (Qid : (inject_Z i <= inject_Z (Zpos pd))%Q) by (rewrite <- Zle_Qle; lia).
  pose proof (pow2_pos (b - j + 1)) as PS. pose proof (pow2_pos (j - 1)) as PJ.
  pose proof (pow2_pos j) as PJ'.
  assert (S1 : (pow2 (b - j + 1) * pow2 (j - 1) == pow2 b)%Q).
  { rewrite <- pow2_add. replace (b - j + 1 + (j - 1)) with b by lia. reflexivity. }
  assert (S2 : (pow2 j * pow2 (b - j + 1) == pow2 (b + 1))%Q).
  { rewrite <- pow2_add. replace (j + (b - j + 1)) with (b + 1) by lia. reflexivity. }
  destruct (pow2_rep (b - j + 1) ltac:(lia)) as (ms & es & RS & VS).
  destruct (pow2_rep (b + 1) ltac:(lia)) as (mt & et & RT & VT).
  destruct (fdiv_nonneg_le p_max fd ms es Np Nd Pd RS) as [Ns Bs].
  { rewrite VS, Bd. nra. }
  rewrite VS in Bs. pose proof (nonneg_B2Q _ Ns) as S0.
  assert (H : nonneg (if feqb (fdiv p_max fd) f_zero
                      then fmul (fdiv (float_of_Z i) fd) p_max
                      else fmul (float_of_Z i) (fdiv p_max fd)) /\
              (B2Q (if feqb (fdiv p_max fd) f_zero
                    then fmul (fdiv (float_of_Z i) fd) p_max
                    else fmul (float_of_Z i) (fdiv p_max fd)) <= pow2 (b + 1))%Q).
  { rewrite <- VT. destruct (feqb (fdiv p_max fd) f_zero).
    - destruct (fdiv_nonneg_le (float_of_Z i) fd _ _ Ny Nd Pd one_representable) as [Na Ba].
      { rewrite F2Q_one, By, Bd. lra. }
      rewrite F2Q_one in Ba. pose proof (nonneg_B2Q _ Na) as A0.
      apply fmul_nonneg_le; auto. rewrite VT. nra.
    - apply fmul_nonneg_le; auto. rewrite VT, By, <- S2. nra. }
  destruct H as [Ng Bg]. destruct (fadd_zero_r _ Ng) as [Nr Br].
  split; [exact Nr|]. rewrite Br. exact Bg.
Qed.
End WideGrid.

Lemma ordinate_total_wide (eval : Z -> result float) (N : Z) (p : float) (a b : Z) :
  1 <= N <= 2 ^ a -> 0 <= a <= 1023 -> -1074 <= a + b <= 1023 ->
  nonneg p -> (B2Q p <= pow2 b)%Q ->
  (forall D, 0 <= D <= two_1023 -> exists P, eval D = Ok P) ->
  exists v, ordinate eval N p = Ok v.
Proof.
  intros HN Ha Hab Np Bp Hev. unfold ordinate, int_mul_float.
  destruct (pow2_rep a ltac:(lia)) as (ma & ea & Ra & Va).
  destruct (pow2_rep (a + b) ltac:(lia)) as (mc & ec & Rc & Vc).
  destruct (int_to_float_pos N _ _ ltac:(lia) Ra) as (m & e & -> & R & L & U).
  { rewrite Va, pow2_Z by lia. rewrite <- Zle_Qle. lia. }
  cbn [bind]. pose proof (nonneg_B2Q p Np) as P0. rewrite Va in U.
  destruct (fmul_nonneg_le (S754_finite false m e) p _ _ R Np Rc) as [Nx Bx].
  { cbn [B2Q]. rewrite Vc, pow2_add. pose proof (F2Q_pos m e). pose proof (pow2_pos a). nra. }
  destruct (py_ceil_finite _ (nonneg_finite _ Nx)) as (D & -> & D1 & D2). cbn [bind].
  pose proof (nonneg_B2Q _ Nx) as X0. rewrite Vc in Bx.
  assert (Lc : (pow2 (a + b) <= pow2 1023)%Q) by (apply pow2_le; lia).
  assert (HD : 0 <= D <= two_1023).
  { split.
    - assert (H : (inject_Z 0 - 1 < inject_Z D)%Q) by (change (inject_Z 0) with 0%Q; lra).
      unfold Qminus in H. change (- (1))%Q with (inject_Z (-1)) in H.
      rewrite <- inject_Z_plus, <- Zlt_Qlt in H. lia.
    - assert (H : (inject_Z D - 1 < inject_Z (2 ^ 1023))%Q) by (rewrite <- pow2_Z by lia; lra).
      unfold Qminus in H. change (- (1))%Q with (inject_Z (-1)) in H.
      rewrite <- inject_Z_plus, <- Zlt_Qlt in H. unfold two_1023. lia. }
  destruct (Hev D HD) as (P & ->). cbn [bind]. eexists; reflexivity.
Qed.

Lemma ordinate_zero_wide (eval : Z -> result float) (N : Z) :
  1 <= N <= two_1023 -> eval 0 = Ok f_one -> ordinate eval N f_zero = Ok f_hundred.
Proof.
  intros HN He. unfold ordinate, int_mul_float.
  destruct (int_to_float_pos N _ _ ltac:(lia) big_representable) as (m & e & -> & R & L & U).
  { rewrite two_1023_big, <- Zle_Qle. lia. }
  cbn. rewrite He. reflexivity.
Qed.

Lemma curve_ordinates_wide (eval : Z -> result float) (N : Z) (p_max : float) (puntos a b : Z) :
  1 <= N <= 2 ^ a -> 0 <= a <= 1023 -> -1021 <= b -> a + b < 1023 ->
  nonneg p_max -> (0 < B2Q p_max)%Q -> (B2Q p_max <= pow2 b)%Q ->
  2 <= puntos <= two_53 ->
  (forall D, 0 <= D <= two_1023 -> exists P, eval D = Ok P) ->
  eval 0 = Ok f_one ->
  exists vs,
    mapM (ordinate eval N) (map (grid_point p_max puntos) (range 0 puntos)) = Ok vs /\
    Forall2 (fun p v => exists x D P, int_mul_float N p = Ok x /\ py_ceil x = Ok D /\
                                      eval D = Ok P /\ v = fmul P f_hundred)
            (map (grid_point p_max puntos) (range 0 puntos)) vs /\
    hd f_zero vs = f_hundred.
Proof.
  intros HN Ha Hb Hab Np P0 Pb Hp Hev He0.
  assert (HN' : 1 <= N <= two_1023).
  { split; [lia|]. apply Z.le_trans with (2 ^ a); [lia|].
    unfold two_1023. apply Z.pow_le_mono_r; lia. }
  destruct (mapM_Forall2 (ordinate eval N) (fun p => nonneg p /\ (B2Q p <= pow2 (b + 1))%Q)
              (map (grid_point p_max puntos) (range 0 puntos))) as (vs & E & F).
  - apply Forall_forall. intros p Hin. apply in_map_iff in Hin. destruct Hin as (i & <- & Hi).
    apply range_In in Hi. apply grid_point_le; try assumption; lia.
  - intros p [Npp Bp]. apply (ordinate_total_wide eval N p a (b + 1)); try assumption; lia.
  - exists vs. split; [exact E|]. split.
    + eapply Forall2_impl; [|exact F]. intros p v H. apply ordinate_inv. exact H.
    + rewrite (range_cons 0 puntos) in F by lia. cbn [map] in F.
      inversion F as [|p v ps' vs' H0 _]; subst. cbn [hd].
      rewrite (grid_point_zero p_max puntos Np P0 Hp) in H0.
      rewrite (ordinate_zero_wide eval N HN' He0) in H0. injection H0 as <-. reflexivity.
Qed.

(** C7, as the code has it.  Take a lot [N <= 2^a] and a float
    [0 < p_max <= 2^b] with [a <= 1023], [b >= -1021] and [a + b < 1023] (so
    that no product [N * p] overflows), and [2 <= puntos <= 2^53].  Then
    [linspace(0, p_max, puntos)] returns [puntos] samples: the first is 0.0,
    the last is [p_max], and the one of index [i] between them is
    [i * step + 0.0] with [step = p_max / (puntos - 1)], or
    [(i / (puntos - 1)) * p_max + 0.0] when [step] rounds to zero.  Both
    generators return these samples times 100 as abscissas, and [puntos]
    ordinates, each 100 times the acceptance probability at
    [D = ceil(N * p)]; the first ordinate is 100.0.  [curva_CO] does so as
    long as [min(n, N - n)] fits a C [long long], the limit of
    [math.comb]. *)
Theorem oc_curve_points (N n c : Z) (p_max : float) (puntos a b : Z) :
  1 <= N <= 2 ^ a -> 0 <= a <= 1023 -> -1021 <= b -> a + b < 1023 ->
  0 <= n <= N -> 0 <= c ->
  nonneg p_max -> (0 < B2Q p_max)%Q -> (B2Q p_max <= pow2 b)%Q ->
  2 <= puntos <= two_53 ->
  exists ps,
    linspace f_zero p_max puntos = Ok ps /\
    length ps = Z.to_nat puntos /\ hd f_zero ps = f_zero /\ last ps f_zero = p_max /\
    (forall i, 0 <= i < puntos - 1 ->
       nth (Z.to_nat i) ps f_zero
       = fadd (if feqb (fdiv p_max (float_of_Z (puntos - 1))) f_zero
               then fmul (fdiv (float_of_Z i) (float_of_Z (puntos - 1))) p_max
               else fmul (float_of_Z i) (fdiv p_max (float_of_Z (puntos - 1)))) f_zero) /\
    (Z.min n (N - n) <= llong_max ->
     exists Pa_vals,
       PlanC.curva_CO N n c p_max puntos = Ok (map (fun p => fmul p f_hundred) ps, Pa_vals) /\
       length Pa_vals = Z.to_nat puntos /\
       Forall2 (fun p v => exists x D P, int_mul_float N p = Ok x /\ py_ceil x = Ok D /\
                                         prob_aceptacion N D n c = Ok P /\ v = fmul P f_hundred)
               ps Pa_vals /\
       hd f_zero Pa_vals = f_hundred) /\
    (exists Pa,
       PlanC0.curva_OC_hipergeometrica N n p_max puntos
         = Ok (map (fun p => fmul p f_hundred) ps, Pa) /\
       length Pa = Z.to_nat puntos /\
       Forall2 (fun p v => exists x D P, int_mul_float N p = Ok x /\ py_ceil x = Ok D /\
                                         prob_zero_defects N D n = Ok P /\ v = fmul P f_hundred)
               ps Pa /\
       hd f_zero Pa = f_hundred).
Proof.
  intros HN Ha Hb Hab Hn Hc Np P0 Pb Hp.
  set (ps := map (grid_point p_max puntos) (range 0 puntos)).
  assert (HN' : N <= two_1023).
  { apply Z.le_trans with (2 ^ a); [lia|]. unfold two_1023. apply Z.pow_le_mono_r; lia. }
  assert (Len : length ps = Z.to_nat puntos).
  { unfold ps. rewrite length_map, range_length. f_equal. lia. }
  exists ps. split; [apply linspace_grid; lia|].
  split; [exact Len|]. split; [|split; [|split; [|split]]].
  - unfold ps. rewrite (range_cons 0 puntos) by lia. cbn [map hd].
    apply grid_point_zero; assumption.
  - unfold ps. rewrite (range_snoc 0 puntos), map_app by lia. cbn [map].
    rewrite last_last. apply grid_point_last.
  - intros i Hi. unfold ps.
    rewrite <- (grid_point_formula p_max puntos i Np P0 Hi).
    rewrite (nth_indep _ f_zero (grid_point p_max puntos 0))
      by (rewrite length_map, range_length; lia).
    rewrite map_nth. f_equal. rewrite range_nth by lia. lia.
  - intros HL. rewrite curva_CO_unfold, linspace_grid by lia. cbn [bind]. fold ps.
    destruct (curve_ordinates_wide (fun D => prob_aceptacion N D n c) N p_max puntos a b)
      as (vs & E & F & H); try assumption.
    + intros D _. apply prob_aceptacion_total. exact HL.
    + apply prob_aceptacion_certain; try lia.
    + fold ps in E, F. rewrite E. cbn [bind]. exists vs. split; [reflexivity|].
      split; [|split; assumption]. rewrite <- (Forall2_length F). exact Len.
  - rewrite curva_OC_unfold, linspace_grid by lia. cbn [bind]. fold ps.
    destruct (curve_ordinates_wide (fun D => prob_zero_defects N D n) N p_max puntos a b)
      as (vs & E & F & H); try assumption.
    + intros D HD. apply prob_zero_defects_total; lia.
    + apply prob_zero_defects_certain. lia.
    + fold ps in E, F. rewrite E. cbn [bind]. exists vs. split; [reflexivity|].
      split; [|split; assumption]. rewrite <- (Forall2_length F). exact Len.
Qed.

Lemma oc_curve_points_witness :
  exists ps,
    linspace f_zero lit_0_08 3 = Ok ps /\
    length ps = Z.to_nat 3 /\ hd f_zero ps = f_zero /\ last ps f_zero = lit_0_08 /\
    (forall i, 0 <= i < 3 - 1 ->
       nth (Z.to_nat i) ps f_zero
       = fadd (if feqb (fdiv lit_0_08 (float_of_Z (3 - 1))) f_zero
               then fmul (fdiv (float_of_Z i) (float_of_Z (3 - 1))) lit_0_08
               else fmul (float_of_Z i) (fdiv lit_0_08 (float_of_Z (3 - 1)))) f_zero) /\
    (Z.min 2 (10 - 2) <= llong_max ->
     exists Pa_vals,
       PlanC.curva_CO 10 2 1 lit_0_08 3 = Ok (map (fun p => fmul p f_hundred) ps, Pa_vals) /\
       length Pa_vals = Z.to_nat 3 /\
       Forall2 (fun p v => exists x D P, int_mul_float 10 p = Ok x /\ py_ceil x = Ok D /\
                                         prob_aceptacion 10 D 2 1 = Ok P /\ v = fmul P f_hundred)
               ps Pa_vals /\
       hd f_zero Pa_vals = f_hundred) /\
    (exists Pa,
       PlanC0.curva_OC_hipergeometrica 10 2 lit_0_08 3
         = Ok (map (fun p => fmul p f_hundred) ps, Pa) /\
       length Pa = Z.to_nat 3 /\
       Forall2 (fun p v => exists x D P, int_mul_float 10 p = Ok x /\ py_ceil x = Ok D /\
                                         prob_zero_defects 10 D 2 = Ok P /\ v = fmul P f_hundred)
               ps Pa /\
       hd f_zero Pa = f_hundred).
Proof.
  apply (oc_curve_points 10 2 1 lit_0_08 3 4 0).
  - lia.
  - lia.
  - lia.
  - lia.
  - lia.
  - lia.
  - split; [reflexivity|lia].
  - reflexivity.
  - vm_compute. discriminate.
  - unfold two_53. lia.
Defined.

(** For a lot of [2^1024] units [N * p] cannot be formed: both generators
    raise at the first sample. *)
Lemma oc_curve_huge_lot :
  1 <= two_1024 /\ 0 <= 1 <= two_1024 /\
  PlanC.curva_CO two_1024 1 0 lit_0_08 2 = Raise OverflowError /\
  PlanC0.curva_OC_hipergeometrica two_1024 1 lit_0_08 2 = Raise OverflowError.
Proof.
  split; [unfold two_1024; lia|]. split; [unfold two_1024; lia|].
  split; vm_compute; reflexivity.
Qed.

(** When the step underflows, [linspace] takes its other branch: with
    [p_max] the smallest positive float and four samples the grid is
    [0, 0, p_max, p_max]. *)
Example linspace_step_underflow :
  feqb (fdiv (S754_finite false 1 (-1074)) (float_of_Z (4 - 1))) f_zero = true /\
  linspace f_zero (S754_finite false 1 (-1074)) 4
  = Ok [f_zero; f_zero; S754_finite false 1 (-1074); S754_finite false 1 (-1074)].
Proof. split; vm_compute; reflexivity. Qed.
